(** * The rule-based NLU core of the maintenance bot ([app/nlu.py])

    A shallow embedding of [app/nlu.py]: text normalisation, greeting and
    farewell detection, the intent matcher, the date-expression resolver and
    the slot extractor, together with the parts of the Python runtime they
    rest on (code-point strings, the [re] matcher for the pattern forms that
    occur in the module, and proleptic Gregorian [date] arithmetic). *)

From Stdlib Require Import String Ascii List NArith ZArith Bool Lia.
Import ListNotations.

(** ** Python [str]: finite sequences of Unicode code points *)

Module PyStr.

(** A code point, and a string. *)
Abbreviation cp := N (only parsing).
Abbreviation str := (list N) (only parsing).

(** Decoding of the UTF-8 bytes of a Rocq string literal, so that the
    literals of the Python module can be written as they stand there.
    [pend] counts the continuation bytes still owed to [acc]. *)
Fixpoint utf8 (bs : list N) (pend : nat) (acc : N) : str :=
  match bs with
  | [] => []
  | b :: bs' =>
      match pend with
      | S p =>
          let acc' := (acc * 64 + (b - 128))%N in
          match p with
          | O => acc' :: utf8 bs' O 0%N
          | S _ => utf8 bs' p acc'
          end
      | O =>
          if (b <? 128)%N then b :: utf8 bs' O 0%N
          else if (b <? 224)%N then utf8 bs' 1%nat (b - 192)%N
          else if (b <? 240)%N then utf8 bs' 2%nat (b - 224)%N
          else utf8 bs' 3%nat (b - 240)%N
      end
  end.

Definition py (s : string) : str :=
  utf8 (map N_of_ascii (list_ascii_of_string s)) O 0%N.

(** [str.isspace] for one character; the same set is used by [str.strip]
    and by [\s] in a [str] pattern. *)
Definition is_space (c : cp) : bool :=
  ((9 <=? c) && (c <=? 13) || (28 <=? c) && (c <=? 32) || (c =? 133)
   || (c =? 160) || (c =? 5760) || (8192 <=? c) && (c <=? 8202)
   || (c =? 8232) || (c =? 8233) || (c =? 8239) || (c =? 8287)
   || (c =? 12288))%N.

Fixpoint lstrip (s : str) : str :=
  match s with
  | c :: s' => if is_space c then lstrip s' else s
  | [] => []
  end.

Definition rstrip (s : str) : str := rev (lstrip (rev s)).

(** [s.strip()] *)
Definition strip (s : str) : str := rstrip (lstrip s).

Fixpoint prefix (w s : str) : bool :=
  match w, s with
  | [], _ => true
  | a :: w', b :: s' => (a =? b)%N && prefix w' s'
  | _ :: _, [] => false
  end.

(** [w in s] on strings: [w] occurs in [s] as a contiguous block. *)
Fixpoint str_in (w s : str) : bool :=
  prefix w s || match s with [] => false | _ :: s' => str_in w s' end.

(** [any(w in t for w in ws)] *)
Definition any_in (ws : list str) (t : str) : bool :=
  existsb (fun w => str_in w t) ws.

Fixpoint str_eqb (a b : str) : bool :=
  match a, b with
  | [], [] => true
  | x :: a', y :: b' => (x =? y)%N && str_eqb a' b'
  | _, _ => false
  end.

(** [a <= b] on strings: lexicographic order of the code points. *)
Fixpoint str_leb (a b : str) : bool :=
  match a, b with
  | [], _ => true
  | _ :: _, [] => false
  | x :: a', y :: b' => (x <? y)%N || (x =? y)%N && str_leb a' b'
  end.

End PyStr.
Import PyStr.

(** ** The Unicode character database

    [str.lower], [str.capitalize], [unicodedata.normalize] and
    [unicodedata.category] read tables of the interpreter's Unicode
    database, which is no part of the repository: they are an interface of
    the embedding.  What a [str] pattern needs to know about an ASCII
    character is fixed below ([is_word], [decimal]); the tables are asked
    for the other characters only. *)

Class Unicode := {
  (** [s.lower()] *)
  str_lower : str -> str;
  (** [s.capitalize()] *)
  str_capitalize : str -> str;
  (** [unicodedata.normalize("NFD", s)] *)
  normalize_NFD : str -> str;
  (** [unicodedata.category(ch) == "Mn"] *)
  category_Mn : cp -> bool;
  (** [ch.isalnum()] for a character outside ASCII *)
  uni_alnum : cp -> bool;
  (** the decimal digit value of a character outside ASCII, if it has one *)
  uni_decimal : cp -> option N
}.

Section Chars.
Context {U : Unicode}.

Definition ascii_digit (c : cp) : bool := ((48 <=? c) && (c <=? 57))%N.

Definition ascii_alnum (c : cp) : bool :=
  (ascii_digit c || (65 <=? c) && (c <=? 90) || (97 <=? c) && (c <=? 122))%N.

(** [\w] of a [str] pattern: alphanumeric or the underscore. *)
Definition is_word (c : cp) : bool :=
  if (c <? 128)%N then ascii_alnum c || (c =? 95)%N else uni_alnum c.

(** The value of a decimal digit ([\d] matches exactly the characters that
    have one, and [int] reads them). *)
Definition decimal (c : cp) : option N :=
  if (c <? 128)%N then (if ascii_digit c then Some (c - 48)%N else None)
  else uni_decimal c.

Definition is_digit (c : cp) : bool :=
  match decimal c with Some _ => true | None => false end.

End Chars.

(** ** The [re] matcher

    Patterns as syntax trees, covering the constructs that occur in the
    patterns of [app/nlu.py], and a backtracking matcher with the priorities
    of Python's engine: alternatives are tried from left to right, [*], [+]
    and [?] are greedy, and [re.search] returns the match found at the
    leftmost position where one exists. *)

Module Re.

Inductive regex : Type :=
| Eps                               (* the empty pattern *)
| Chr (c : cp)                      (* a literal character *)
| Dot                               (* [.]: any character but a newline *)
| OneOf (cs : str)                  (* [[...]]: one of the listed characters *)
| Space                             (* [\s] *)
| Digit                             (* [\d] *)
| WordB                             (* [\b] *)
| Cat (r1 r2 : regex)               (* [r1 r2] *)
| Alt (r1 r2 : regex)               (* [r1|r2] *)
| Star (r : regex)                  (* [r*] *)
| Group (i : nat) (r : regex).      (* the [i]-th capturing group [(r)] *)

(** A literal string. *)
Fixpoint Lit (s : str) : regex :=
  match s with
  | [] => Eps
  | c :: s' => Cat (Chr c) (Lit s')
  end.

Definition L (s : string) : regex := Lit (py s).

(** [r+], [r?] and [r{n}] *)
Definition Plus (r : regex) : regex := Cat r (Star r).
Definition Opt (r : regex) : regex := Alt r Eps.
Fixpoint Rep (n : nat) (r : regex) : regex :=
  match n with
  | O => Eps
  | S n' => Cat r (Rep n' r)
  end.

(** [r1|r2|...|rn] *)
Fixpoint Alts (rs : list regex) : regex :=
  match rs with
  | [] => Eps
  | [r] => r
  | r :: rs' => Alt r (Alts rs')
  end.

Declare Scope re_scope.
Delimit Scope re_scope with re.
Bind Scope re_scope with regex.
Infix "@@" := Cat (at level 41, right associativity) : re_scope.

(** The text captured by the groups, latest first. *)
Definition caps := list (nat * str).

(** [mobj.group(i)]; [None] when the group took no part in the match. *)
Fixpoint group (g : caps) (i : nat) : option str :=
  match g with
  | [] => None
  | (j, s) :: g' => if Nat.eqb i j then Some s else group g' i
  end.

Section Matcher.
Context {U : Unicode}.

Definition next_is_word (s : str) : bool :=
  match s with
  | c :: _ => is_word c
  | [] => false
  end.

(** [mt r wb s g k]: match [r] at the head of [s], where [wb] tells whether
    the character before the cursor is a word character (for [\b]) and [g]
    holds the groups closed so far; [k] continues with the rest of the
    pattern.  An iteration of [Star] has to consume a character: every
    starred pattern of the module does. *)
Fixpoint mt {R : Type} (r : regex) (wb : bool) (s : str) (g : caps)
    (k : bool -> str -> caps -> option R) {struct r} : option R :=
  match r with
  | Eps => k wb s g
  | Chr c =>
      match s with
      | x :: s' => if (x =? c)%N then k (is_word x) s' g else None
      | [] => None
      end
  | Dot =>
      match s with
      | x :: s' => if (x =? 10)%N then None else k (is_word x) s' g
      | [] => None
      end
  | OneOf cs =>
      match s with
      | x :: s' => if existsb (N.eqb x) cs then k (is_word x) s' g else None
      | [] => None
      end
  | Space =>
      match s with
      | x :: s' => if is_space x then k (is_word x) s' g else None
      | [] => None
      end
  | Digit =>
      match s with
      | x :: s' => if is_digit x then k (is_word x) s' g else None
      | [] => None
      end
  | WordB => if xorb wb (next_is_word s) then k wb s g else None
  | Cat r1 r2 => mt r1 wb s g (fun wb' s' g' => mt r2 wb' s' g' k)
  | Alt r1 r2 =>
      match mt r1 wb s g k with
      | Some x => Some x
      | None => mt r2 wb s g k
      end
  | Star r1 =>
      (fix loop (n : nat) (wb : bool) (s : str) (g : caps) : option R :=
         match n with
         | O => k wb s g
         | S n' =>
             match mt r1 wb s g
                     (fun wb' s' g' =>
                        if Nat.ltb (length s') (length s)
                        then loop n' wb' s' g' else None) with
             | Some x => Some x
             | None => k wb s g
             end
         end) (length s) wb s g
  | Group i r1 =>
      mt r1 wb s g
         (fun wb' s' g' =>
            k wb' s' ((i, firstn (length s - length s') s) :: g'))
  end.

(** The groups of the match of [r] that starts at the cursor. *)
Definition match_at (r : regex) (wb : bool) (s : str) : option caps :=
  mt r wb s [] (fun _ _ g => Some g).

(** The text after the match of [r] that starts at the cursor. *)
Definition match_here (r : regex) (wb : bool) (s : str) : option (bool * str) :=
  mt r wb s [] (fun wb' s' _ => Some (wb', s')).

Fixpoint search_from (r : regex) (wb : bool) (s : str) : option caps :=
  match match_at r wb s with
  | Some g => Some g
  | None =>
      match s with
      | [] => None
      | x :: s' => search_from r (is_word x) s'
      end
  end.

(** [re.search(r, s)] *)
Definition search (r : regex) (s : str) : option caps := search_from r false s.

(** [re.search(r, s) is not None] *)
Definition found (r : regex) (s : str) : bool :=
  match search r s with Some _ => true | None => false end.

Fixpoint sub_loop (n : nat) (r : regex) (repl : str) (wb : bool) (s : str) : str :=
  match n with
  | O => s
  | S n' =>
      match match_here r wb s with
      | Some (wb', s') =>
          if Nat.ltb (length s') (length s)
          then repl ++ sub_loop n' r repl wb' s'
          else
            repl ++ match s with
                    | [] => []
                    | x :: s1 => x :: sub_loop n' r repl (is_word x) s1
                    end
      | None =>
          match s with
          | [] => []
          | x :: s1 => x :: sub_loop n' r repl (is_word x) s1
          end
      end
  end.

(** [re.sub(r, repl, s)] for a replacement without group references: the
    matches are found from left to right and do not overlap. *)
Definition sub (r : regex) (repl : str) (s : str) : str :=
  sub_loop (S (length s)) r repl false s.

End Matcher.
End Re.

(** ** Exceptions *)

Inductive exn : Type := ValueError | OverflowError | TypeError.

(** The outcome of a call that may raise. *)
Inductive result (A : Type) : Type :=
| Ok (a : A)
| Raise (e : exn).
Arguments Ok {A} a.
Arguments Raise {A} e.

Definition bind {A B : Type} (r : result A) (f : A -> result B) : result B :=
  match r with
  | Ok a => f a
  | Raise e => Raise e
  end.

Notation "x <- r ;; k" := (bind r (fun x => k))
  (at level 61, r at next level, right associativity).

(** ** [datetime.date]: the proleptic Gregorian calendar

    The helpers follow the pure-Python [datetime] module. *)

Module PyDate.
Local Open Scope Z_scope.

Record date : Type := mkdate { year : Z; month : Z; day : Z }.

Definition MINYEAR : Z := 1.
Definition MAXYEAR : Z := 9999.
Definition _MAXORDINAL : Z := 3652059.

Definition _DAYS_IN_MONTH (m : Z) : Z :=
  match m with
  | 1 => 31 | 2 => 28 | 3 => 31 | 4 => 30 | 5 => 31 | 6 => 30
  | 7 => 31 | 8 => 31 | 9 => 30 | 10 => 31 | 11 => 30 | 12 => 31
  | _ => -1
  end.

Definition _DAYS_BEFORE_MONTH (m : Z) : Z :=
  match m with
  | 1 => 0 | 2 => 31 | 3 => 59 | 4 => 90 | 5 => 120 | 6 => 151
  | 7 => 181 | 8 => 212 | 9 => 243 | 10 => 273 | 11 => 304 | 12 => 334
  | _ => -1
  end.

Definition _is_leap (y : Z) : bool :=
  (y mod 4 =? 0) && (negb (y mod 100 =? 0) || (y mod 400 =? 0)).

Definition _days_before_year (y : Z) : Z :=
  let y := y - 1 in
  y * 365 + y / 4 - y / 100 + y / 400.

Definition _days_in_month (y m : Z) : Z :=
  if (m =? 2) && _is_leap y then 29 else _DAYS_IN_MONTH m.

Definition _days_before_month (y m : Z) : Z :=
  _DAYS_BEFORE_MONTH m + (if (2 <? m) && _is_leap y then 1 else 0).

Definition _ymd2ord (y m d : Z) : Z :=
  _days_before_year y + _days_before_month y m + d.

Definition _DI400Y : Z := 146097.
Definition _DI100Y : Z := 36524.
Definition _DI4Y : Z := 1461.

Definition _ord2ymd (n : Z) : Z * Z * Z :=
  let n := n - 1 in
  let n400 := n / _DI400Y in
  let n := n mod _DI400Y in
  let year := n400 * 400 + 1 in
  let n100 := n / _DI100Y in
  let n := n mod _DI100Y in
  let n4 := n / _DI4Y in
  let n := n mod _DI4Y in
  let n1 := n / 365 in
  let n := n mod 365 in
  let year := year + n100 * 100 + n4 * 4 + n1 in
  if (n1 =? 4) || (n100 =? 4) then (year - 1, 12, 31)
  else
    let leapyear := (n1 =? 3) && (negb (n4 =? 24) || (n100 =? 3)) in
    let month := Z.shiftr (n + 50) 5 in
    let preceding :=
      _DAYS_BEFORE_MONTH month + (if (2 <? month) && leapyear then 1 else 0) in
    if n <? preceding then
      let month := month - 1 in
      let preceding :=
        preceding
        - (_DAYS_IN_MONTH month + (if (month =? 2) && leapyear then 1 else 0)) in
      (year, month, n - preceding + 1)
    else (year, month, n - preceding + 1).

(** The fields of a [date] object. *)
Definition valid (d : date) : Prop :=
  MINYEAR <= year d <= MAXYEAR /\ 1 <= month d <= 12
  /\ 1 <= day d <= _days_in_month (year d) (month d).

(** [date(y, m, d)] *)
Definition date_new (y m d : Z) : result date :=
  if (MINYEAR <=? y) && (y <=? MAXYEAR) && (1 <=? m) && (m <=? 12)
     && (1 <=? d) && (d <=? _days_in_month y m)
  then Ok (mkdate y m d)
  else Raise ValueError.

(** [d.replace(day=k)] *)
Definition replace_day (d : date) (k : Z) : result date :=
  date_new (year d) (month d) k.

(** [d.toordinal()] *)
Definition toordinal (d : date) : Z := _ymd2ord (year d) (month d) (day d).

Definition fromordinal (n : Z) : date :=
  let '(y, m, d) := _ord2ymd n in mkdate y m d.

(** [d.weekday()]: Monday is 0. *)
Definition weekday (d : date) : Z := (toordinal d + 6) mod 7.

(** [d - timedelta(days=n)]: the [timedelta] is built first, then the
    ordinal of the result is checked. *)
Definition sub_days (d : date) (n : Z) : result date :=
  if 999999999 <? Z.abs n then Raise OverflowError
  else
    let o := toordinal d - n in
    if (0 <? o) && (o <=? _MAXORDINAL) then Ok (fromordinal o)
    else Raise OverflowError.

Definition digit (n : Z) : cp := Z.to_N (48 + n mod 10).

(** ["%02d" % n] and ["%04d" % n] for a number of at most that many
    digits. *)
Definition pad2 (n : Z) : str := [digit (n / 10); digit n].
Definition pad4 (n : Z) : str :=
  [digit (n / 1000); digit (n / 100); digit (n / 10); digit n].

(** [d.isoformat()] *)
Definition isoformat (d : date) : str :=
  pad4 (year d) ++ [45%N] ++ pad2 (month d) ++ [45%N] ++ pad2 (day d).

End PyDate.
Import PyDate.

(** ** [app/nlu.py] *)

Module Nlu.
Import Re.
Local Open Scope re_scope.

(** The intent names returned by [detect_intent]. *)
Inductive Intent : Type :=
| HELP | MTTR | MTBF | PM_COMPLIANCE | BACKLOG | COSTS | TOP_DOWNTIME
| STATUS_COUNTS | TECH_BY_PERSON.

(** The dictionary built by [extract_slots]. *)
Record Slots : Type := mkSlots {
  site : option str;
  area : option str;
  type : option str;
  status : option str;
  date_from : option str;
  date_to : option str;
  technician : option str
}.

Definition GREETINGS : list str :=
  map py ["hola"; "buenas"; "buenos dias"; "buen dia"; "buenas tardes";
          "buenas noches"; "que puedes hacer"; "ayuda"; "help"; "/start";
          "/help"]%string.

Definition FAREWELLS : list str :=
  map py ["gracias"; "nos vemos"; "bye"; "adios"; "hasta luego";
          "hasta pronto"; "hasta manana"; "hasta mañana"; "chao";
          "me despido"]%string.

Definition MONTHS : list (str * Z) :=
  [(py "enero", 1); (py "febrero", 2); (py "marzo", 3); (py "abril", 4);
   (py "mayo", 5); (py "junio", 6); (py "julio", 7); (py "agosto", 8);
   (py "septiembre", 9); (py "setiembre", 9); (py "octubre", 10);
   (py "noviembre", 11); (py "diciembre", 12)]%Z.

Definition TECHS : list str :=
  map py ["andres"; "esteban"; "juan"; "sebastian"; "mateo"; "jose";
          "pablo"]%string.

(** [(?:dime|muestr(?:a|ame)|podrias|puedes|por favor|como esta|cual es|indica|reporta|quiero saber|me dices)] *)
Definition FILLER : regex :=
  Alts [L "dime"; L "muestr" @@ Alts [L "a"; L "ame"]; L "podrias";
        L "puedes"; L "por favor"; L "como esta"; L "cual es"; L "indica";
        L "reporta"; L "quiero saber"; L "me dices"].

(** [\b(ordenes|órdenes|ots)\b] *)
Definition ORDERS : regex :=
  WordB @@ Group 1 (Alts [L "ordenes"; L "órdenes"; L "ots"]) @@ WordB.

(** [\b(cuant[ao]s?)\b] *)
Definition CUANTOS : regex :=
  WordB @@ Group 1 (L "cuant" @@ OneOf (py "ao") @@ Opt (L "s")) @@ WordB.

(** The table of intent patterns, in the order of the dictionary. *)
Definition INTENTS : list (regex * Intent) :=
  [ (* \b(mttr|tiempo medio de reparacion)\b *)
    (WordB @@ Group 1 (Alts [L "mttr"; L "tiempo medio de reparacion"])
       @@ WordB, MTTR);
    (* \b(mtbf|tiempo medio entre fallas)\b *)
    (WordB @@ Group 1 (Alts [L "mtbf"; L "tiempo medio entre fallas"])
       @@ WordB, MTBF);
    (* \b(cumplimiento\s*pm|pm compliance|preventiv[oa]s?\s*cumplimiento|cumplimiento\s*de\s*pm)\b *)
    (WordB
       @@ Group 1 (Alts [L "cumplimiento" @@ Star Space @@ L "pm";
                         L "pm compliance";
                         L "preventiv" @@ OneOf (py "oa") @@ Opt (L "s")
                           @@ Star Space @@ L "cumplimiento";
                         L "cumplimiento" @@ Star Space @@ L "de"
                           @@ Star Space @@ L "pm"])
       @@ WordB, PM_COMPLIANCE);
    (* \b(backlog|atraso)\b *)
    (WordB @@ Group 1 (Alts [L "backlog"; L "atraso"]) @@ WordB, BACKLOG);
    (* \b(costos?|gastos?)\b *)
    (WordB @@ Group 1 (Alts [L "costo" @@ Opt (L "s");
                             L "gasto" @@ Opt (L "s")]) @@ WordB, COSTS);
    (* \b(paradas|downtime|tiempo muerto|top downtime)\b *)
    (WordB @@ Group 1 (Alts [L "paradas"; L "downtime"; L "tiempo muerto";
                             L "top downtime"]) @@ WordB, TOP_DOWNTIME);
    (* \b(estados?|estado|conteos?)\b *)
    (WordB @@ Group 1 (Alts [L "estado" @@ Opt (L "s"); L "estado";
                             L "conteo" @@ Opt (L "s")]) @@ WordB,
     STATUS_COUNTS);
    (* \b(cuant[ao]s?)\b.*\b(ordenes|órdenes|ots)\b.*\b(tiene)\b *)
    (CUANTOS @@ Star Dot
       @@ WordB @@ Group 2 (Alts [L "ordenes"; L "órdenes"; L "ots"]) @@ WordB
       @@ Star Dot @@ WordB @@ Group 3 (L "tiene") @@ WordB, TECH_BY_PERSON);
    (* \b(cuant[ao]s?)\b.*\b(ordenes|órdenes|ots)\b.*\b(abiert[as]?|cerrad[as]?|progreso|en progreso|totales?)\b.*\b(hay)\b *)
    (CUANTOS @@ Star Dot
       @@ WordB @@ Group 2 (Alts [L "ordenes"; L "órdenes"; L "ots"]) @@ WordB
       @@ Star Dot
       @@ WordB
       @@ Group 3 (Alts [L "abiert" @@ Opt (OneOf (py "as"));
                         L "cerrad" @@ Opt (OneOf (py "as"));
                         L "progreso"; L "en progreso";
                         L "totale" @@ Opt (L "s")])
       @@ WordB @@ Star Dot @@ WordB @@ Group 4 (L "hay") @@ WordB,
     STATUS_COUNTS) ].

(** [rf"\b{w}\b"] *)
Definition word_re (w : str) : regex := WordB @@ Lit w @@ WordB.

(** [rf"\b{name}\b(?:\s+(\d{{4}}))?"] *)
Definition month_re (name : str) : regex :=
  WordB @@ Lit name @@ WordB @@ Opt (Plus Space @@ Group 1 (Rep 4 Digit)).

(** [\bultimos?\s+(\d+)\s+dias\b] *)
Definition ULTIMOS : regex :=
  WordB @@ L "ultimo" @@ Opt (L "s") @@ Plus Space @@ Group 1 (Plus Digit)
    @@ Plus Space @@ L "dias" @@ WordB.

(** [\d{4}-\d{2}-\d{2}] *)
Definition ISO_DATE : regex :=
  Rep 4 Digit @@ L "-" @@ Rep 2 Digit @@ L "-" @@ Rep 2 Digit.

(** [\bdesde\s+(\d{4}-\d{2}-\d{2})\s+hasta\s+(\d{4}-\d{2}-\d{2})\b] *)
Definition DESDE_HASTA : regex :=
  WordB @@ L "desde" @@ Plus Space @@ Group 1 ISO_DATE @@ Plus Space
    @@ L "hasta" @@ Plus Space @@ Group 2 ISO_DATE @@ WordB.

Section WithUnicode.
Context {U : Unicode}.

Definition _norm (s : str) : str :=
  let s := strip (str_lower s) in
  let s := filter (fun ch => negb (category_Mn ch)) (normalize_NFD s) in
  let s := sub (Plus Space) (py " ") s in
  s.

Definition is_greeting (text : str) : bool :=
  let t := _norm text in
  any_in GREETINGS t.

Definition is_farewell (text : str) : bool :=
  let t := _norm text in
  any_in FAREWELLS t.

(** The loop over [INTENTS.items()]: the name of the first pattern found. *)
Fixpoint first_intent (table : list (regex * Intent)) (t2 : str) : option Intent :=
  match table with
  | [] => None
  | (pat, name) :: table' =>
      if found pat t2 then Some name else first_intent table' t2
  end.

Definition detect_intent (text : str) : Intent :=
  let t := _norm text in
  if any_in GREETINGS t then HELP
  else
    let has_orders := found ORDERS t in
    let mentions_tech := any_in TECHS t in
    let mentions_status_word :=
      any_in (map py ["abiert"; "cerrad"; "progreso"; "estado"; "estados"]%string) t in
    if has_orders && negb mentions_tech then STATUS_COUNTS
    else
      let t2 := sub FILLER [] t in
      match first_intent INTENTS t2 with
      | Some name => name
      | None =>
          if any_in TECHS t
             && (str_in (py "abiert") t || str_in (py "cerrad") t
                 || str_in (py "progreso") t)
          then TECH_BY_PERSON
          else HELP
      end.

(** [int(s)] for a string matched by [\d+] or [\d{4}].  An interpreter
    that limits the length of the strings [int] converts raises
    [ValueError] past 4300 digits; such a number of days is out of the
    range of [timedelta], so the call in [_apply_date_pattern] raises with
    or without the limit. *)
Fixpoint int_digits (acc : Z) (s : str) : result Z :=
  match s with
  | [] => Ok acc
  | c :: s' =>
      match decimal c with
      | Some v => int_digits (10 * acc + Z.of_N v) s'
      | None => Raise ValueError
      end
  end.

Definition int (s : str) : result Z :=
  match s with
  | [] => Raise ValueError
  | _ :: _ => int_digits 0 s
  end.

(** The clock: every [datetime.utcnow()] of one call reads [now]. *)
Variable now : date.

Fixpoint month_loop (months : list (str * Z)) (t : str) : result (option (str * str)) :=
  match months with
  | [] => Ok None
  | (name, m) :: months' =>
      match search (month_re name) t with
      | Some mobj =>
          y <- match group mobj 1 with
               | Some ((_ :: _) as g1) => int g1
               | _ => Ok (year now)
               end ;;
          start <- date_new y m 1 ;;
          end_ <- (if (m =? 12)%Z
                   then (d <- date_new (y + 1) 1 1 ;; sub_days d 1)
                   else (d <- date_new y (m + 1) 1 ;; sub_days d 1)) ;;
          Ok (Some (isoformat start, isoformat end_))
      | None => month_loop months' t
      end
  end.

Definition _month_range_from_name (t : str) : result (option (str * str)) :=
  month_loop MONTHS t.

(** The pair stands for the dictionary with the keys [date_from] and
    [date_to]. *)
Definition _apply_date_pattern (t : str) : result (option str * option str) :=
  mr <- _month_range_from_name t ;;
  match mr with
  | Some (a, b) => Ok (Some a, Some b)
  | None =>
  if found (word_re (py "este mes")) t then
    first <- replace_day now 1 ;;
    Ok (Some (isoformat first), Some (isoformat now))
  else if found (word_re (py "mes pasado")) t then
    first_this <- replace_day now 1 ;;
    last_prev <- sub_days first_this 1 ;;
    first_prev <- replace_day last_prev 1 ;;
    Ok (Some (isoformat first_prev), Some (isoformat last_prev))
  else if found (word_re (py "esta semana")) t then
    start <- sub_days now (weekday now) ;;
    Ok (Some (isoformat start), Some (isoformat now))
  else if found (word_re (py "semana pasada")) t then
    start_this <- sub_days now (weekday now) ;;
    start_prev <- sub_days start_this 7 ;;
    end_prev <- sub_days start_this 1 ;;
    Ok (Some (isoformat start_prev), Some (isoformat end_prev))
  else
    match search ULTIMOS t with
    | Some m =>
        n <- match group m 1 with Some g1 => int g1 | None => Raise TypeError end ;;
        from <- sub_days now n ;;
        Ok (Some (isoformat from), Some (isoformat now))
    | None =>
        match search DESDE_HASTA t with
        | Some m => Ok (group m 1, group m 2)
        | None => Ok (None, None)
        end
    end
  end.

(** The loop over [TECHS] with its [break]. *)
Fixpoint first_tech (techs : list str) (t : str) : option str :=
  match techs with
  | [] => None
  | tech :: techs' =>
      if found (word_re tech) t then Some (str_capitalize tech)
      else first_tech techs' t
  end.

Definition extract_slots (text : str) (known_sites known_areas : list str) : result Slots :=
  let t := _norm text in
  let type0 : option str := None in
  let type1 := if found (word_re (py "pm")) t then Some (py "PM") else type0 in
  let type2 := if found (word_re (py "cm")) t then Some (py "CM") else type1 in
  let status1 :=
    if str_in (py "abiert") t then Some (py "Abierta")
    else if str_in (py "cerrad") t then Some (py "Cerrada")
    else if str_in (py "progreso") t then Some (py "En Progreso")
    else None in
  let technician1 :=
    if found ORDERS t || (str_in (py "abiert") t || str_in (py "cerrad") t)
    then first_tech TECHS t
    else None in
  d <- _apply_date_pattern t ;;
  Ok (mkSlots None None type2 status1 (fst d) (snd d) technician1).

End WithUnicode.
End Nlu.

(** ** A Unicode table for Latin text

    The tables of Unicode 14 for the code points U+0000..U+00FF (Basic Latin
    and Latin-1 Supplement) and U+0300..U+036F (Combining Diacritical
    Marks).  Every other code point is taken as a caseless symbol without
    decomposition; the examples of this development stay inside the two
    blocks. *)

Module Latin1.
Local Open Scope N_scope.

Definition lower_cp (c : cp) : cp :=
  if (65 <=? c) && (c <=? 90) then c + 32
  else if (192 <=? c) && (c <=? 222) && negb (c =? 215) then c + 32
  else c.

Definition lower (s : str) : str := map lower_cp s.

(** The title-case form of one character. *)
Definition title_cp (c : cp) : str :=
  if (97 <=? c) && (c <=? 122) then [c - 32]
  else if (224 <=? c) && (c <=? 254) && negb (c =? 247) then [c - 32]
  else if c =? 181 then [924]
  else if c =? 223 then [83; 115]
  else if c =? 255 then [376]
  else if c =? 837 then [921]
  else [c].

Definition capitalize (s : str) : str :=
  match s with
  | [] => []
  | c :: s' => title_cp c ++ lower s'
  end.

(** The full canonical decomposition of one character. *)
Definition decomp (c : cp) : str :=
  if 880 <=? c then [c] else
  match c with
  | 192 => [65; 768] | 193 => [65; 769] | 194 => [65; 770]
  | 195 => [65; 771] | 196 => [65; 776] | 197 => [65; 778]
  | 199 => [67; 807]
  | 200 => [69; 768] | 201 => [69; 769] | 202 => [69; 770]
  | 203 => [69; 776]
  | 204 => [73; 768] | 205 => [73; 769] | 206 => [73; 770]
  | 207 => [73; 776]
  | 209 => [78; 771]
  | 210 => [79; 768] | 211 => [79; 769] | 212 => [79; 770]
  | 213 => [79; 771] | 214 => [79; 776]
  | 217 => [85; 768] | 218 => [85; 769] | 219 => [85; 770]
  | 220 => [85; 776]
  | 221 => [89; 769]
  | 224 => [97; 768] | 225 => [97; 769] | 226 => [97; 770]
  | 227 => [97; 771] | 228 => [97; 776] | 229 => [97; 778]
  | 231 => [99; 807]
  | 232 => [101; 768] | 233 => [101; 769] | 234 => [101; 770]
  | 235 => [101; 776]
  | 236 => [105; 768] | 237 => [105; 769] | 238 => [105; 770]
  | 239 => [105; 776]
  | 241 => [110; 771]
  | 242 => [111; 768] | 243 => [111; 769] | 244 => [111; 770]
  | 245 => [111; 771] | 246 => [111; 776]
  | 249 => [117; 768] | 250 => [117; 769] | 251 => [117; 770]
  | 252 => [117; 776]
  | 253 => [121; 769] | 255 => [121; 776]
  | 832 => [768] | 833 => [769] | 835 => [787] | 836 => [776; 769]
  | _ => [c]
  end.

(** The canonical combining class. *)
Definition ccc (c : cp) : N :=
  if (c <? 768) || (879 <? c) then 0
  else if c <=? 788 then 230
  else if c =? 789 then 232
  else if c <=? 793 then 220
  else if c =? 794 then 232
  else if c =? 795 then 216
  else if c <=? 800 then 220
  else if c <=? 802 then 202
  else if c <=? 806 then 220
  else if c <=? 808 then 202
  else if c <=? 819 then 220
  else if c <=? 824 then 1
  else if c <=? 828 then 220
  else if c <=? 836 then 230
  else if c =? 837 then 240
  else if c =? 838 then 230
  else if c <=? 841 then 220
  else if c <=? 844 then 230
  else if c <=? 846 then 220
  else if c =? 847 then 0
  else if c <=? 850 then 230
  else if c <=? 854 then 220
  else if c =? 855 then 230
  else if c =? 856 then 232
  else if c <=? 858 then 220
  else if c =? 859 then 230
  else if c =? 860 then 233
  else if c <=? 862 then 234
  else if c =? 863 then 233
  else if c <=? 865 then 234
  else if c =? 866 then 233
  else 230.

(** Canonical ordering: a combining character moves in front of the
    characters of a higher combining class that precede it.  [out] is the
    text placed so far, last character first. *)
Fixpoint place (c : cp) (out : str) : str :=
  match out with
  | p :: out' =>
      if (0 <? ccc c) && (ccc c <? ccc p) then p :: place c out'
      else c :: out
  | [] => [c]
  end.

Definition nfd (s : str) : str :=
  rev (fold_left (fun out c => place c out) (flat_map decomp s) []).

Definition is_Mn (c : cp) : bool := (768 <=? c) && (c <=? 879).

Definition alnum (c : cp) : bool :=
  (c =? 170) || (c =? 178) || (c =? 179) || (c =? 181) || (c =? 185)
  || (c =? 186) || (188 <=? c) && (c <=? 190)
  || (192 <=? c) && (c <=? 255) && negb (c =? 215) && negb (c =? 247).

End Latin1.

#[export] Instance latin1 : Unicode := {|
  str_lower := Latin1.lower;
  str_capitalize := Latin1.capitalize;
  normalize_NFD := Latin1.nfd;
  category_Mn := Latin1.is_Mn;
  uni_alnum := Latin1.alnum;
  uni_decimal := fun _ => None
|}.

(** * Specification vocabulary *)

Import Re Nlu.

(** [w] occurs in [t] as a contiguous block. *)
Definition occurs (w t : str) : Prop :=
  exists pre post, t = pre ++ w ++ post.

Section Vocabulary.
Context {U : Unicode}.

(** Whether the text read so far ends in a word character; [wb] answers for
    the empty text. *)
Definition ends_in_word (wb : bool) (pre : str) : bool :=
  last (map is_word pre) wb.

(** A word boundary lies between [pre] and [post]. *)
Definition boundary (pre post : str) : Prop :=
  xorb (ends_in_word false pre) (next_is_word post) = true.

(** [w] occurs in [t] between two word boundaries: the reading of
    [rf"\b{w}\b"]. *)
Definition occurs_as_word (w t : str) : Prop :=
  exists pre post,
    t = pre ++ w ++ post /\ boundary pre (w ++ post) /\ boundary (pre ++ w) post.

End Vocabulary.

(** [a <= b] for the dates as triples. *)
Definition date_le (a b : date) : Prop :=
  (year a < year b
   \/ year a = year b
      /\ (month a < month b \/ month a = month b /\ day a <= day b))%Z.

(** The order nouns of the pattern [\b(ordenes|órdenes|ots)\b]. *)
Definition ORDER_NOUNS : list str := map py ["ordenes"; "órdenes"; "ots"]%string.

(** The condition under which [extract_slots] looks for a technician. *)
Definition technician_gate {U : Unicode} (t : str) : Prop :=
  (exists w, In w ORDER_NOUNS /\ occurs_as_word w t)
  \/ occurs (py "abiert") t \/ occurs (py "cerrad") t.

(** The two literal dates of the rule "desde A hasta B", where it
    matches. *)
Definition explicit_range {U : Unicode} (t : str) : option (str * str) :=
  match search DESDE_HASTA t with
  | Some m =>
      match group m 1, group m 2 with
      | Some a, Some b => Some (a, b)
      | _, _ => None
      end
  | None => None
  end.

(** A lower-case ASCII letter. *)
Definition ascii_lower (c : cp) : bool := ((97 <=? c) && (c <=? 122))%N.

(** A reading of the clock for the examples: 15 March 2025. *)
Definition now0 : date := mkdate 2025 3 15.

(** The text without its combining marks: the second step of [_norm]. *)
Definition strip_marks {U : Unicode} (s : str) : str :=
  filter (fun ch => negb (category_Mn ch)) (normalize_NFD s).

(** The steps of [detect_intent] on the normalised text. *)
Definition intent_of {U : Unicode} (t : str) : Intent :=
  if any_in GREETINGS t then HELP
  else
    if found ORDERS t && negb (any_in TECHS t) then STATUS_COUNTS
    else
      match first_intent INTENTS (sub FILLER [] t) with
      | Some name => name
      | None =>
          if any_in TECHS t
             && (str_in (py "abiert") t || str_in (py "cerrad") t
                 || str_in (py "progreso") t)
          then TECH_BY_PERSON
          else HELP
      end.

(** What the embedding asks of the Unicode tables for the equivalence of
    accents: lower-casing keeps two texts equal up to combining marks so,
    and trimming blanks before the marks are dropped loses no more than
    trimming after. *)
Class AccentLaws (U : Unicode) : Prop := {
  lower_strip_marks :
    forall x y : str,
      strip_marks x = strip_marks y ->
      strip_marks (str_lower x) = strip_marks (str_lower y);
  strip_strip_marks :
    forall s : str, strip (strip_marks (strip s)) = strip (strip_marks s)
}.

(** Every run of blanks replaced by one blank, as
    [re.sub(r"\s+", " ", s)] returns it; [after_space] tells that the
    blank of the current run is written. *)
Fixpoint collapse_from (after_space : bool) (s : str) : str :=
  match s with
  | [] => []
  | x :: s' =>
      if is_space x
      then if after_space then collapse_from true s'
           else 32%N :: collapse_from true s'
      else x :: collapse_from false s'
  end.

(** One character of the Latin table without its combining marks. *)
Definition latin1_base (c : cp) : str :=
  filter (fun ch => negb (Latin1.is_Mn ch)) (Latin1.decomp c).

(** The iteration of [Star], as [mt] runs it. *)
Definition star_loop {U : Unicode} {R : Type} (r1 : regex)
    (k : bool -> str -> caps -> option R) :
    nat -> bool -> str -> caps -> option R :=
  fix loop (n : nat) (wb : bool) (s : str) (g : caps) : option R :=
    match n with
    | O => k wb s g
    | S n' =>
        match mt r1 wb s g
                (fun wb' s' g' =>
                   if Nat.ltb (length s') (length s)
                   then loop n' wb' s' g' else None) with
        | Some x => Some x
        | None => k wb s g
        end
    end.

(** [k'] runs on the text with one more blank at its end as [k] does
    without it, up to [f] on the results. *)
Definition follows {R R' : Type} (f : R -> R')
    (k' : bool -> str -> caps -> option R')
    (k : bool -> str -> caps -> option R) : Prop :=
  (forall wb s g, k' wb (s ++ [32%N]) g = option_map f (k wb s g))
  /\ (forall g, k' false [] g = None).

(** [r], searched for, does not see a blank at the end of the text. *)
Definition blank_blind {U : Unicode} (r : regex) : Prop :=
  follows (fun g : caps => g)
    (fun wb s g => mt r wb s g (fun _ _ g' => Some g'))
    (fun wb s g => mt r wb s g (fun _ _ g' => Some g')).

(** Every match of [r] ends in a character other than the blank. *)
Definition ends_in_letter {U : Unicode} (r : regex) : Prop :=
  forall (R R' : Type) (f : R -> R')
         (k' : bool -> str -> caps -> option R')
         (k : bool -> str -> caps -> option R),
    (forall wb s g, k' wb (s ++ [32%N]) g = option_map f (k wb s g)) ->
    follows f (fun wb s g => mt r wb s g k') (fun wb s g => mt r wb s g k).

(** The phrases of a list have no blank at either end. *)
Definition trimmed_words (ws : list str) : bool :=
  forallb (fun w => negb (hd 32 w =? 32)%N && negb (last w 32 =? 32)%N) ws.

(** A blank or nothing. *)
Definition blank_or_nil (p : str) : Prop := p = [] \/ p = [32%N].


From Stdlib Require SpecFloat.

(** * The texts a pattern matches

    [Matches r wb w rest g g']: the pattern [r], with the cursor behind a
    word character or not ([wb]) and the groups [g] closed so far, can
    consume [w] in front of [rest] and leave the groups [g'].  The relation
    tells what a match found by [mt] looks like, whichever of the possible
    matches the priorities of the engine select. *)

Section PatternLanguage.
Context {U : Unicode}.

Inductive Matches : regex -> bool -> str -> str -> caps -> caps -> Prop :=
| M_Eps wb rest g : Matches Eps wb [] rest g g
| M_Chr c wb rest g : Matches (Chr c) wb [c] rest g g
| M_Dot x wb rest g : x <> 10%N -> Matches Dot wb [x] rest g g
| M_OneOf cs x wb rest g :
    existsb (N.eqb x) cs = true -> Matches (OneOf cs) wb [x] rest g g
| M_Space x wb rest g : is_space x = true -> Matches Space wb [x] rest g g
| M_Digit x wb rest g : is_digit x = true -> Matches Digit wb [x] rest g g
| M_WordB wb rest g :
    xorb wb (next_is_word rest) = true -> Matches WordB wb [] rest g g
| M_Cat r1 r2 wb w1 w2 rest g g1 g2 :
    Matches r1 wb w1 (w2 ++ rest) g g1 ->
    Matches r2 (ends_in_word wb w1) w2 rest g1 g2 ->
    Matches (Cat r1 r2) wb (w1 ++ w2) rest g g2
| M_Alt_l r1 r2 wb w rest g g' :
    Matches r1 wb w rest g g' -> Matches (Alt r1 r2) wb w rest g g'
| M_Alt_r r1 r2 wb w rest g g' :
    Matches r2 wb w rest g g' -> Matches (Alt r1 r2) wb w rest g g'
| M_Star_nil r wb rest g : Matches (Star r) wb [] rest g g
| M_Star_cons r wb w1 w2 rest g g1 g2 :
    w1 <> [] ->
    Matches r wb w1 (w2 ++ rest) g g1 ->
    Matches (Star r) (ends_in_word wb w1) w2 rest g1 g2 ->
    Matches (Star r) wb (w1 ++ w2) rest g g2
| M_Group i r wb w rest g g' :
    Matches r wb w rest g g' ->
    Matches (Group i r) wb w rest g ((i, w) :: g').

End PatternLanguage.

(** * The date rules *)

(** No month name of [MONTHS] stands in [t] as a word: the named-month rule
    does not apply. *)
Definition no_month_name {U : Unicode} (t : str) : Prop :=
  forall name m, In (name, m) MONTHS -> ~ occurs_as_word name t.

(** The month before the month of [d]: its year and its number. *)
Definition previous_month (d : date) : Z * Z :=
  if (month d =? 1)%Z then (year d - 1, 12)%Z else (year d, month d - 1)%Z.

(** The shape [dddd-dd-dd] of a date slot, [d] a decimal digit. *)
Definition iso_shape {U : Unicode} (a : str) : Prop :=
  exists y m d,
    a = y ++ py "-" ++ m ++ py "-" ++ d
    /\ length y = 4%nat /\ length m = 2%nat /\ length d = 2%nat
    /\ forallb is_digit (y ++ m ++ d) = true.

(** A pattern without capturing groups. *)
Fixpoint groupless (r : regex) : bool :=
  match r with
  | Cat r1 r2 | Alt r1 r2 => groupless r1 && groupless r2
  | Star r1 => groupless r1
  | Group _ _ => false
  | _ => true
  end.

(** ** [app/data.py]: the statements sent to the database

    The slots reach the functions of [app/data.py] as a dictionary that is
    read through [get] alone, which does not tell a key that is absent from
    a key bound to [None]: the record [Slots] stands for both. *)

Module Data.

(** The truth value of a slot: [None] and the empty string are false. *)
Definition truthy (v : option str) : bool :=
  match v with
  | Some (_ :: _) => true
  | _ => false
  end.

(** A value bound to a placeholder of a statement. *)
Inductive param : Type :=
| PStr (s : str)
| PInt (n : Z).

(** [sep.join(l)] *)
Fixpoint join (sep : str) (l : list str) : str :=
  match l with
  | [] => []
  | [a] => a
  | a :: l' => a ++ sep ++ join sep l'
  end.

(** One [if slots.get(k): clauses.append(clause); params.append(slots[k])]. *)
Definition add_filter (v : option str) (clause : string)
    (acc : list str * list param) : list str * list param :=
  match v with
  | Some ((_ :: _) as x) => (fst acc ++ [py clause], snd acc ++ [PStr x])
  | _ => acc
  end.

Definition _filters_to_where (slots : Slots) : str * list param :=
  let acc : list str * list param := ([], []) in
  let acc := add_filter (site slots)
    "work_orders.asset_id IN (SELECT asset_id FROM assets WHERE site=?)" acc in
  let acc := add_filter (area slots)
    "work_orders.asset_id IN (SELECT asset_id FROM assets WHERE area=?)" acc in
  let acc := add_filter (status slots) "status=?" acc in
  let acc := add_filter (type slots) "type=?" acc in
  let acc := add_filter (technician slots) "LOWER(technician)=LOWER(?)" acc in
  let acc := add_filter (date_from slots)
    "date(substr(COALESCE(closed_at, opened_at),1,10)) >= date(?)" acc in
  let acc := add_filter (date_to slots)
    "date(substr(COALESCE(closed_at, opened_at),1,10)) <= date(?)" acc in
  let '(clauses, params) := acc in
  (match clauses with
   | [] => []
   | _ :: _ => py "WHERE " ++ join (py " AND ") clauses
   end, params).

(** [{**slots, "status": v}], and the like. *)
Definition with_status (slots : Slots) (v : option str) : Slots :=
  mkSlots (site slots) (area slots) (type slots) v (date_from slots)
    (date_to slots) (technician slots).

Definition with_type (slots : Slots) (v : option str) : Slots :=
  mkSlots (site slots) (area slots) v (status slots) (date_from slots)
    (date_to slots) (technician slots).

Definition with_technician (slots : Slots) (v : option str) : Slots :=
  mkSlots (site slots) (area slots) (type slots) (status slots)
    (date_from slots) (date_to slots) v.

(** A statement and the values of its placeholders, as they are handed to
    [conn.execute]. *)
Record statement : Type := mkStatement { sql : str; params : list param }.

Definition nl : str := [10%N].

(** The statement of [kpi_mttr]. *)
Definition kpi_mttr_statement (slots : Slots) : statement :=
  let '(where_, params) :=
    _filters_to_where (with_status slots (Some (py "Cerrada"))) in
  mkStatement
    (py "SELECT AVG(COALESCE(mttr_hours, labor_hours)) FROM work_orders "
       ++ where_)
    params.

(** The statement of [kpi_backlog_days]. *)
Definition kpi_backlog_days_statement (slots : Slots) : statement :=
  let '(where_, params) := _filters_to_where (with_status slots None) in
  let where_ :=
    where_ ++ py " "
      ++ (match where_ with _ :: _ => py " AND " | [] => py "WHERE " end)
      ++ py " status!='Cerrada'" in
  mkStatement (py "SELECT opened_at FROM work_orders " ++ where_) params.

(** The statement of [kpi_pm_compliance]. *)
Definition kpi_pm_compliance_statement (slots : Slots) : statement :=
  let '(where_, params) :=
    _filters_to_where (with_type slots (Some (py "PM"))) in
  mkStatement (py "SELECT due_date, closed_at FROM work_orders " ++ where_)
    params.

(** The statement of [kpi_costs_monthly]: of the month of [date_from] where
    the two dates are set, of the last [months] months otherwise. *)
Definition kpi_costs_monthly_statement (slots : Slots) (months : Z) : statement :=
  if truthy (date_from slots) && truthy (date_to slots) then
    let year_month :=
      match date_from slots with Some df => firstn 7 df | None => [] end in
    let '(where_, params) := _filters_to_where slots in
    mkStatement
      (nl ++ py "            SELECT substr(opened_at,1,7) AS ym, SUM(cost_total)"
          ++ nl ++ py "            FROM work_orders " ++ where_
          ++ nl ++ py "            GROUP BY ym HAVING ym = ?"
          ++ nl ++ py "            ORDER BY ym DESC"
          ++ nl ++ py "        ")
      (params ++ [PStr year_month])
  else
    let '(where_, params) := _filters_to_where slots in
    mkStatement
      (nl ++ py "        SELECT substr(opened_at,1,7) AS ym, SUM(cost_total)"
          ++ nl ++ py "        FROM work_orders " ++ where_
          ++ nl ++ py "        GROUP BY ym ORDER BY ym DESC LIMIT ?"
          ++ nl ++ py "    ")
      (params ++ [PInt months]).

(** The statement of [top_downtime]. *)
Definition top_downtime_statement (slots : Slots) (n : Z) : statement :=
  let '(where_, params) := _filters_to_where slots in
  mkStatement
    (py "SELECT a.asset_id, a.name, SUM(work_orders.downtime_hours) as dt"
       ++ nl
       ++ py "              FROM work_orders JOIN assets a ON a.asset_id = work_orders.asset_id"
       ++ nl ++ py "              " ++ where_
       ++ nl
       ++ py "              GROUP BY a.asset_id, a.name ORDER BY dt DESC LIMIT ?")
    (params ++ [PInt n]).

(** The statement of [status_counts]. *)
Definition status_counts_statement (slots : Slots) : statement :=
  let '(where_, params) := _filters_to_where slots in
  mkStatement
    (py "SELECT status, COUNT(*) FROM work_orders " ++ where_
       ++ py " GROUP BY status")
    params.

(** The statement of [kpi_mtbf]. *)
Definition kpi_mtbf_statement (slots : Slots) : statement :=
  let wslots :=
    with_status (with_type slots (Some (py "CM"))) (Some (py "Cerrada")) in
  let '(where_, params) := _filters_to_where wslots in
  mkStatement
    (py "SELECT closed_at FROM work_orders " ++ where_
       ++ py " AND closed_at IS NOT NULL ORDER BY closed_at")
    params.

(** The statement of [tech_person_counts]. *)
Definition tech_person_counts_statement (slots : Slots) (person : str) : statement :=
  let w := with_technician slots (Some person) in
  let '(where_, params) := _filters_to_where w in
  mkStatement
    (py "SELECT status, COUNT(*) FROM work_orders " ++ where_
       ++ py " GROUP BY status")
    params.

End Data.

(** ** [str] of an integer *)

Module PyInt.
Local Open Scope Z_scope.

(** The decimal digits of [n >= 0] in front of [acc]. *)
Fixpoint digits_of (fuel : nat) (n : Z) (acc : str) : str :=
  match fuel with
  | O => acc
  | S fuel' =>
      if n <? 10 then digit n :: acc
      else digits_of fuel' (n / 10) (digit n :: acc)
  end.

(** [str(n)], which is also [f"{n}"]. *)
Definition str_of_int (n : Z) : str :=
  if n <? 0 then 45%N :: digits_of (S (Z.to_nat (Z.log2 (- n)))) (- n) []
  else digits_of (S (Z.to_nat (Z.log2 n))) n [].

End PyInt.

(** ** [app/formatters.py] *)

Module Formatters.
Import Data PyInt.

(** A dictionary of counts by status, in the order of insertion; the
    status of a row of the database is a text or [NULL]. *)
Definition counts := list (option str * Z).

Definition key_eqb (a b : option str) : bool :=
  match a, b with
  | Some x, Some y => str_eqb x y
  | None, None => true
  | _, _ => false
  end.

(** [d.get(k, default)] *)
Fixpoint dict_get (d : counts) (k : option str) (default : Z) : Z :=
  match d with
  | [] => default
  | (k', v) :: d' => if key_eqb k' k then v else dict_get d' k default
  end.

(** [d[k] = v] *)
Fixpoint dict_set (d : counts) (k : option str) (v : Z) : counts :=
  match d with
  | [] => [(k, v)]
  | (k', v') :: d' =>
      if key_eqb k' k then (k', v) :: d' else (k', v') :: dict_set d' k v
  end.

Section WithClock.
(** The day of [datetime.utcnow()]. *)
Variable today : date.

Definition _period_label (slots : option Slots) : str :=
  match slots with
  | None => []
  | Some slots =>
      match date_from slots, date_to slots with
      | Some ((_ :: _) as df), Some ((_ :: _) as dt) =>
          match (start <- replace_day today 1 ;;
                 Ok (if str_eqb df (isoformat start)
                        && str_eqb dt (isoformat today)
                     then py " (Mes actual)"
                     else py " (" ++ df ++ py " → " ++ dt ++ py ")")) with
          | Ok s => s
          | Raise _ => py " (" ++ df ++ py " → " ++ dt ++ py ")"
          end
      | _, _ => []
      end
  end.

End WithClock.

Definition _range_tag (slots : Slots) : str :=
  match date_from slots, date_to slots with
  | Some ((_ :: _) as df), Some ((_ :: _) as dt) =>
      py "(" ++ df ++ py " → " ++ dt ++ py ")"
  | _, _ => py "(Mes actual)"
  end.

Definition f_status (counts : counts) (slots : Slots) : str :=
  let tag := _range_tag slots in
  let opened := dict_get counts (Some (py "Abierta")) 0 in
  let prog := dict_get counts (Some (py "En Progreso")) 0 in
  let closed := dict_get counts (Some (py "Cerrada")) 0 in
  let total := (opened + prog + closed)%Z in
  py "📊 Estados " ++ tag ++ py ":" ++ nl
    ++ py "• Abiertas: " ++ str_of_int opened ++ nl
    ++ py "• En Progreso: " ++ str_of_int prog ++ nl
    ++ py "• Cerradas: " ++ str_of_int closed ++ nl
    ++ py "• Total: " ++ str_of_int total.

Definition f_tech_person (person : str) (counts : counts) (slots : Slots) : str :=
  let tag := _range_tag slots in
  let opened := dict_get counts (Some (py "Abierta")) 0 in
  let prog := dict_get counts (Some (py "En Progreso")) 0 in
  let closed := dict_get counts (Some (py "Cerrada")) 0 in
  let total := (opened + prog + closed)%Z in
  py "👤 " ++ person ++ py " " ++ tag ++ py ":" ++ nl
    ++ py "• Abiertas: " ++ str_of_int opened ++ nl
    ++ py "• En Progreso: " ++ str_of_int prog ++ nl
    ++ py "• Cerradas: " ++ str_of_int closed ++ nl
    ++ py "• Total: " ++ str_of_int total.

End Formatters.

(** ** The counts of [status_counts] and [tech_person_counts]

    [rows] is the answer of the database to the statement: one row for each
    status, with the number of its work orders. *)

Module Counts.
Import Formatters.

Definition tally (rows : list (option str * Z)) : counts :=
  let d : counts :=
    [(Some (py "Abierta"), 0%Z); (Some (py "En Progreso"), 0%Z);
     (Some (py "Cerrada"), 0%Z)] in
  let d := fold_left (fun d r => dict_set d (fst r) (snd r)) rows d in
  dict_set d (Some (py "Total")) (fold_right Z.add 0%Z (map snd d)).

(** The dictionary [status_counts] returns for the rows of its statement. *)
Definition status_counts (rows : list (option str * Z)) : counts := tally rows.

(** The dictionary [tech_person_counts] returns for the rows of its
    statement. *)
Definition tech_person_counts (rows : list (option str * Z)) : counts :=
  tally rows.

End Counts.

(** ** [app/main.py]: the default period of the webhook *)

Module Main.
Import Data.

Section WithClock.
Variable today : date.

(** [_ensure_month_default(s)]; the dictionary is updated in place, the
    result is its new content. *)
Definition _ensure_month_default (s : Slots) : result Slots :=
  if negb (truthy (date_from s)) && negb (truthy (date_to s)) then
    start <- replace_day today 1 ;;
    Ok (mkSlots (site s) (area s) (type s) (status s)
          (Some (isoformat start)) (Some (isoformat today)) (technician s))
  else Ok s.

End WithClock.
End Main.

(** * Vocabulary for the statements *)

(** The number of placeholders [?] in the text of a statement. *)
Definition placeholders (s : str) : nat := count_occ N.eq_dec s 63%N.

(** Which of the seven filters are set, in the order in which
    [_filters_to_where] reads them. *)
Definition set_filters (s : Slots) : list bool :=
  map Data.truthy
    [site s; area s; status s; type s; technician s; date_from s; date_to s].

(** The value of a slot that is set. *)
Definition slot_param (v : option str) : list Data.param :=
  match v with
  | Some ((_ :: _) as x) => [Data.PStr x]
  | _ => []
  end.

(** The clauses of the seven filters, with one placeholder each. *)
Definition filter_clauses : list str :=
  map py
    ["work_orders.asset_id IN (SELECT asset_id FROM assets WHERE site=?)";
     "work_orders.asset_id IN (SELECT asset_id FROM assets WHERE area=?)";
     "status=?"; "type=?"; "LOWER(technician)=LOWER(?)";
     "date(substr(COALESCE(closed_at, opened_at),1,10)) >= date(?)";
     "date(substr(COALESCE(closed_at, opened_at),1,10)) <= date(?)"]%string.

(** The clauses chosen by a list of truth values. *)
Fixpoint chosen (bs : list bool) (cs : list str) : list str :=
  match bs, cs with
  | b :: bs', c :: cs' => if b then c :: chosen bs' cs' else chosen bs' cs'
  | _, _ => []
  end.

Definition where_text (clauses : list str) : str :=
  match clauses with
  | [] => []
  | _ :: _ => py "WHERE " ++ Data.join (py " AND ") clauses
  end.

(** The statements of [app/data.py] for one dictionary of slots. *)
Definition statements (slots : Slots) (months n : Z) (person : str) :
    list Data.statement :=
  [Data.kpi_mttr_statement slots; Data.kpi_backlog_days_statement slots;
   Data.kpi_pm_compliance_statement slots;
   Data.kpi_costs_monthly_statement slots months;
   Data.top_downtime_statement slots n; Data.status_counts_statement slots;
   Data.kpi_mtbf_statement slots;
   Data.tech_person_counts_statement slots person].

(** * Vocabulary for the counts *)

(** The three states an answer on the states lists. *)
Definition listed_status (k : option str) : bool :=
  Formatters.key_eqb k (Some (py "Abierta"))
  || Formatters.key_eqb k (Some (py "En Progreso"))
  || Formatters.key_eqb k (Some (py "Cerrada")).

(** [sum(d.values())] *)
Definition sum_values (d : Formatters.counts) : Z :=
  fold_right Z.add 0%Z (map snd d).

(** ** [app/data.py]: the table of the sessions

    The table [user_sessions(chat_id INTEGER PRIMARY KEY, report_time TEXT,
    last_seen_at TEXT)] as the list of its rows in the order of the key,
    and the five functions that read and write it as functions of the
    state of the database, which is the table or nothing before the table
    is created.  Each function returns the state it leaves and what the
    call returns or raises. *)

Module Sessions.
Local Open Scope Z_scope.

Record session : Type := mkSession {
  report_time : option str;
  last_seen_at : option str
}.

Definition table := list (Z * session).

Definition db := option table.

(** [CREATE TABLE IF NOT EXISTS user_sessions(...)] *)
Definition ensure_schema (d : db) : table :=
  match d with
  | Some t => t
  | None => []
  end.

(** [INSERT INTO user_sessions(...) VALUES(...) ON CONFLICT(chat_id) DO
    UPDATE SET ...]: the row of the key is updated where there is one, and
    a new row takes its place in the order of the key otherwise. *)
Fixpoint upsert (t : table) (c : Z) (ins : session) (upd : session -> session) : table :=
  match t with
  | [] => [(c, ins)]
  | (c', r) :: t' =>
      if c' =? c then (c', upd r) :: t'
      else if c <? c' then (c, ins) :: t
      else (c', r) :: upsert t' c ins upd
  end.

(** [SELECT ... WHERE chat_id=?] with [fetchone()] *)
Fixpoint select (t : table) (c : Z) : option session :=
  match t with
  | [] => None
  | (c', r) :: t' => if c' =? c then Some r else select t' c
  end.

(** An integer that SQLite stores: the binding of any other raises. *)
Definition in_int64 (c : Z) : bool :=
  (- 9223372036854775808 <=? c) && (c <=? 9223372036854775807).

(** [update_last_seen(chat_id)]; [now] is
    [datetime.utcnow().isoformat(timespec="seconds")]. *)
Definition update_last_seen (now : str) (chat_id : Z) (d : db) : db * result unit :=
  let t := ensure_schema d in
  if in_int64 chat_id then
    (Some (upsert t chat_id (mkSession None (Some now))
             (fun r => mkSession (report_time r) (Some now))),
     Ok tt)
  else (Some t, Raise OverflowError).

Definition set_report_time (chat_id : Z) (hhmm : option str) (d : db) : db * result unit :=
  let t := ensure_schema d in
  if in_int64 chat_id then
    (Some (upsert t chat_id (mkSession hhmm None)
             (fun r => mkSession hhmm (last_seen_at r))),
     Ok tt)
  else (Some t, Raise OverflowError).

Definition get_report_time (chat_id : Z) (d : db) : db * result (option str) :=
  let t := ensure_schema d in
  if in_int64 chat_id then
    (Some t,
     Ok (match select t chat_id with
         | Some r =>
             match report_time r with
             | Some ((_ :: _) as h) => Some h
             | _ => None
             end
         | None => None
         end))
  else (Some t, Raise OverflowError).

(** [SELECT chat_id, report_time FROM user_sessions WHERE report_time IS
    NOT NULL] *)
Fixpoint with_time (t : table) : list (Z * str) :=
  match t with
  | [] => []
  | (c, r) :: t' =>
      match report_time r with
      | Some h => (c, h) :: with_time t'
      | None => with_time t'
      end
  end.

Definition all_chat_ids_with_time (d : db) : db * list (Z * str) :=
  let t := ensure_schema d in
  (Some t, with_time t).

End Sessions.

(** * Vocabulary for the sessions *)

(** The rows of a table stand in the order of their keys, each key once:
    [chat_id] is the primary key. *)
Fixpoint ascending (t : Sessions.table) : bool :=
  match t with
  | (c, _) :: t' =>
      match t' with
      | (c', _) :: _ => (c <? c')%Z && ascending t'
      | [] => true
      end
  | [] => true
  end.

(** A state of the database that the functions of the module can leave. *)
Definition well_keyed (d : Sessions.db) : Prop :=
  ascending (Sessions.ensure_schema d) = true.

(** ** [app/logging_conf.py]: the masking of secrets *)

Module LoggingConf.
Import Re.
Local Open Scope re_scope.

(** [r{n,}] *)
Definition AtLeast (n : nat) (r : regex) : regex := Rep n r @@ Star r.

(** [[A-Za-z0-9_-]] *)
Definition TOKEN_CHAR : regex :=
  OneOf (py "ABCDEFGHIJKLMNOPQRSTUVWXYZabcdefghijklmnopqrstuvwxyz0123456789_-").

(** [[A-Za-z0-9]] *)
Definition ALNUM_CHAR : regex :=
  OneOf (py "ABCDEFGHIJKLMNOPQRSTUVWXYZabcdefghijklmnopqrstuvwxyz0123456789").

Definition SECRET_PATTERNS : list regex :=
  [ (* (bot\d+:|AAG|AAH)[A-Za-z0-9_-]{20,} *)
    Group 1 (Alts [L "bot" @@ Plus Digit @@ L ":"; L "AAG"; L "AAH"])
      @@ AtLeast 20 TOKEN_CHAR;
    (* [A-Za-z0-9]{24,}\.[A-Za-z0-9_-]{6,}\.[A-Za-z0-9_-]{27,} *)
    AtLeast 24 ALNUM_CHAR @@ L "." @@ AtLeast 6 TOKEN_CHAR @@ L "."
      @@ AtLeast 27 TOKEN_CHAR ].

(** [_sanitize(value)] for a [str]. *)
Definition _sanitize {U : Unicode} (value : str) : str :=
  fold_left (fun masked p => sub p (py "***") masked) SECRET_PATTERNS value.

End LoggingConf.

(** * Vocabulary for the masking *)

(** A pattern without [\b]: whether it matches a text depends on the text
    alone. *)
Fixpoint plain (r : regex) : bool :=
  match r with
  | WordB => false
  | Cat r1 r2 | Alt r1 r2 => plain r1 && plain r2
  | Star r1 | Group _ r1 => plain r1
  | _ => true
  end.

(** A pattern that does not match the character [c]. *)
Fixpoint avoids {U : Unicode} (c : cp) (r : regex) : bool :=
  match r with
  | Chr x => negb (x =? c)%N
  | Dot => false
  | OneOf cs => negb (existsb (N.eqb c) cs)
  | Space => negb (is_space c)
  | Digit => negb (is_digit c)
  | Cat r1 r2 | Alt r1 r2 => avoids c r1 && avoids c r2
  | Star r1 | Group _ r1 => avoids c r1
  | _ => true
  end.

(** The length of the shortest text a pattern may match. *)
Fixpoint min_len (r : regex) : nat :=
  match r with
  | Eps | WordB | Star _ => 0
  | Cat r1 r2 => min_len r1 + min_len r2
  | Alt r1 r2 => Nat.min (min_len r1) (min_len r2)
  | Group _ r1 => min_len r1
  | _ => 1
  end.

(** A match of [r] starts at the head of [s]. *)
Definition starts {U : Unicode} (r : regex) (s : str) : Prop :=
  exists w rest g, s = w ++ rest /\ Matches r false w rest [] g.

(** No match of [r] starts anywhere in [s]. *)
Definition clean {U : Unicode} (r : regex) (s : str) : Prop :=
  forall pre post, s = pre ++ post -> ~ starts r post.

(** * Vocabulary for the normalised text *)

(** A character of the Latin table as [_norm] leaves the characters: no
    combining mark, in lower case, and its own canonical decomposition. *)
Definition settled (c : cp) : bool :=
  negb (Latin1.is_Mn c) && (Latin1.lower_cp c =? c)%N
  && str_eqb (Latin1.decomp c) [c].

(** The slots of a text that says nothing. *)
Definition no_slots : Slots := mkSlots None None None None None None None.

(** ** [app/formatters.py]: amounts of money

    A number that reaches [_fmt_money] is a sum of the database: an
    integer, a float or [None].  A float is a binary64 number, given as in
    the specification of the floats of the Standard Library: a zero, an
    infinity, the not-a-number, or [(-1)^s * m * 2^e]. *)

Module Money.
Import SpecFloat PyInt.
Local Open Scope Z_scope.

Inductive number : Type :=
| NoneValue
| IntValue (z : Z)
| FloatValue (f : spec_float).

(** [float(n)]: an integer is rounded to the nearest float, to the even one
    of two; an integer beyond the floats raises [OverflowError], and [None]
    raises [TypeError]. *)
Definition float (n : number) : result spec_float :=
  match n with
  | NoneValue => Raise TypeError
  | IntValue z =>
      match binary_normalize 53 1024 z 0 false with
      | S754_infinity _ => Raise OverflowError
      | f => Ok f
      end
  | FloatValue f => Ok f
  end.

(** The number of hundredths nearest to [m * 2^e], the even one of two. *)
Definition cents (m : positive) (e : Z) : Z :=
  if 0 <=? e then Z.pos m * 2 ^ e * 100
  else
    let d := 2 ^ (- e) in
    let n := Z.pos m * 100 in
    let q := n / d in
    let r := n mod d in
    if (d <? 2 * r) || ((2 * r =? d) && Z.odd q) then q + 1 else q.

(** A number below 1000 in one to three digits. *)
Definition upto3 (n : Z) : str :=
  if n <? 10 then [digit n]
  else if n <? 100 then [digit (n / 10); digit n]
  else [digit (n / 100); digit (n / 10); digit n].

(** The digits of [n >= 0] in groups of three, with [sep] between the
    groups. *)
Fixpoint grouped (fuel : nat) (sep : cp) (n : Z) : str :=
  match fuel with
  | O => upto3 n
  | S fuel' =>
      if n <? 1000 then upto3 n
      else grouped fuel' sep (n / 1000)
             ++ sep :: [digit (n / 100); digit (n / 10); digit n]
  end.

Definition thousands (sep : cp) (n : Z) : str :=
  grouped (Z.to_nat (Z.log2 n)) sep n.

Definition sign (s : bool) : str := if s then py "-" else [].

(** [f"{x:,.2f}"] *)
Definition format_2f (x : spec_float) : str :=
  match x with
  | S754_nan => py "nan"
  | S754_infinity s => sign s ++ py "inf"
  | S754_zero s => sign s ++ py "0.00"
  | S754_finite s m e =>
      let c := cents m e in
      sign s ++ thousands 44%N (c / 100) ++ py "." ++ pad2 (c mod 100)
  end.

(** [s.replace(a, b)] for two strings of one character. *)
Definition replace1 (a b : cp) (s : str) : str :=
  map (fun c => if (c =? a)%N then b else c) s.

Section WithRepr.
(** [str(x)] of a float, which [_fmt_money] never asks for. *)
Variable repr : spec_float -> str.

(** [str(n)] *)
Definition str_of (n : number) : str :=
  match n with
  | NoneValue => py "None"
  | IntValue z => str_of_int z
  | FloatValue f => repr f
  end.

(** [_fmt_money(n)].  The handler of the exceptions returns [str(n)].  (An
    interpreter that limits the length of the text of an integer raises
    [ValueError] from the handler for an integer of more than 4300
    digits.) *)
Definition _fmt_money (n : number) : str :=
  match float n with
  | Ok x =>
      let s := format_2f x in
      replace1 88%N 46%N (replace1 46%N 44%N (replace1 44%N 88%N s))
  | Raise _ => str_of n
  end.

End WithRepr.
End Money.

(** * Vocabulary for the amounts *)

(** The three replacements of [_fmt_money] on one character. *)
Definition swap_char (c : cp) : cp :=
  let c := if (c =? 44)%N then 88%N else c in
  let c := if (c =? 46)%N then 44%N else c in
  if (c =? 88)%N then 46%N else c.

(** The value of a decimal digit of ASCII. *)
Definition dec (c : cp) : Z := Z.of_N (c - 48).

(** The groups of three digits behind the first group, each behind a
    point, and the two digits behind the comma. *)
Fixpoint read_groups (acc : Z) (s : str) {struct s} : option Z :=
  match s with
  | x :: a :: b :: rest =>
      if (x =? 44)%N then
        match rest with
        | [] =>
            if ascii_digit a && ascii_digit b
            then Some (acc * 100 + 10 * dec a + dec b)%Z
            else None
        | _ :: _ => None
        end
      else if (x =? 46)%N then
        match rest with
        | c :: s' =>
            if ascii_digit a && ascii_digit b && ascii_digit c
            then read_groups (acc * 1000 + 100 * dec a + 10 * dec b + dec c)%Z s'
            else None
        | [] => None
        end
      else None
  | _ => None
  end.

(** An amount in the Spanish style, [d.ddd.ddd,dd], as a number of
    hundredths: a first group of one to three digits, groups of three
    digits behind a point each, a comma and two digits. *)
Definition read_amount (s : str) : option Z :=
  match s with
  | a :: s1 =>
      if ascii_digit a then
        match s1 with
        | b :: s2 =>
            if ascii_digit b then
              match s2 with
              | c :: s3 =>
                  if ascii_digit c
                  then read_groups (100 * dec a + 10 * dec b + dec c)%Z s3
                  else read_groups (10 * dec a + dec b)%Z s2
              | [] => None
              end
            else read_groups (dec a) s1
        | [] => None
        end
      else None
  | [] => None
  end.

(** The sign and the hundredths of a text of [_fmt_money]. *)
Definition read_money (s : str) : option (bool * Z) :=
  match s with
  | x :: s' =>
      if (x =? 45)%N then option_map (pair true) (read_amount s')
      else option_map (pair false) (read_amount s)
  | [] => None
  end.

(** ** [app/version.py] *)

Module Version.

(** [os.environ.get("GIT_SHA", "").strip() or "dev"] *)
Definition GIT_SHA (env : option str) : str :=
  match strip (match env with Some v => v | None => [] end) with
  | [] => py "dev"
  | (_ :: _) as v => v
  end.

(** The entry ["git_sha"] of [as_dict()]. *)
Definition git_sha (env : option str) : str := firstn 7 (GIT_SHA env).

End Version.

(** * Examples *)

(** The slots of "mttr este mes" on 15 March 2025. *)
Definition slots_este_mes : Slots :=
  mkSlots None None None None (Some (py "2025-03-01")) (Some (py "2025-03-15"))
    None.

(** "cuantas ordenes abiertas tiene andres", asked on 15 March 2025. *)
Definition slots_andres : Slots :=
  mkSlots None None None (Some (py "Abierta")) None None (Some (py "Andres")).

Definition slots_andres_month : Slots :=
  mkSlots None None None (Some (py "Abierta")) (Some (py "2025-03-01"))
    (Some (py "2025-03-15")) (Some (py "Andres")).

(** Four states in the table of the work orders, one of them unknown to
    the answers: the total counts it, the three lines do not. *)
Definition rows_example : list (option str * Z) :=
  [(Some (py "Abierta"), 3%Z); (Some (py "Cancelada"), 2%Z);
   (Some (py "Cerrada"), 10%Z); (None, 1%Z)].

(** A table of two chats. *)
Definition db_example : Sessions.db :=
  Some [(5%Z, Sessions.mkSession (Some (py "07:00")) None);
        (9%Z, Sessions.mkSession None (Some (py "2025-03-15T10:30:00")))].

(** * Strings *)

Lemma prefix_app (w post : str) : prefix w (w ++ post) = true.
Proof.
  induction w as [|a w IH]; simpl; [reflexivity|].
  now rewrite N.eqb_refl.
Qed.

Lemma prefix_spec (w s : str) :
  prefix w s = true <-> exists post, s = w ++ post.
Proof.
  split.
  - revert s; induction w as [|a w IH]; intros s H.
    + now exists s.
    + destruct s as [|b s]; simpl in H; [discriminate|].
      apply andb_true_iff in H as [Hab Hw].
      apply N.eqb_eq in Hab; subst b.
      destruct (IH _ Hw) as [post ->].
      now exists post.
  - intros [post ->]. apply prefix_app.
Qed.

Lemma prefix_skipn (w s : str) :
  prefix w s = true -> s = w ++ skipn (length w) s.
Proof.
  intros H. apply prefix_spec in H as [post ->].
  now rewrite skipn_app, skipn_all, Nat.sub_diag.
Qed.

Lemma str_in_spec (w t : str) : str_in w t = true <-> occurs w t.
Proof.
  split.
  - induction t as [|c t IH]; simpl; intros H.
    + rewrite orb_false_r in H. apply prefix_spec in H as [post ->].
      now exists [], post.
    + apply orb_true_iff in H as [H|H].
      * apply prefix_spec in H as [post ->]. now exists [], post.
      * destruct (IH H) as (pre & post & ->). now exists (c :: pre), post.
  - intros (pre & post & ->).
    induction pre as [|c pre IH]; simpl.
    + assert (Hp := prefix_app w post).
      destruct (w ++ post); simpl; rewrite Hp; reflexivity.
    + simpl in IH. now rewrite IH, orb_true_r.
Qed.

Lemma str_in_false (w t : str) : str_in w t = false <-> ~ occurs w t.
Proof.
  rewrite <- str_in_spec. now destruct (str_in w t).
Qed.

Lemma any_in_spec (ws : list str) (t : str) :
  any_in ws t = true <-> exists w, In w ws /\ occurs w t.
Proof.
  unfold any_in. rewrite existsb_exists.
  split; intros (w & Hin & H); exists w; split; auto; now apply str_in_spec.
Qed.

Lemma any_in_false (ws : list str) (t : str) :
  any_in ws t = false <-> forall w, In w ws -> ~ occurs w t.
Proof.
  split.
  - intros H w Hin Ho.
    assert (any_in ws t = true) by (apply any_in_spec; eauto).
    congruence.
  - intros H. destruct (any_in ws t) eqn:E; [|reflexivity].
    apply any_in_spec in E as (w & Hin & Ho). now elim (H w Hin).
Qed.

(** * The matcher *)

Section MatcherFacts.
Context {U : Unicode}.

Lemma last_cons_default {A : Type} (a d : A) (l : list A) :
  last (a :: l) d = last l a.
Proof.
  revert a d; induction l as [|b l IH]; intros a d; [reflexivity|].
  change (last (a :: b :: l) d) with (last (b :: l) d).
  now rewrite !IH.
Qed.

Lemma ends_in_word_cons (wb : bool) (c : cp) (w : str) :
  ends_in_word wb (c :: w) = ends_in_word (is_word c) w.
Proof. unfold ends_in_word. simpl map. apply last_cons_default. Qed.

Lemma ends_in_word_app (wb : bool) (a b : str) :
  ends_in_word wb (a ++ b) = ends_in_word (ends_in_word wb a) b.
Proof.
  revert wb; induction a as [|c a IH]; intros wb; [reflexivity|].
  simpl app. now rewrite !ends_in_word_cons, IH.
Qed.

(** A literal matches exactly when it is a prefix of the text. *)
Lemma mt_Lit {R : Type} (w : str) (wb : bool) (s : str) (g : caps)
    (k : bool -> str -> caps -> option R) :
  mt (Lit w) wb s g k =
  if prefix w s then k (ends_in_word wb w) (skipn (length w) s) g else None.
Proof.
  revert wb s; induction w as [|c w IH]; intros wb s; [reflexivity|].
  simpl Lit. simpl mt. destruct s as [|x s]; [reflexivity|].
  simpl prefix.
  destruct (N.eqb_spec x c) as [->|Hne].
  - rewrite N.eqb_refl, IH, ends_in_word_cons. reflexivity.
  - replace (c =? x)%N with false by (symmetry; apply N.eqb_neq; congruence).
    reflexivity.
Qed.

(** [search_from] finds a match iff one starts at some position of the
    text. *)
Lemma search_from_found (r : regex) (wb : bool) (s : str) :
  search_from r wb s <> None <->
  exists pre post, s = pre ++ post /\ match_at r (ends_in_word wb pre) post <> None.
Proof.
  revert wb; induction s as [|x s IH]; intros wb; cbn [search_from].
  - destruct (match_at r wb []) eqn:E.
    + split; [|discriminate]. intros _. exists [], [].
      change (ends_in_word wb []) with wb. now rewrite E.
    + split; [congruence|]. intros (pre & post & Hs & H).
      symmetry in Hs. apply app_eq_nil in Hs as [-> ->]. now elim H.
  - destruct (match_at r wb (x :: s)) eqn:E.
    + split; [|discriminate]. intros _. exists [], (x :: s).
      change (ends_in_word wb []) with wb. now rewrite E.
    + rewrite IH. split.
      * intros (pre & post & -> & H). exists (x :: pre), post.
        now rewrite ends_in_word_cons.
      * intros (pre & post & Hs & H). destruct pre as [|y pre].
        -- simpl in Hs. subst post. now elim H.
        -- injection Hs as <- ->. exists pre, post.
           now rewrite ends_in_word_cons in H.
Qed.

Lemma found_spec (r : regex) (t : str) :
  found r t = true <->
  exists pre post, t = pre ++ post /\ match_at r (ends_in_word false pre) post <> None.
Proof.
  unfold found, search. rewrite <- search_from_found.
  destruct (search_from r false t); split; congruence.
Qed.

Lemma match_at_word_re (w : str) (wb : bool) (s : str) :
  match_at (word_re w) wb s <> None <->
  xorb wb (next_is_word s) = true
  /\ exists post, s = w ++ post
       /\ xorb (ends_in_word wb w) (next_is_word post) = true.
Proof.
  unfold match_at, word_re. simpl mt.
  destruct (xorb wb (next_is_word s)); [|split; [congruence|intros [? _]; discriminate]].
  rewrite mt_Lit. simpl mt.
  destruct (prefix w s) eqn:Hp.
  - apply prefix_skipn in Hp.
    destruct (xorb (ends_in_word wb w) (next_is_word (skipn (length w) s))) eqn:Hx.
    + split; [|discriminate]. intros _. split; [reflexivity|].
      exists (skipn (length w) s). now split.
    + split; [congruence|]. intros (_ & post & Hs & Hb).
      rewrite Hs, skipn_app, skipn_all, Nat.sub_diag in Hx. simpl in Hx. congruence.
  - split; [congruence|]. intros (_ & post & Hs & _).
    rewrite Hs, prefix_app in Hp. discriminate.
Qed.

(** [re.search(rf"\b{w}\b", t)] finds [w] between two word boundaries. *)
Lemma found_word_re (w t : str) :
  found (word_re w) t = true <-> occurs_as_word w t.
Proof.
  rewrite found_spec. unfold occurs_as_word, boundary. split.
  - intros (pre & post & -> & H).
    apply match_at_word_re in H as (Hb & post' & -> & Ha).
    exists pre, post'. rewrite ends_in_word_app. auto.
  - intros (pre & post & -> & Hb & Ha).
    exists pre, (w ++ post). split; [reflexivity|].
    apply match_at_word_re. split; [assumption|].
    exists post. rewrite ends_in_word_app in Ha. auto.
Qed.

Lemma found_word_re_false (w t : str) :
  found (word_re w) t = false <-> ~ occurs_as_word w t.
Proof.
  rewrite <- found_word_re. now destruct (found (word_re w) t).
Qed.

End MatcherFacts.

Section AlternationFacts.
Context {U : Unicode}.

Lemma mt_Alts_Lit {R : Type} (ws : list str) (wb : bool) (s : str) (g : caps)
    (k : bool -> str -> caps -> option R) :
  ws <> [] ->
  (mt (Alts (map Lit ws)) wb s g k <> None <->
   exists w, In w ws /\ mt (Lit w) wb s g k <> None).
Proof.
  induction ws as [|w ws IH]; [congruence|]. intros _.
  destruct ws as [|w' ws].
  - simpl Alts. split.
    + intros H. exists w. split; [now left|assumption].
    + intros (w0 & [<-|[]] & H). assumption.
  - change (Alts (map Lit (w :: w' :: ws)))
      with (Alt (Lit w) (Alts (map Lit (w' :: ws)))).
    cbn [mt]. destruct (mt (Lit w) wb s g k) eqn:E.
    + split; [|discriminate]. intros _. exists w. split; [now left|congruence].
    + rewrite IH by discriminate. split.
      * intros (w0 & Hin & H). exists w0. split; [now right|assumption].
      * intros (w0 & [<-|Hin] & H); [congruence|]. now exists w0.
Qed.

(** A group of literal alternatives between two [\b] matches where one of
    the literals does. *)
Lemma match_at_word_alts (i : nat) (ws : list str) (wb : bool) (s : str) :
  ws <> [] ->
  (match_at (Cat WordB (Cat (Group i (Alts (map Lit ws))) WordB)) wb s <> None <->
   exists w, In w ws /\ match_at (word_re w) wb s <> None).
Proof.
  intros Hne. unfold match_at, word_re. cbn [mt].
  destruct (xorb wb (next_is_word s)).
  - rewrite (mt_Alts_Lit ws wb s _ _ Hne).
    split; intros (w & Hin & H); exists w; (split; [assumption|]);
      rewrite mt_Lit in *; destruct (prefix w s); try congruence;
      cbn [mt] in *;
      destruct (xorb (ends_in_word wb w) (next_is_word (skipn (length w) s)));
      congruence.
  - split; [congruence|]. intros (w & _ & H). congruence.
Qed.

(** [re.search(r"\b(ordenes|órdenes|ots)\b", t)] finds an order noun
    between two word boundaries. *)
Lemma found_ORDERS (t : str) :
  found ORDERS t = true <-> exists w, In w ORDER_NOUNS /\ occurs_as_word w t.
Proof.
  rewrite found_spec. split.
  - intros (pre & post & -> & H).
    apply (match_at_word_alts 1 ORDER_NOUNS) in H as (w & Hin & H); [|discriminate].
    exists w. split; [assumption|]. apply found_word_re, found_spec. eauto.
  - intros (w & Hin & H). apply found_word_re, found_spec in H as (pre & post & -> & H).
    exists pre, post. split; [reflexivity|].
    apply (match_at_word_alts 1 ORDER_NOUNS); [discriminate|]. eauto.
Qed.

End AlternationFacts.

(** * The slot extractor: type, status and technician *)

Section SlotFacts.
Context {U : Unicode}.
Variable now : date.

(** The slots other than the dates are fixed by the normalised text alone. *)
Lemma extract_slots_Ok (text : str) (sites areas : list str) (s : Slots) :
  extract_slots now text sites areas = Ok s ->
  let t := _norm text in
  type s = (if found (word_re (py "cm")) t then Some (py "CM")
            else if found (word_re (py "pm")) t then Some (py "PM") else None)
  /\ status s = (if str_in (py "abiert") t then Some (py "Abierta")
                 else if str_in (py "cerrad") t then Some (py "Cerrada")
                 else if str_in (py "progreso") t then Some (py "En Progreso")
                 else None)
  /\ technician s =
       (if found ORDERS t || (str_in (py "abiert") t || str_in (py "cerrad") t)
        then first_tech TECHS t else None)
  /\ _apply_date_pattern now t = Ok (date_from s, date_to s).
Proof.
  intros H. cbv zeta. unfold extract_slots in H.
  destruct (_apply_date_pattern now (_norm text)) as [[a b]|e]; [|discriminate].
  cbn [bind] in H. injection H as <-. cbn [type status technician date_from date_to fst snd].
  repeat split.
Qed.

(** C10. Order-type conflict resolution: when the normalised text holds
    the standalone token "cm", [extract_slots] returns the type "CM",
    whether or not "pm" stands there too (the "cm" test runs last and
    overwrites); with "pm" alone it returns "PM"; with neither the type
    stays unset. *)
Theorem type_cm_overwrites_pm (text : str) (sites areas : list str) (s : Slots) :
  extract_slots now text sites areas = Ok s ->
  let t := _norm text in
  (occurs_as_word (py "pm") t -> occurs_as_word (py "cm") t ->
   type s = Some (py "CM"))
  /\ (occurs_as_word (py "pm") t -> ~ occurs_as_word (py "cm") t ->
      type s = Some (py "PM"))
  /\ (~ occurs_as_word (py "pm") t -> occurs_as_word (py "cm") t ->
      type s = Some (py "CM"))
  /\ (~ occurs_as_word (py "pm") t -> ~ occurs_as_word (py "cm") t ->
      type s = None).
Proof.
  intros H t. apply extract_slots_Ok in H as (Ht & _). fold t in Ht.
  rewrite Ht. repeat split; intros Hpm Hcm.
  - apply found_word_re in Hcm. now rewrite Hcm.
  - apply found_word_re in Hpm. apply found_word_re_false in Hcm.
    now rewrite Hcm, Hpm.
  - apply found_word_re in Hcm. now rewrite Hcm.
  - apply found_word_re_false in Hpm, Hcm. now rewrite Hcm, Hpm.
Qed.

(** C7. Status mutual exclusivity: [extract_slots] sets the status by the
    first of the keywords "abiert", "cerrad", "progreso" that occurs in the
    normalised text, in this order, so "abiert" prevails over the other
    two and "cerrad" over "progreso"; the status is one of the three
    values or unset. *)
Theorem status_first_match_wins (text : str) (sites areas : list str) (s : Slots) :
  extract_slots now text sites areas = Ok s ->
  let t := _norm text in
  (occurs (py "abiert") t -> status s = Some (py "Abierta"))
  /\ (~ occurs (py "abiert") t -> occurs (py "cerrad") t ->
      status s = Some (py "Cerrada"))
  /\ (~ occurs (py "abiert") t -> ~ occurs (py "cerrad") t ->
      occurs (py "progreso") t -> status s = Some (py "En Progreso"))
  /\ (~ occurs (py "abiert") t -> ~ occurs (py "cerrad") t ->
      ~ occurs (py "progreso") t -> status s = None).
Proof.
  intros H t. apply extract_slots_Ok in H as (_ & Hs & _). fold t in Hs.
  rewrite Hs. repeat split.
  - intros Ha. apply str_in_spec in Ha. now rewrite Ha.
  - intros Ha Hc. apply str_in_false in Ha. apply str_in_spec in Hc.
    now rewrite Ha, Hc.
  - intros Ha Hc Hp. apply str_in_false in Ha, Hc. apply str_in_spec in Hp.
    now rewrite Ha, Hc, Hp.
  - intros Ha Hc Hp. apply str_in_false in Ha, Hc, Hp.
    now rewrite Ha, Hc, Hp.
Qed.

(** The loop over the roster returns the first name that stands as a whole
    word, capitalised. *)
Lemma first_tech_spec (techs : list str) (t : str) :
  match first_tech techs t with
  | Some v =>
      exists l1 tech l2,
        techs = l1 ++ tech :: l2 /\ v = str_capitalize tech
        /\ occurs_as_word tech t
        /\ Forall (fun w => ~ occurs_as_word w t) l1
  | None => Forall (fun w => ~ occurs_as_word w t) techs
  end.
Proof.
  induction techs as [|tech techs IH]; cbn [first_tech]; [constructor|].
  destruct (found (word_re tech) t) eqn:E.
  - exists [], tech, techs. repeat split; [|constructor]. now apply found_word_re.
  - apply found_word_re_false in E.
    destruct (first_tech techs t) as [v|].
    + destruct IH as (l1 & tech' & l2 & -> & -> & Ho & Hl).
      exists (tech :: l1), tech', l2. repeat split; [assumption|].
      now constructor.
    + now constructor.
Qed.

End SlotFacts.

Lemma technician_gate_spec {U : Unicode} (t : str) :
  found ORDERS t || (str_in (py "abiert") t || str_in (py "cerrad") t) = true
  <-> technician_gate t.
Proof.
  unfold technician_gate.
  rewrite !orb_true_iff, found_ORDERS, !str_in_spec. reflexivity.
Qed.

(** C6. Technician capture: [extract_slots] sets the technician only when
    the normalised text holds an order noun as a whole word or one of the
    status words "abiert", "cerrad"; the value is then the capitalised form
    of the first name of the roster (in the order andres, esteban, juan,
    sebastian, mateo, jose, pablo) that stands as a whole word, hence of a
    roster member, and it is set as soon as some roster name does; for
    "cuántas órdenes tiene sebastian" the technician is "Sebastian". *)
Theorem technician_capture :
  (forall (U : Unicode) (now : date) (text : str) (sites areas : list str)
          (s : Slots),
      extract_slots now text sites areas = Ok s ->
      let t := _norm text in
      (technician s <> None -> technician_gate t)
      /\ (forall v, technician s = Some v ->
            In v (map str_capitalize TECHS)
            /\ exists l1 tech l2,
                 TECHS = l1 ++ tech :: l2 /\ v = str_capitalize tech
                 /\ occurs_as_word tech t
                 /\ Forall (fun w => ~ occurs_as_word w t) l1)
      /\ (technician_gate t ->
          forall tech, In tech TECHS -> occurs_as_word tech t ->
          technician s <> None))
  /\ TECHS = map py ["andres"; "esteban"; "juan"; "sebastian"; "mateo";
                     "jose"; "pablo"]%string
  /\ (forall now : date,
        exists s,
          extract_slots (U := latin1) now
            (py "cuántas órdenes tiene sebastian") [] [] = Ok s
          /\ technician s = Some (py "Sebastian")).
Proof.
  split; [|split; [reflexivity|]].
  - intros U now text sites areas s H t.
    apply extract_slots_Ok in H as (_ & _ & Ht & _). fold t in Ht.
    destruct (found ORDERS t || (str_in (py "abiert") t || str_in (py "cerrad") t))
      eqn:G.
    + apply technician_gate_spec in G.
      assert (Hf := first_tech_spec TECHS t). rewrite <- Ht in Hf.
      repeat split.
      * auto.
      * destruct (technician s) as [v'|]; [|discriminate].
        injection H as <-.
        destruct Hf as (l1 & tech & l2 & E & -> & _).
        apply in_map. rewrite E. apply in_elt.
      * destruct (technician s) as [v'|]; [|discriminate].
        injection H as <-. exact Hf.
      * intros _ tech Hin Ho Hn. rewrite Hn in Hf.
        rewrite Forall_forall in Hf. exact (Hf tech Hin Ho).
    + rewrite Ht. repeat split; try congruence.
      intros G'. apply technician_gate_spec in G'. congruence.
  - intros now. eexists. split; [vm_compute; reflexivity|reflexivity].
Qed.

(** The example of the claim, through the theorem: the technician comes
    from the roster. *)
Lemma technician_capture_sebastian :
  In (py "Sebastian") (map (str_capitalize (Unicode := latin1)) TECHS).
Proof.
  refine (proj1 (proj1 (proj2
    (proj1 technician_capture latin1 now0
       (py "cuántas órdenes tiene sebastian") [] []
       (mkSlots None None None None None None (Some (py "Sebastian")))
       _)) (py "Sebastian") _)).
  - vm_compute. reflexivity.
  - reflexivity.
Defined.

(** C3. Disambiguation override: when the normalised text holds an order
    noun ("ordenes", "órdenes" or "ots") as a whole word, holds no greeting
    phrase and holds no technician name (anywhere, as [detect_intent] tests
    it), [detect_intent] returns [STATUS_COUNTS], whatever the pattern table
    would find. *)
Theorem disambiguation_override {U : Unicode} (text : str) :
  let t := _norm text in
  (exists w, In w ORDER_NOUNS /\ occurs_as_word w t) ->
  (forall g, In g GREETINGS -> ~ occurs g t) ->
  (forall tech, In tech TECHS -> ~ occurs tech t) ->
  detect_intent text = STATUS_COUNTS.
Proof.
  intros t Ho Hg Ht. unfold detect_intent. fold t.
  apply any_in_false in Hg. apply any_in_false in Ht. apply found_ORDERS in Ho.
  rewrite Hg, Ho, Ht. reflexivity.
Qed.

(** An input on which the pattern for "cuántas ... órdenes ... tiene" of the
    table matches and the override decides. *)
Lemma disambiguation_override_witness :
  first_intent (U := latin1) INTENTS
    (sub FILLER [] (_norm (py "cuantas ordenes tiene la planta")))
  = Some TECH_BY_PERSON
  /\ detect_intent (U := latin1) (py "cuantas ordenes tiene la planta")
     = STATUS_COUNTS.
Proof.
  split; [vm_compute; reflexivity|].
  apply (disambiguation_override (U := latin1)).
  - apply found_ORDERS. vm_compute. reflexivity.
  - apply any_in_false. vm_compute. reflexivity.
  - apply any_in_false. vm_compute. reflexivity.
Defined.

(** C9. Intent and technician slot can disagree: for "cuantas ordenes tiene
    josefina", [detect_intent] returns [TECH_BY_PERSON], because "jose"
    occurs in the text and so the override for general questions does not
    apply, while [extract_slots] leaves the technician unset, because no
    roster name stands there as a whole word. *)
Theorem intent_slot_technician_mismatch :
  let text := py "cuantas ordenes tiene josefina" in
  let t := _norm (U := latin1) text in
  detect_intent (U := latin1) text = TECH_BY_PERSON
  /\ any_in TECHS t = true
  /\ str_in (py "jose") t = true
  /\ found (U := latin1) (word_re (py "jose")) t = false
  /\ first_tech (U := latin1) TECHS t = None
  /\ forall now : date,
       exists s, extract_slots (U := latin1) now text [] [] = Ok s
                 /\ technician s = None.
Proof.
  repeat split; try (vm_compute; reflexivity).
  intros now. eexists. split; [vm_compute; reflexivity|reflexivity].
Qed.

(** * The calendar *)

Ltac divmod := Z.div_mod_to_equations; lia.

(** Evaluates the month tables and the tests on known months. *)
Ltac tables :=
  repeat match goal with
  | |- context [_DAYS_BEFORE_MONTH ?m] =>
      let v := eval vm_compute in (_DAYS_BEFORE_MONTH m) in
      progress change (_DAYS_BEFORE_MONTH m) with v
  | |- context [_DAYS_IN_MONTH ?m] =>
      let v := eval vm_compute in (_DAYS_IN_MONTH m) in
      progress change (_DAYS_IN_MONTH m) with v
  | |- context [Z.eqb ?x ?y] =>
      let v := eval vm_compute in (Z.eqb x y) in
      match v with true => idtac | false => idtac end;
      change (Z.eqb x y) with v
  | |- context [Z.ltb ?x ?y] =>
      let v := eval vm_compute in (Z.ltb x y) in
      match v with true => idtac | false => idtac end;
      change (Z.ltb x y) with v
  | _ => progress cbn [andb orb negb]
  | _ => progress cbv iota
  end.

(** The case analysis on a month number. *)
Ltac months m :=
  let H := fresh in
  assert (H : (m = 1 \/ m = 2 \/ m = 3 \/ m = 4 \/ m = 5 \/ m = 6 \/ m = 7
               \/ m = 8 \/ m = 9 \/ m = 10 \/ m = 11 \/ m = 12)%Z) by lia;
  destruct H as [->|[->|[->|[->|[->|[->|[->|[->|[->|[->|[->| ->]]]]]]]]]]].

Section Calendar.
Local Open Scope Z_scope.

Lemma is_leap_true (y : Z) :
  _is_leap y = true <-> y mod 4 = 0 /\ (y mod 100 <> 0 \/ y mod 400 = 0).
Proof.
  unfold _is_leap.
  rewrite andb_true_iff, orb_true_iff, negb_true_iff, !Z.eqb_eq, Z.eqb_neq.
  reflexivity.
Qed.

(** The days before a year, by the position of the year in its cycle of
    400 years. *)
Lemma days_before_year_cycle (y a b c e : Z) :
  0 <= a -> 0 <= b <= 3 -> 0 <= c <= 24 -> 0 <= e <= 3 ->
  y = 400 * a + 100 * b + 4 * c + e + 1 ->
  _days_before_year y = 146097 * a + 36524 * b + 1461 * c + 365 * e.
Proof. intros. subst y. unfold _days_before_year. divmod. Qed.

Lemma is_leap_cycle (y a b c e : Z) :
  0 <= a -> 0 <= b <= 3 -> 0 <= c <= 24 -> 0 <= e <= 3 ->
  y = 400 * a + 100 * b + 4 * c + e + 1 ->
  _is_leap y = (e =? 3) && (negb (c =? 24) || (b =? 3)).
Proof.
  intros. subst y. apply eq_true_iff_eq.
  rewrite is_leap_true, andb_true_iff, orb_true_iff, negb_true_iff,
    !Z.eqb_eq, Z.eqb_neq.
  divmod.
Qed.

(** The month and the day of the [n]-th day of a year, as [_ord2ymd]
    finds them: by an estimate of the month that is corrected downwards. *)
Lemma month_of_day (lp : bool) (year n : Z) :
  0 <= n < 365 ->
  exists m d,
    (let month := Z.shiftr (n + 50) 5 in
     let preceding :=
       _DAYS_BEFORE_MONTH month + (if (2 <? month) && lp then 1 else 0) in
     if n <? preceding then
       let month := month - 1 in
       let preceding :=
         preceding
         - (_DAYS_IN_MONTH month + (if (month =? 2) && lp then 1 else 0)) in
       (year, month, n - preceding + 1)
     else (year, month, n - preceding + 1)) = (year, m, d)
    /\ 1 <= m <= 12
    /\ 1 <= d <= _DAYS_IN_MONTH m + (if (m =? 2) && lp then 1 else 0)
    /\ _DAYS_BEFORE_MONTH m + (if (2 <? m) && lp then 1 else 0) + d = n + 1.
Proof.
  intros Hn. cbv zeta. rewrite Z.shiftr_div_pow2 by lia.
  change (2 ^ 5) with 32.
  remember ((n + 50) / 32) as k eqn:Ek.
  assert (Hk : 32 * k <= n + 50 < 32 * k + 32) by (subst k; divmod).
  assert (Hc : k = 1 \/ k = 2 \/ k = 3 \/ k = 4 \/ k = 5 \/ k = 6 \/ k = 7
               \/ k = 8 \/ k = 9 \/ k = 10 \/ k = 11 \/ k = 12) by lia.
  clear Ek.
  destruct Hc as [->|[->|[->|[->|[->|[->|[->|[->|[->|[->|[->| ->]]]]]]]]]]];
    destruct lp; tables;
    match goal with
    | |- context [?a <? ?b] => destruct (Z.ltb_spec a b)
    end;
    eexists; eexists; (split; [reflexivity|]); tables; lia.
Qed.

(** [_ord2ymd] returns a date of the calendar, and the one with the given
    ordinal. *)
Lemma ord2ymd_spec (n : Z) :
  1 <= n ->
  exists y m d,
    _ord2ymd n = (y, m, d)
    /\ 1 <= y /\ 1 <= m <= 12 /\ 1 <= d <= _days_in_month y m
    /\ _ymd2ord y m d = n.
Proof.
  intros Hn. unfold _ord2ymd, _DI400Y, _DI100Y, _DI4Y. cbv zeta.
  remember (n - 1) as n0 eqn:En0.
  assert (H1 := Z.div_mod n0 146097 ltac:(lia)).
  assert (B1 := Z.mod_pos_bound n0 146097 ltac:(lia)).
  remember (n0 / 146097) as a eqn:Ea. remember (n0 mod 146097) as r400 eqn:Er400.
  assert (H2 := Z.div_mod r400 36524 ltac:(lia)).
  assert (B2 := Z.mod_pos_bound r400 36524 ltac:(lia)).
  remember (r400 / 36524) as b eqn:Eb. remember (r400 mod 36524) as r100 eqn:Er100.
  assert (H3 := Z.div_mod r100 1461 ltac:(lia)).
  assert (B3 := Z.mod_pos_bound r100 1461 ltac:(lia)).
  remember (r100 / 1461) as c eqn:Ec. remember (r100 mod 1461) as r4 eqn:Er4.
  assert (H4 := Z.div_mod r4 365 ltac:(lia)).
  assert (B4 := Z.mod_pos_bound r4 365 ltac:(lia)).
  remember (r4 / 365) as e eqn:Ee. remember (r4 mod 365) as r1 eqn:Er1.
  clear Ea Er400 Eb Er100 Ec Er4 Ee Er1.
  assert (Ha : 0 <= a) by lia.
  assert (Hb : 0 <= b <= 4) by lia.
  assert (Hc : 0 <= c <= 24) by lia.
  assert (He : 0 <= e <= 4) by lia.
  destruct ((e =? 4) || (b =? 4)) eqn:Esp.
  - exists (a * 400 + 1 + b * 100 + c * 4 + e - 1), 12, 31.
    split; [reflexivity|].
    assert (Hy : exists b' c',
               0 <= b' <= 3 /\ 0 <= c' <= 24 /\ (c' <> 24 \/ b' = 3)
               /\ a * 400 + 1 + b * 100 + c * 4 + e - 1
                  = 400 * a + 100 * b' + 4 * c' + 3 + 1
               /\ n = 146097 * a + 36524 * b' + 1461 * c' + 365 * 3 + 366).
    { apply orb_true_iff in Esp as [E|E]; apply Z.eqb_eq in E.
      - exists b, c. assert (b <= 3) by lia. lia.
      - exists 3, 24. lia. }
    destruct Hy as (b' & c' & Hb' & Hc' & Hl & Ey & En).
    unfold _ymd2ord, _days_in_month, _days_before_month.
    rewrite (is_leap_cycle _ a b' c' 3) by (assumption || lia).
    rewrite (days_before_year_cycle _ a b' c' 3) by (assumption || lia).
    assert (Hlp : negb (c' =? 24) || (b' =? 3) = true).
    { rewrite orb_true_iff, negb_true_iff, Z.eqb_neq, Z.eqb_eq. lia. }
    tables. rewrite Hlp. lia.
  - apply orb_false_iff in Esp as [E1 E2]. apply Z.eqb_neq in E1, E2.
    set (lp := (e =? 3) && (negb (c =? 24) || (b =? 3))).
    destruct (month_of_day lp (a * 400 + 1 + b * 100 + c * 4 + e) r1 ltac:(lia))
      as (m & d & Emd & Hm & Hd & Hdb).
    cbv zeta in Emd. rewrite Emd.
    exists (a * 400 + 1 + b * 100 + c * 4 + e), m, d.
    split; [reflexivity|].
    unfold _ymd2ord, _days_in_month, _days_before_month.
    rewrite (is_leap_cycle _ a b c e) by lia.
    rewrite (days_before_year_cycle _ a b c e) by lia.
    fold lp. repeat split; try lia.
    destruct ((m =? 2) && lp) eqn:E.
    + apply andb_true_iff in E as [Em _]. apply Z.eqb_eq in Em. subst m.
      revert Hd. tables. lia.
    + lia.
Qed.

Lemma days_before_year_mono (y1 y2 : Z) :
  y1 <= y2 -> _days_before_year y1 <= _days_before_year y2.
Proof. intros. unfold _days_before_year. divmod. Qed.

Lemma days_before_year_succ (y : Z) :
  _days_before_year (y + 1)
  = _days_before_year y + 365 + (if _is_leap y then 1 else 0).
Proof.
  destruct (_is_leap y) eqn:E.
  - apply is_leap_true in E. unfold _days_before_year. divmod.
  - assert (H : ~ (y mod 4 = 0 /\ (y mod 100 <> 0 \/ y mod 400 = 0))).
    { rewrite <- is_leap_true. congruence. }
    unfold _days_before_year. divmod.
Qed.

Lemma day_of_year_bounds (y m d : Z) :
  1 <= m <= 12 -> 1 <= d <= _days_in_month y m ->
  1 <= _days_before_month y m + d <= 365 + (if _is_leap y then 1 else 0).
Proof.
  intros Hm. unfold _days_in_month, _days_before_month.
  months m; destruct (_is_leap y); tables; lia.
Qed.

Lemma days_in_month_le_31 (y m : Z) : 1 <= m <= 12 -> _days_in_month y m <= 31.
Proof.
  intros Hm. unfold _days_in_month. months m; destruct (_is_leap y); tables; lia.
Qed.

Lemma ymd2ord_lt_year (y m d y' m' d' : Z) :
  1 <= m <= 12 -> 1 <= d <= _days_in_month y m ->
  1 <= m' <= 12 -> 1 <= d' <= _days_in_month y' m' ->
  y < y' -> _ymd2ord y m d < _ymd2ord y' m' d'.
Proof.
  intros Hm Hd Hm' Hd' Hy. unfold _ymd2ord.
  assert (H1 := day_of_year_bounds y m d Hm Hd).
  assert (H2 := day_of_year_bounds y' m' d' Hm' Hd').
  assert (H3 := days_before_year_succ y).
  assert (H4 := days_before_year_mono (y + 1) y' ltac:(lia)).
  lia.
Qed.

Lemma ymd2ord_lt_month (y m d m' d' : Z) :
  1 <= m -> m < m' -> m' <= 12 -> 1 <= d <= _days_in_month y m -> 1 <= d' ->
  _ymd2ord y m d < _ymd2ord y m' d'.
Proof.
  intros Hm Hlt Hm' Hd Hd'. revert Hd.
  unfold _ymd2ord, _days_in_month, _days_before_month.
  months m; months m'; try lia; destruct (_is_leap y); tables; lia.
Qed.

(** Dates in the order of their ordinals are in the order of the
    calendar. *)
Lemma toordinal_le (a b : date) :
  valid a -> valid b -> toordinal a <= toordinal b -> date_le a b.
Proof.
  intros (Hya & Hma & Hda) (Hyb & Hmb & Hdb) H. unfold toordinal in H.
  unfold date_le.
  destruct (Z.lt_trichotomy (year a) (year b)) as [Hy|[Hy|Hy]]; [now left| |].
  - right. split; [assumption|]. rewrite Hy in *.
    destruct (Z.lt_trichotomy (month a) (month b)) as [Hmo|[Hmo|Hmo]]; [now left| |].
    + right. split; [assumption|]. rewrite Hmo in H. unfold _ymd2ord in H. lia.
    + assert (_ymd2ord (year b) (month b) (day b)
              < _ymd2ord (year b) (month a) (day a))
        by (apply ymd2ord_lt_month; lia).
      lia.
  - assert (_ymd2ord (year b) (month b) (day b)
            < _ymd2ord (year a) (month a) (day a))
      by (apply ymd2ord_lt_year; assumption).
    lia.
Qed.

Lemma date_le_antisym (a b : date) : date_le a b -> date_le b a -> a = b.
Proof.
  destruct a as [ya ma da], b as [yb mb db]. unfold date_le. simpl.
  intros H1 H2. f_equal; lia.
Qed.

Lemma toordinal_pos (a : date) : valid a -> 1 <= toordinal a <= _MAXORDINAL.
Proof.
  intros (Hy & Hm & Hd). unfold toordinal, _ymd2ord, MINYEAR, MAXYEAR in *.
  assert (H1 := day_of_year_bounds _ _ _ Hm Hd).
  assert (H2 := days_before_year_mono 1 (year a) ltac:(lia)).
  assert (H3 := days_before_year_succ (year a)).
  assert (H4 := days_before_year_mono (year a + 1) 10000 ltac:(lia)).
  change (_days_before_year 1) with 0 in H2.
  change (_days_before_year 10000) with 3652059 in H4.
  unfold _MAXORDINAL. lia.
Qed.

(** [date.fromordinal] returns a date, the one with the given ordinal. *)
Lemma fromordinal_valid (n : Z) :
  1 <= n <= _MAXORDINAL ->
  valid (fromordinal n) /\ toordinal (fromordinal n) = n.
Proof.
  intros Hn. unfold fromordinal.
  destruct (ord2ymd_spec n ltac:(lia)) as (y & m & d & E & Hy & Hm & Hd & Ho).
  rewrite E. unfold valid, toordinal. cbn [year month day].
  repeat split; try lia; try assumption.
  destruct (Z.le_gt_cases y MAXYEAR) as [Hle|Hgt]; [assumption|].
  unfold MAXYEAR in *.
  assert (H1 := day_of_year_bounds _ _ _ Hm Hd).
  assert (H2 := days_before_year_mono 10000 y ltac:(lia)).
  change (_days_before_year 10000) with 3652059 in H2.
  unfold _ymd2ord, _MAXORDINAL in *. lia.
Qed.

Lemma fromordinal_toordinal (a : date) : valid a -> fromordinal (toordinal a) = a.
Proof.
  intros Ha. assert (Hr := toordinal_pos a Ha).
  destruct (fromordinal_valid _ Hr) as (Hv & Ht).
  apply date_le_antisym; apply toordinal_le; auto; lia.
Qed.

End Calendar.

(** * ISO strings and their order *)

Ltac bool_to_prop :=
  rewrite ?orb_true_iff, ?andb_true_iff, ?N.ltb_lt, ?N.eqb_eq.

Section IsoOrder.
Local Open Scope Z_scope.


Lemma str_leb_refl (s : str) : str_leb s s = true.
Proof.
  induction s as [|x s IH]; [reflexivity|].
  cbn [str_leb]. now rewrite N.eqb_refl, IH, orb_true_r.
Qed.

Lemma str_leb_app (p s t : str) : str_leb (p ++ s) (p ++ t) = str_leb s t.
Proof.
  induction p as [|x p IH]; [reflexivity|].
  cbn [app str_leb]. rewrite N.ltb_irrefl, N.eqb_refl, IH. reflexivity.
Qed.

Lemma pad4_lt (a b : Z) (s t : str) :
  0 <= a -> a < b -> b <= 9999 -> str_leb (pad4 a ++ s) (pad4 b ++ t) = true.
Proof.
  intros Ha Hab Hb. unfold pad4, digit. cbn [app str_leb].
  bool_to_prop.
  destruct (Z.lt_trichotomy (a / 1000) (b / 1000)) as [H|[H|H]];
    [left; divmod| |exfalso; divmod].
  right. split; [divmod|]. bool_to_prop.
  destruct (Z.lt_trichotomy (a / 100) (b / 100)) as [H1|[H1|H1]];
    [left; divmod| |exfalso; divmod].
  right. split; [divmod|]. bool_to_prop.
  destruct (Z.lt_trichotomy (a / 10) (b / 10)) as [H2|[H2|H2]];
    [left; divmod| |exfalso; divmod].
  right. split; [divmod|]. bool_to_prop.
  left. divmod.
Qed.

Lemma pad2_lt (a b : Z) (s t : str) :
  0 <= a -> a < b -> b <= 99 -> str_leb (pad2 a ++ s) (pad2 b ++ t) = true.
Proof.
  intros Ha Hab Hb. unfold pad2, digit. cbn [app str_leb].
  bool_to_prop.
  destruct (Z.lt_trichotomy (a / 10) (b / 10)) as [H|[H|H]];
    [left; divmod| |exfalso; divmod].
  right. split; [divmod|]. bool_to_prop.
  left. divmod.
Qed.

(** On dates, the order of the ISO strings is the order of the calendar. *)
Lemma isoformat_le (a b : date) :
  valid a -> valid b -> date_le a b ->
  str_leb (isoformat a) (isoformat b) = true.
Proof.
  intros (Hya & Hma & Hda) (Hyb & Hmb & Hdb) H.
  unfold MINYEAR, MAXYEAR in *.
  assert (Hda' := days_in_month_le_31 (year a) (month a) Hma).
  assert (Hdb' := days_in_month_le_31 (year b) (month b) Hmb).
  unfold isoformat.
  destruct H as [H|(Ey & [H|(Em & H)])].
  - apply pad4_lt; lia.
  - rewrite Ey, str_leb_app. cbn [app str_leb]. rewrite N.eqb_refl, andb_true_l.
    rewrite (pad2_lt (month a) (month b)) by lia. apply orb_true_r.
  - rewrite Ey, Em, str_leb_app. cbn [app str_leb].
    rewrite N.eqb_refl, andb_true_l, N.ltb_irrefl, orb_false_l.
    change (pad2 (month b) ++ 45%N :: pad2 (day a))
      with (pad2 (month b) ++ [45%N] ++ pad2 (day a)).
    change (pad2 (month b) ++ 45%N :: pad2 (day b))
      with (pad2 (month b) ++ [45%N] ++ pad2 (day b)).
    rewrite !str_leb_app.
    destruct (Z.eq_dec (day a) (day b)) as [->|Hne]; [apply str_leb_refl|].
    rewrite <- (app_nil_r (pad2 (day a))), <- (app_nil_r (pad2 (day b))).
    apply pad2_lt; lia.
Qed.

End IsoOrder.

(** * Date objects *)

Section DateObjects.
Local Open Scope Z_scope.

Lemma date_new_Ok (y m d : Z) (x : date) :
  date_new y m d = Ok x -> x = mkdate y m d /\ valid x.
Proof.
  unfold date_new, valid.
  destruct (_ && _) eqn:E; [|discriminate]. intros [= <-].
  rewrite !andb_true_iff, !Z.leb_le in E. cbn [year month day]. tauto.
Qed.

Lemma date_new_valid (y m d : Z) :
  valid (mkdate y m d) -> date_new y m d = Ok (mkdate y m d).
Proof.
  unfold date_new, valid. cbn [year month day]. intros H.
  replace (_ && _) with true; [reflexivity|].
  symmetry. rewrite !andb_true_iff, !Z.leb_le. tauto.
Qed.

Lemma sub_days_Ok (d : date) (n : Z) (x : date) :
  sub_days d n = Ok x -> valid x /\ toordinal x = toordinal d - n.
Proof.
  unfold sub_days. destruct (999999999 <? Z.abs n); [discriminate|].
  destruct (_ && _) eqn:E; [|discriminate]. intros [= <-].
  rewrite andb_true_iff, Z.ltb_lt, Z.leb_le in E.
  apply fromordinal_valid. lia.
Qed.

(** The day before the first of a month is the last day of the month
    before it. *)
Lemma first_minus_one_day (y m : Z) :
  1 <= y <= 9999 -> 1 <= m <= 11 ->
  sub_days (mkdate y (m + 1) 1) 1 = Ok (mkdate y m (_days_in_month y m)).
Proof.
  intros Hy Hm. unfold sub_days.
  change (999999999 <? Z.abs 1) with false. cbv iota.
  assert (Hv : valid (mkdate y m (_days_in_month y m))).
  { unfold valid, MINYEAR, MAXYEAR. cbn [year month day].
    repeat split; try lia. unfold _days_in_month.
    months m; destruct (_is_leap y); tables; lia. }
  assert (Ho : toordinal (mkdate y (m + 1) 1) - 1
               = toordinal (mkdate y m (_days_in_month y m))).
  { unfold toordinal, _ymd2ord, _days_before_month, _days_in_month.
    cbn [year month day].
    months m; destruct (_is_leap y); tables; lia. }
  rewrite Ho. assert (Hr := toordinal_pos _ Hv).
  replace (_ && _) with true
    by (symmetry; rewrite andb_true_iff, Z.ltb_lt, Z.leb_le; lia).
  now rewrite fromordinal_toordinal.
Qed.

(** The day before the first of January is the 31st of December. *)
Lemma january_minus_one_day (y : Z) :
  1 <= y <= 9999 ->
  sub_days (mkdate (y + 1) 1 1) 1 = Ok (mkdate y 12 31).
Proof.
  intros Hy. unfold sub_days.
  change (999999999 <? Z.abs 1) with false. cbv iota.
  assert (Hv : valid (mkdate y 12 31)).
  { unfold valid, MINYEAR, MAXYEAR. cbn [year month day].
    repeat split; try lia. unfold _days_in_month. tables. lia. }
  assert (Ho : toordinal (mkdate (y + 1) 1 1) - 1 = toordinal (mkdate y 12 31)).
  { unfold toordinal, _ymd2ord, _days_before_month. cbn [year month day].
    rewrite days_before_year_succ. destruct (_is_leap y), (_is_leap (y + 1)); tables; lia. }
  rewrite Ho. assert (Hr := toordinal_pos _ Hv).
  replace (_ && _) with true
    by (symmetry; rewrite andb_true_iff, Z.ltb_lt, Z.leb_le; lia).
  now rewrite fromordinal_toordinal.
Qed.

End DateObjects.

(** * The date resolver: order of the two dates *)

Section DateOrder.
Context {U : Unicode}.
Variable now : date.
Hypothesis now_valid : valid now.
Local Open Scope Z_scope.

Lemma int_digits_nonneg (s : str) (acc n : Z) :
  0 <= acc -> int_digits acc s = Ok n -> 0 <= n.
Proof.
  revert acc; induction s as [|c s IH]; intros acc Hacc; cbn [int_digits].
  - intros [= <-]. assumption.
  - destruct (decimal c) as [v|]; [|discriminate]. apply IH. lia.
Qed.

Lemma int_nonneg (s : str) (n : Z) : int s = Ok n -> 0 <= n.
Proof.
  destruct s as [|c s]; [discriminate|]. apply int_digits_nonneg. lia.
Qed.

Lemma ordered_by_ordinal (a b : date) :
  valid a -> valid b -> toordinal a <= toordinal b ->
  str_leb (isoformat a) (isoformat b) = true.
Proof. intros Ha Hb H. apply isoformat_le; auto using toordinal_le. Qed.

(** The named-month rule returns the first day of a month and a later day. *)
Lemma month_loop_ordered (months : list (str * Z)) (t a b : str) :
  month_loop now months t = Ok (Some (a, b)) -> str_leb a b = true.
Proof.
  induction months as [|[name m] months IH]; cbn [month_loop]; [discriminate|].
  destruct (search (month_re name) t) as [mobj|]; [|exact IH].
  clear IH.
  match goal with
  | |- context [bind ?yr _] => destruct yr as [y|e]; [|discriminate]
  end.
  cbn [bind].
  destruct (date_new y m 1) as [start|e] eqn:Es; [|discriminate]. cbn [bind].
  apply date_new_Ok in Es as (-> & Hs).
  assert (He : forall d x, date_new (if m =? 12 then y + 1 else y)
                             (if m =? 12 then 1 else m + 1) 1 = Ok d ->
                           sub_days d 1 = Ok x ->
                           str_leb (isoformat (mkdate y m 1)) (isoformat x) = true).
  { intros d x Hd Hx. apply date_new_Ok in Hd as (-> & Hd).
    apply sub_days_Ok in Hx as (Hx & Ho).
    apply ordered_by_ordinal; auto. rewrite Ho. unfold toordinal.
    cbn [year month day].
    destruct Hs as (Hy & Hm & _). destruct Hd as (_ & _ & Hd1).
    cbn [year month day] in *.
    destruct (Z.eqb_spec m 12) as [->|Hne].
    - assert (_ymd2ord y 12 1 < _ymd2ord (y + 1) 1 1); [|lia].
      apply ymd2ord_lt_year; try lia. unfold _days_in_month. tables. lia.
    - assert (_ymd2ord y m 1 < _ymd2ord y (m + 1) 1); [|lia].
      apply ymd2ord_lt_month; try lia. split; [lia|].
      unfold _days_in_month. months m; destruct (_is_leap y); tables; lia. }
  destruct (m =? 12).
  - destruct (date_new (y + 1) 1 1) as [d|] eqn:Ed; [|discriminate]. cbn [bind].
    destruct (sub_days d 1) as [x|] eqn:Ex; [|discriminate]. cbn [bind].
    intros [= <- <-]. eauto.
  - destruct (date_new y (m + 1) 1) as [d|] eqn:Ed; [|discriminate]. cbn [bind].
    destruct (sub_days d 1) as [x|] eqn:Ex; [|discriminate]. cbn [bind].
    intros [= <- <-]. eauto.
Qed.

(** The resolver returns two ordered dates or the two literal dates of
    the explicit rule. *)
Lemma apply_date_pattern_ordered (t a b : str) :
  _apply_date_pattern now t = Ok (Some a, Some b) ->
  str_leb a b = true \/ explicit_range t = Some (a, b).
Proof.
  unfold _apply_date_pattern, _month_range_from_name.
  destruct (month_loop now MONTHS t) as [[[x y]|]|e] eqn:Em; cbn [bind];
    [|clear Em|discriminate].
  { intros [= <- <-]. left. eapply month_loop_ordered; eassumption. }
  destruct (found (word_re (py "este mes")) t).
  { destruct (replace_day now 1) as [f|] eqn:Ef; [|discriminate]. cbn [bind].
    intros [= <- <-]. left. apply date_new_Ok in Ef as (-> & Hf).
    apply isoformat_le; auto. right. cbn [year month day].
    destruct now_valid as (_ & _ & Hd). lia. }
  destruct (found (word_re (py "mes pasado")) t).
  { destruct (replace_day now 1) as [f|] eqn:Ef; [|discriminate]. cbn [bind].
    destruct (sub_days f 1) as [l|] eqn:El; [|discriminate]. cbn [bind].
    destruct (replace_day l 1) as [p|] eqn:Ep; [|discriminate]. cbn [bind].
    intros [= <- <-]. left.
    apply sub_days_Ok in El as (Hl & _).
    apply date_new_Ok in Ep as (-> & Hp).
    apply isoformat_le; auto. right. cbn [year month day].
    destruct Hl as (_ & _ & Hd). lia. }
  destruct (found (word_re (py "esta semana")) t).
  { destruct (sub_days now (weekday now)) as [st|] eqn:Est; [|discriminate].
    cbn [bind]. intros [= <- <-]. left.
    apply sub_days_Ok in Est as (Hst & Ho).
    apply ordered_by_ordinal; auto. rewrite Ho. unfold weekday.
    assert (0 <= (toordinal now + 6) mod 7) by (apply Z.mod_pos_bound; lia).
    lia. }
  destruct (found (word_re (py "semana pasada")) t).
  { destruct (sub_days now (weekday now)) as [st|] eqn:Est; [|discriminate].
    cbn [bind].
    destruct (sub_days st 7) as [sp|] eqn:Esp; [|discriminate]. cbn [bind].
    destruct (sub_days st 1) as [ep|] eqn:Eep; [|discriminate]. cbn [bind].
    intros [= <- <-]. left.
    apply sub_days_Ok in Esp as (Hsp & Ho1). apply sub_days_Ok in Eep as (Hep & Ho2).
    apply ordered_by_ordinal; auto. lia. }
  destruct (search ULTIMOS t) as [m|].
  { destruct (group m 1) as [g1|]; [|discriminate].
    destruct (int g1) as [n|] eqn:En; [|discriminate]. cbn [bind].
    destruct (sub_days now n) as [fr|] eqn:Efr; [|discriminate]. cbn [bind].
    intros [= <- <-]. left.
    apply int_nonneg in En. apply sub_days_Ok in Efr as (Hfr & Ho).
    apply ordered_by_ordinal; auto. lia. }
  unfold explicit_range.
  destruct (search DESDE_HASTA t) as [m|]; [|discriminate].
  intros [= -> ->]. now right.
Qed.

(** C2 (as amended). Slots date invariant: when [extract_slots] returns
    both [date_from] and [date_to], then [date_from <= date_to] as strings
    (the order of ISO dates), unless the two are the literal dates captured
    by the explicit rule "desde A hasta B", which are passed on as they
    stand. *)
Theorem date_range_ordered (text : str) (sites areas : list str) (s : Slots)
    (a b : str) :
  extract_slots now text sites areas = Ok s ->
  date_from s = Some a -> date_to s = Some b ->
  str_leb a b = true \/ explicit_range (_norm text) = Some (a, b).
Proof.
  intros H Ha Hb. apply extract_slots_Ok in H as (_ & _ & _ & H).
  rewrite Ha, Hb in H. now apply apply_date_pattern_ordered.
Qed.

End DateOrder.

(** C2, as the claim states it, fails on the explicit rule: the two
    literal dates come back in the order of the text. *)
Lemma date_range_unordered :
  extract_slots (U := latin1) now0 (py "desde 2024-12-31 hasta 2024-01-01") [] []
  = Ok (mkSlots None None None None
          (Some (py "2024-12-31")) (Some (py "2024-01-01")) None)
  /\ str_leb (py "2024-12-31") (py "2024-01-01") = false.
Proof. split; vm_compute; reflexivity. Qed.

(** * The named-month rule *)

Section NamedMonth.
Context {U : Unicode}.

Lemma prefix_app_letters (w a b : str) :
  forallb ascii_lower w = true ->
  forallb (fun c => negb (ascii_lower c)) b = true ->
  prefix w (a ++ b) = prefix w a.
Proof.
  revert a; induction w as [|c w IH]; intros a Hw Hb; [reflexivity|].
  cbn [forallb] in Hw. apply andb_true_iff in Hw as [Hc Hw].
  destruct a as [|x a]; cbn [app prefix].
  - destruct b as [|y b]; [reflexivity|]. cbn [prefix].
    cbn [forallb] in Hb. apply andb_true_iff in Hb as [Hy _].
    destruct (N.eqb_spec c y) as [->|]; [|reflexivity].
    rewrite Hc in Hy. discriminate.
  - now rewrite IH.
Qed.

(** Letters are not found across or after the end of the letters of the
    text. *)
Lemma str_in_app_letters (w a b : str) :
  w <> [] ->
  forallb ascii_lower w = true ->
  forallb (fun c => negb (ascii_lower c)) b = true ->
  str_in w (a ++ b) = str_in w a.
Proof.
  intros Hne Hw Hb. induction a as [|x a IH].
  - cbn [app]. destruct w as [|c w]; [congruence|].
    cbn [forallb] in Hw. apply andb_true_iff in Hw as [Hc _].
    clear Hne. induction b as [|y b IHb]; [reflexivity|].
    cbn [forallb] in Hb. apply andb_true_iff in Hb as [Hy Hb].
    cbn [str_in prefix]. rewrite (IHb Hb). cbn [str_in prefix].
    destruct (N.eqb_spec c y) as [->|]; [|reflexivity].
    rewrite Hc in Hy. discriminate.
  - cbn [app str_in]. rewrite IH.
    change (x :: a ++ b) with ((x :: a) ++ b).
    now rewrite prefix_app_letters.
Qed.

(** A pattern that starts with [\b] and a literal is found only where the
    literal occurs. *)
Lemma search_needs_literal (w : str) (r : regex) (t : str) :
  str_in w t = false -> search (Cat WordB (Cat (Lit w) r)) t = None.
Proof.
  intros Hw. destruct (search _ t) eqn:E; [|reflexivity]. exfalso.
  assert (H : search_from (Cat WordB (Cat (Lit w) r)) false t <> None)
    by (unfold search in E; congruence).
  apply search_from_found in H as (pre & post & -> & H).
  apply str_in_false in Hw. apply Hw.
  unfold match_at in H. cbn [mt] in H.
  destruct (xorb _ _); [|congruence].
  rewrite mt_Lit in H. destruct (prefix w post) eqn:Hp; [|congruence].
  apply prefix_spec in Hp as [post' ->]. now exists pre, post'.
Qed.

Lemma ascii_digit_facts (d : cp) :
  ascii_digit d = true ->
  is_space d = false /\ is_digit d = true /\ is_word d = true
  /\ decimal d = Some (d - 48)%N /\ ascii_lower d = false.
Proof.
  unfold ascii_digit, is_space, is_digit, is_word, decimal, ascii_alnum,
    ascii_digit, ascii_lower.
  rewrite andb_true_iff, !N.leb_le. intros [H1 H2].
  assert (E1 : (48 <=? d)%N = true) by (apply N.leb_le; lia).
  assert (E2 : (d <=? 57)%N = true) by (apply N.leb_le; lia).
  assert (E3 : (d <? 128)%N = true) by (apply N.ltb_lt; lia).
  rewrite E1, E2, E3. cbn [andb orb].
  repeat split;
    repeat match goal with
    | |- context [(?a <=? ?b)%N] => destruct (N.leb_spec a b); try lia
    | |- context [(?a =? ?b)%N] => destruct (N.eqb_spec a b); try lia
    end; reflexivity.
Qed.

(** The pattern of a month finds the name at the head of the text and
    captures the four digits after the blank. *)
Lemma month_search_self (c : cp) (name : str) (d1 d2 d3 d4 : cp) :
  is_word c = true -> ends_in_word true name = true ->
  ascii_digit d1 = true -> ascii_digit d2 = true ->
  ascii_digit d3 = true -> ascii_digit d4 = true ->
  search (month_re (c :: name)) ((c :: name) ++ 32%N :: [d1; d2; d3; d4])
  = Some [(1%nat, [d1; d2; d3; d4])].
Proof.
  intros Hc Hl H1 H2 H3 H4.
  apply ascii_digit_facts in H1 as (S1 & D1 & W1 & _).
  apply ascii_digit_facts in H2 as (S2 & D2 & W2 & _).
  apply ascii_digit_facts in H3 as (S3 & D3 & W3 & _).
  apply ascii_digit_facts in H4 as (S4 & D4 & W4 & _).
  unfold search. cbn [app search_from].
  replace (match_at (month_re (c :: name)) false (c :: name ++ [32%N; d1; d2; d3; d4]))
    with (Some [(1%nat, [d1; d2; d3; d4])]); [reflexivity|].
  unfold match_at, month_re. cbn [mt next_is_word]. rewrite Hc. cbn [xorb].
  change (c :: name ++ [32%N; d1; d2; d3; d4])
    with ((c :: name) ++ [32%N; d1; d2; d3; d4]).
  rewrite (mt_Lit (c :: name)), prefix_app, skipn_app, skipn_all, Nat.sub_diag.
  rewrite ends_in_word_cons, Hc, Hl.
  cbn [app skipn mt next_is_word Opt Plus Rep].
  change (is_word 32%N) with false. change (is_space 32%N) with true.
  cbn [xorb length].
  rewrite S1, D1. cbn [length Nat.ltb Nat.leb].
  rewrite D2. cbn [length]. rewrite D3. cbn [length]. rewrite D4.
  reflexivity.
Qed.

End NamedMonth.

Section NamedMonthRule.
Context {U : Unicode}.
Variable now : date.
Local Open Scope Z_scope.

Lemma month_search_other (name t : str) :
  str_in name t = false -> search (month_re name) t = None.
Proof. apply search_needs_literal. Qed.

Lemma digit_ascii (k : Z) : ascii_digit (digit k) = true.
Proof.
  unfold ascii_digit, digit. rewrite andb_true_iff, !N.leb_le.
  assert (0 <= k mod 10 < 10) by (apply Z.mod_pos_bound; lia). lia.
Qed.

Lemma decimal_digit (k : Z) : decimal (digit k) = Some (Z.to_N (k mod 10)).
Proof.
  destruct (ascii_digit_facts (digit k) (digit_ascii k)) as (_ & _ & _ & -> & _).
  f_equal. unfold digit.
  assert (0 <= k mod 10 < 10) by (apply Z.mod_pos_bound; lia). lia.
Qed.

(** [int] reads back a year written with four digits. *)
Lemma int_pad4 (y : Z) : 0 <= y <= 9999 -> int (pad4 y) = Ok y.
Proof.
  intros Hy. unfold pad4. cbn [int int_digits].
  rewrite !decimal_digit. cbn [int_digits]. f_equal.
  rewrite !Z2N.id by (apply Z.mod_pos_bound; lia).
  divmod.
Qed.

(** The text "<name> <yyyy>" resolves to the first and the last day of
    the month, when no earlier name of the table occurs in [name]. *)
Lemma month_loop_hit (skipped rest : list (str * Z)) (c : cp) (name : str) (m y : Z) :
  Forall (fun p => fst p <> [] /\ forallb ascii_lower (fst p) = true
                   /\ str_in (fst p) (c :: name) = false) skipped ->
  is_word c = true -> ends_in_word true name = true ->
  1 <= m <= 12 -> 1 <= y <= 9999 -> (m = 12 -> y + 1 <= 9999) ->
  month_loop now (skipped ++ ((c :: name), m) :: rest)
    ((c :: name) ++ py " " ++ pad4 y)
  = Ok (Some (isoformat (mkdate y m 1),
              isoformat (mkdate y m (_days_in_month y m)))).
Proof.
  intros Hs Hc Hl Hm Hy Hdec.
  induction Hs as [|[name' m'] skipped (Hne & Hlow & Hin) _ IH].
  - cbn [app month_loop].
    change (c :: name ++ py " " ++ pad4 y)
      with ((c :: name)
            ++ 32%N :: [digit (y / 1000); digit (y / 100); digit (y / 10); digit y]).
    rewrite month_search_self by (assumption || apply digit_ascii).
    cbn [group Nat.eqb]. fold (pad4 y). rewrite int_pad4 by lia. cbn [bind].
    rewrite date_new_valid.
    2:{ unfold valid, MINYEAR, MAXYEAR. cbn [year month day].
        repeat split; try lia. unfold _days_in_month.
        months m; destruct (_is_leap y); tables; lia. }
    cbn [bind]. destruct (Z.eqb_spec m 12) as [->|Hne].
    + rewrite date_new_valid.
      2:{ unfold valid, MINYEAR, MAXYEAR. cbn [year month day].
          repeat split; try lia. unfold _days_in_month. tables. lia. }
      cbn [bind]. rewrite january_minus_one_day by lia. reflexivity.
    + rewrite date_new_valid.
      2:{ unfold valid, MINYEAR, MAXYEAR. cbn [year month day].
          repeat split; try lia. unfold _days_in_month.
          months m; try lia; destruct (_is_leap y); tables; lia. }
      cbn [bind]. rewrite first_minus_one_day by lia. reflexivity.
  - cbn [app month_loop]. cbn [fst] in *.
    change (c :: name ++ py " " ++ pad4 y) with ((c :: name) ++ py " " ++ pad4 y).
    rewrite month_search_other; [exact IH|].
    rewrite str_in_app_letters; auto.
    change (py " ") with [32%N]. unfold pad4. cbn [app forallb].
    destruct (ascii_digit_facts _ (digit_ascii (y / 1000))) as (_ & _ & _ & _ & ->).
    destruct (ascii_digit_facts _ (digit_ascii (y / 100))) as (_ & _ & _ & _ & ->).
    destruct (ascii_digit_facts _ (digit_ascii (y / 10))) as (_ & _ & _ & _ & ->).
    destruct (ascii_digit_facts _ (digit_ascii y)) as (_ & _ & _ & _ & ->).
    reflexivity.
Qed.

End NamedMonthRule.

(** Settles the named-month rule for the [i]-th entry of [MONTHS]: the
    entries before it do not occur in its name. *)
Ltac month_hit i :=
  let sk := eval cbv in (firstn i MONTHS) in
  let rs := eval cbv in (skipn (S i) MONTHS) in
  match goal with
  | |- month_loop ?now _ (?nm ++ _) = _ =>
      let v := eval vm_compute in nm in change nm with v
  end;
  match goal with
  | |- month_loop ?now _ ((?c :: ?nm) ++ _)
       = Ok (Some (isoformat (mkdate ?y ?m _), _)) =>
      refine (month_loop_hit now sk rs c nm m y _ _ _ _ _ _);
      [ repeat (apply Forall_cons;
                [split; [discriminate|split; vm_compute; reflexivity]|]);
        apply Forall_nil
      | reflexivity
      | vm_compute; reflexivity
      | lia
      | assumption
      | try assumption; intro; discriminate ]
  end.

(** C5. Named-month resolution: for every name of the month table (where
    "septiembre" and "setiembre" both stand for month 9) followed by a
    year [y] of four digits, with [1 <= y] and, for December, [y + 1] within
    the years of [date], the resolver returns the first and the last day of
    that month of [y]; the last day is the first day of the next month (of
    January of [y + 1] for December) minus one day.  So "agosto 2024" gives
    2024-08-01 and 2024-08-31, and "diciembre 2024" gives 2024-12-01 and
    2024-12-31. *)
Theorem named_month_resolution :
  (forall (U : Unicode) (now : date) (name : str) (m y : Z),
      In (name, m) MONTHS ->
      (1 <= y <= 9999)%Z -> (m = 12 -> y + 1 <= 9999)%Z ->
      let t := name ++ py " " ++ pad4 y in
      let first := mkdate y m 1 in
      let last := mkdate y m (_days_in_month y m) in
      (if (m =? 12)%Z
       then (d <- date_new (y + 1) 1 1 ;; sub_days d 1)
       else (d <- date_new y (m + 1) 1 ;; sub_days d 1)) = Ok last
      /\ _month_range_from_name now t
         = Ok (Some (isoformat first, isoformat last))
      /\ _apply_date_pattern now t
         = Ok (Some (isoformat first), Some (isoformat last)))
  /\ In (py "septiembre", 9%Z) MONTHS
  /\ In (py "setiembre", 9%Z) MONTHS
  /\ (forall (U : Unicode) (now : date),
        _apply_date_pattern now (py "agosto 2024")
        = Ok (Some (py "2024-08-01"), Some (py "2024-08-31")))
  /\ (forall (U : Unicode) (now : date),
        _apply_date_pattern now (py "diciembre 2024")
        = Ok (Some (py "2024-12-01"), Some (py "2024-12-31"))).
Proof.
  assert (G : forall (U : Unicode) (now : date) (name : str) (m y : Z),
      In (name, m) MONTHS ->
      (1 <= y <= 9999)%Z -> (m = 12 -> y + 1 <= 9999)%Z ->
      _month_range_from_name now (name ++ py " " ++ pad4 y)
      = Ok (Some (isoformat (mkdate y m 1),
                  isoformat (mkdate y m (_days_in_month y m))))).
  { intros U now name m y Hin Hy Hdec. unfold _month_range_from_name.
    unfold MONTHS in Hin. cbn [In] in Hin.
    destruct Hin as [E|Hin]; [injection E as <- <-; month_hit 0%nat|].
    destruct Hin as [E|Hin]; [injection E as <- <-; month_hit 1%nat|].
    destruct Hin as [E|Hin]; [injection E as <- <-; month_hit 2%nat|].
    destruct Hin as [E|Hin]; [injection E as <- <-; month_hit 3%nat|].
    destruct Hin as [E|Hin]; [injection E as <- <-; month_hit 4%nat|].
    destruct Hin as [E|Hin]; [injection E as <- <-; month_hit 5%nat|].
    destruct Hin as [E|Hin]; [injection E as <- <-; month_hit 6%nat|].
    destruct Hin as [E|Hin]; [injection E as <- <-; month_hit 7%nat|].
    destruct Hin as [E|Hin]; [injection E as <- <-; month_hit 8%nat|].
    destruct Hin as [E|Hin]; [injection E as <- <-; month_hit 9%nat|].
    destruct Hin as [E|Hin]; [injection E as <- <-; month_hit 10%nat|].
    destruct Hin as [E|Hin]; [injection E as <- <-; month_hit 11%nat|].
    destruct Hin as [E|[]]. injection E as <- <-. month_hit 12%nat. }
  assert (A : forall (U : Unicode) (now : date) (name : str) (m y : Z),
      In (name, m) MONTHS ->
      (1 <= y <= 9999)%Z -> (m = 12 -> y + 1 <= 9999)%Z ->
      _apply_date_pattern now (name ++ py " " ++ pad4 y)
      = Ok (Some (isoformat (mkdate y m 1)),
            Some (isoformat (mkdate y m (_days_in_month y m))))).
  { intros U now name m y Hin Hy Hdec. unfold _apply_date_pattern.
    rewrite (G U now name m y Hin Hy Hdec). reflexivity. }
  split; [|split; [|split; [|split]]].
  - intros U now name m y Hin Hy Hdec t first last.
    split; [|split; [now apply G|now apply A]].
    assert (Hm : (1 <= m <= 12)%Z).
    { unfold MONTHS in Hin. cbn [In] in Hin.
      repeat (destruct Hin as [E|Hin]; [injection E as _ <-; lia|]).
      destruct Hin. }
    destruct (Z.eqb_spec m 12) as [->|Hne].
    + rewrite date_new_valid.
      2:{ unfold valid, MINYEAR, MAXYEAR. cbn [year month day].
          repeat split; try lia. unfold _days_in_month. tables. lia. }
      cbn [bind]. apply january_minus_one_day. lia.
    + rewrite date_new_valid.
      2:{ unfold valid, MINYEAR, MAXYEAR. cbn [year month day].
          repeat split; try lia. unfold _days_in_month.
          months m; try lia; destruct (_is_leap y); tables; lia. }
      cbn [bind]. apply first_minus_one_day; lia.
  - unfold MONTHS. cbn [In]. tauto.
  - unfold MONTHS. cbn [In]. tauto.
  - intros U now. apply (A U now (py "agosto") 8%Z 2024%Z).
    + unfold MONTHS. cbn [In]. tauto.
    + lia.
    + discriminate.
  - intros U now. apply (A U now (py "diciembre") 12%Z 2024%Z).
    + unfold MONTHS. cbn [In]. tauto.
    + lia.
    + lia.
Qed.

(** * A blank at either end of the text *)

Section TrailingBlank.
Context {U : Unicode}.

Lemma mt_Star {R : Type} (r1 : regex) (wb : bool) (s : str) (g : caps)
    (k : bool -> str -> caps -> option R) :
  mt (Star r1) wb s g k = star_loop r1 k (length s) wb s g.
Proof. reflexivity. Qed.

(** At the end of the text a pattern succeeds only through its
    continuation. *)
Lemma mt_at_end {R : Type} (r : regex) (wb : bool) :
  forall (g : caps) (k : bool -> str -> caps -> option R),
    (forall g', k wb [] g' = None) -> mt r wb [] g k = None.
Proof.
  induction r as [| c | | cs | | | | r1 IH1 r2 IH2 | r1 IH1 r2 IH2 | r1 IH1
                  | i r1 IH1]; intros g k Hk; cbn [mt]; try reflexivity.
  - apply Hk.
  - destruct (xorb wb (next_is_word [])); [apply Hk|reflexivity].
  - apply IH1. intros g'. now apply IH2.
  - now rewrite IH1, IH2.
  - apply Hk.
  - apply IH1. intros g'. apply Hk.
Qed.

Section Continuations.
Variables R R' : Type.
Variable f : R -> R'.

Lemma star_loop_snoc (r1 : regex)
    (IH : forall k' k, follows f k' k ->
          forall wb s g, mt r1 wb (s ++ [32%N]) g k' = option_map f (mt r1 wb s g k))
    (k' : bool -> str -> caps -> option R') (k : bool -> str -> caps -> option R) :
  follows f k' k ->
  forall n wb s g,
    (length s <= n)%nat ->
    star_loop r1 k' (S n) wb (s ++ [32%N]) g
    = option_map f (star_loop r1 k n wb s g).
Proof.
  intros [H1 H2].
  assert (Hend : forall n g, star_loop r1 k' n false [] g = None).
  { intros n g. destruct n as [|n]; cbn [star_loop]; [apply H2|].
    rewrite mt_at_end; [apply H2|]. reflexivity. }
  induction n as [|n IHn]; intros wb s g Hn.
  - destruct s as [|x s]; [|cbn in Hn; lia].
    change (match mt r1 wb ([] ++ [32%N]) g
                    (fun wb' s' g' =>
                       if Nat.ltb (length s') (length [32%N])
                       then k' wb' s' g' else None) with
            | Some x => Some x
            | None => k' wb ([] ++ [32%N]) g
            end = option_map f (k wb [] g)).
    assert (F : follows f
                  (fun wb' s' g' =>
                     if Nat.ltb (length s') (length [32%N])
                     then k' wb' s' g' else None)
                  (fun _ _ _ => None)).
    { split.
      - intros wb' s' g'. rewrite length_app. cbn [length].
        replace (Nat.ltb (length s' + 1) 1) with false; [reflexivity|].
        symmetry. apply Nat.ltb_ge. lia.
      - intros g'. cbn [length Nat.ltb Nat.leb]. apply H2. }
    rewrite (IH _ _ F wb [] g).
    rewrite mt_at_end by reflexivity. apply (H1 wb [] g).
  - change (star_loop r1 k' (S (S n)) wb (s ++ [32%N]) g)
      with (match mt r1 wb (s ++ [32%N]) g
                    (fun wb' s' g' =>
                       if Nat.ltb (length s') (length (s ++ [32%N]))
                       then star_loop r1 k' (S n) wb' s' g' else None) with
            | Some x => Some x
            | None => k' wb (s ++ [32%N]) g
            end).
    change (star_loop r1 k (S n) wb s g)
      with (match mt r1 wb s g
                    (fun wb' s' g' =>
                       if Nat.ltb (length s') (length s)
                       then star_loop r1 k n wb' s' g' else None) with
            | Some x => Some x
            | None => k wb s g
            end).
    rewrite (IH _ (fun wb' s' g' =>
                     if Nat.ltb (length s') (length s)
                     then star_loop r1 k n wb' s' g' else None)).
    + rewrite H1. now destruct (mt r1 wb s g _).
    + split.
      * intros wb' s' g'. cbv beta. rewrite !length_app. cbn [length].
        replace (Nat.ltb (length s' + 1) (length s + 1))
          with (Nat.ltb (length s') (length s)).
        2:{ destruct (Nat.ltb_spec (length s') (length s));
            symmetry; [apply Nat.ltb_lt|apply Nat.ltb_ge]; lia. }
        destruct (Nat.ltb (length s') (length s)) eqn:E; [|reflexivity].
        apply Nat.ltb_lt in E. apply IHn. lia.
      * intros g'. destruct (Nat.ltb _ _); [apply Hend|reflexivity].
Qed.

(** A pattern runs on the text with one more blank at its end as it does
    without it, when its continuation does. *)
Lemma mt_snoc (r : regex) :
  forall k' k, follows f k' k ->
  forall wb s g, mt r wb (s ++ [32%N]) g k' = option_map f (mt r wb s g k).
Proof.
  induction r as [| c | | cs | | | | r1 IH1 r2 IH2 | r1 IH1 r2 IH2 | r1 IH1
                  | i r1 IH1]; intros k' k [H1 H2] wb s g.
  - apply H1.
  - destruct s as [|x s]; cbn [app mt].
    + change (is_word 32%N) with false. rewrite H2. now destruct (_ =? _)%N.
    + destruct (x =? c)%N; [apply H1|reflexivity].
  - destruct s as [|x s]; cbn [app mt].
    + change (is_word 32%N) with false. rewrite H2. now destruct (_ =? _)%N.
    + destruct (x =? 10)%N; [reflexivity|apply H1].
  - destruct s as [|x s]; cbn [app mt].
    + change (is_word 32%N) with false. rewrite H2. now destruct (existsb _ _).
    + destruct (existsb _ _); [apply H1|reflexivity].
  - destruct s as [|x s]; cbn [app mt].
    + change (is_word 32%N) with false. rewrite H2. now destruct (is_space _).
    + destruct (is_space x); [apply H1|reflexivity].
  - destruct s as [|x s]; cbn [app mt].
    + change (is_word 32%N) with false. rewrite H2. now destruct (is_digit _).
    + destruct (is_digit x); [apply H1|reflexivity].
  - cbn [mt].
    replace (next_is_word (s ++ [32%N])) with (next_is_word s)
      by (destruct s; reflexivity).
    destruct (xorb wb (next_is_word s)); [apply H1|reflexivity].
  - cbn [mt]. apply IH1. split.
    + intros wb' s' g'. now apply IH2.
    + intros g'. now apply mt_at_end.
  - cbn [mt]. rewrite (IH1 k' k), (IH2 k' k) by (split; assumption).
    now destruct (mt r1 wb s g k).
  - rewrite !mt_Star, length_app. cbn [length]. rewrite Nat.add_1_r.
    apply star_loop_snoc; auto. now split.
  - cbn [mt]. apply IH1. split.
    + intros wb' s' g'. rewrite H1. do 3 f_equal. f_equal.
      rewrite !length_app. cbn [length].
      replace (length s + 1 - (length s' + 1))%nat
        with (length s - length s')%nat by lia.
      rewrite firstn_app.
      replace (length s - length s' - length s)%nat with O by lia.
      cbn [firstn]. apply app_nil_r.
    + intros g'. apply H2.
Qed.

End Continuations.
End TrailingBlank.

Arguments mt_snoc {U R R'} f r k' k _ wb s g.

Section BlankBlind.
Context {U : Unicode}.

Lemma option_map_id {A : Type} (o : option A) : option_map (fun x => x) o = o.
Proof. now destruct o. Qed.

Lemma blank_blind_WordB : blank_blind WordB.
Proof.
  split.
  - intros wb s g. cbn [mt].
    replace (next_is_word (s ++ [32%N])) with (next_is_word s)
      by (destruct s; reflexivity).
    now destruct (xorb wb (next_is_word s)).
  - reflexivity.
Qed.

Lemma blank_blind_Cat (r1 r2 : regex) : blank_blind r2 -> blank_blind (Cat r1 r2).
Proof.
  intros H. split.
  - intros wb s g. cbn [mt]. now apply (mt_snoc (fun g0 : caps => g0)).
  - intros g. cbn [mt]. apply mt_at_end. intros g'. apply H.
Qed.

Lemma search_from_snoc (r : regex) (wb : bool) (s : str) :
  blank_blind r -> search_from r wb (s ++ [32%N]) = search_from r wb s.
Proof.
  intros [H1 H2]. cbv beta in H1, H2.
  revert wb; induction s as [|x s IH]; intros wb.
  - cbn [app search_from]. unfold match_at.
    assert (E := H1 wb [] []). cbn [app] in E.
    rewrite E, option_map_id. change (is_word 32%N) with false.
    rewrite H2. now destruct (mt r wb [] [] _).
  - cbn [app search_from]. unfold match_at.
    assert (E := H1 wb (x :: s) []). cbn [app] in E.
    rewrite E, option_map_id, IH. reflexivity.
Qed.

Lemma found_snoc (r : regex) (t : str) :
  blank_blind r -> found r (t ++ [32%N]) = found r t.
Proof. intros H. unfold found, search. now rewrite search_from_snoc. Qed.

(** A blank at the head of the text is no place for a pattern that starts
    at a word boundary before a word character. *)
Lemma found_cons (r : regex) (t : str) :
  match_at r false (32%N :: t) = None -> found r (32%N :: t) = found r t.
Proof. intros H. unfold found, search. cbn [search_from]. now rewrite H. Qed.

Lemma ends_in_letter_Chr (c : cp) : c <> 32%N -> ends_in_letter (Chr c).
Proof.
  intros Hc R R' f k' k H1. split.
  - intros wb s g. destruct s as [|x s]; cbn [app mt].
    + destruct (N.eqb_spec 32 c); [congruence|reflexivity].
    + destruct (x =? c)%N; [apply H1|reflexivity].
  - reflexivity.
Qed.

Lemma ends_in_letter_Cat (r1 r2 : regex) :
  ends_in_letter r2 -> ends_in_letter (Cat r1 r2).
Proof.
  intros H R R' f k' k H1. destruct (H R R' f k' k H1) as [F1 F2]. split.
  - intros wb s g. cbn [mt]. apply (mt_snoc f). now split.
  - intros g. cbn [mt]. apply mt_at_end. apply F2.
Qed.

Lemma ends_in_letter_Cat_Eps (r1 : regex) :
  ends_in_letter r1 -> ends_in_letter (Cat r1 Eps).
Proof.
  intros H R R' f k' k H1.
  destruct (H R R' f (fun wb s g => k' wb s g) (fun wb s g => k wb s g) H1)
    as [F1 F2].
  split.
  - intros wb s g. cbn [mt]. apply F1.
  - intros g. cbn [mt]. apply F2.
Qed.

Lemma ends_in_letter_Alt (r1 r2 : regex) :
  ends_in_letter r1 -> ends_in_letter r2 -> ends_in_letter (Alt r1 r2).
Proof.
  intros Ha Hb R R' f k' k H1.
  destruct (Ha R R' f k' k H1) as [A1 A2], (Hb R R' f k' k H1) as [B1 B2].
  split.
  - intros wb s g. cbn [mt]. rewrite A1, B1. now destruct (mt r1 wb s g k).
  - intros g. cbn [mt]. now rewrite A2, B2.
Qed.

Lemma match_here_snoc (r : regex) (wb : bool) (s : str) :
  ends_in_letter r ->
  match_here r wb (s ++ [32%N])
  = option_map (fun p => (fst p, snd p ++ [32%N])) (match_here r wb s).
Proof.
  intros H. unfold match_here.
  apply (H _ _ (fun p : bool * str => (fst p, snd p ++ [32%N]))
           (fun wb' s' _ => Some (wb', s')) (fun wb' s' _ => Some (wb', s'))).
  reflexivity.
Qed.

Lemma sub_loop_nil (n : nat) (r : regex) (wb : bool) :
  sub_loop n r [] wb [] = [].
Proof.
  destruct n as [|n]; [reflexivity|]. cbn [sub_loop].
  destruct (match_here r wb []) as [[wb' s']|]; [|reflexivity].
  replace (Nat.ltb (length s') (length (@nil N))) with false; [reflexivity|].
  symmetry. apply Nat.ltb_ge. cbn [length]. lia.
Qed.

Lemma sub_loop_S (n : nat) (r : regex) (repl : str) (wb : bool) (s : str) :
  sub_loop (S n) r repl wb s =
  match match_here r wb s with
  | Some (wb', s') =>
      if Nat.ltb (length s') (length s)
      then repl ++ sub_loop n r repl wb' s'
      else
        repl ++ match s with
                | [] => []
                | x :: s1 => x :: sub_loop n r repl (is_word x) s1
                end
  | None =>
      match s with
      | [] => []
      | x :: s1 => x :: sub_loop n r repl (is_word x) s1
      end
  end.
Proof. reflexivity. Qed.

(** Deleting the matches of [r] leaves a blank at the end of the text in
    its place. *)
Lemma sub_loop_snoc (r : regex) :
  ends_in_letter r ->
  forall n wb s,
    (length s < n)%nat ->
    sub_loop (S n) r [] wb (s ++ [32%N]) = sub_loop n r [] wb s ++ [32%N].
Proof.
  intros H. induction n as [|n IH]; intros wb s Hn; [lia|].
  rewrite (sub_loop_S (S n)), (sub_loop_S n).
  rewrite match_here_snoc by assumption.
  destruct (match_here r wb s) as [[wb' s']|]; cbn [option_map fst snd].
  - rewrite !length_app. cbn [length].
    replace (Nat.ltb (length s' + 1) (length s + 1))
      with (Nat.ltb (length s') (length s)).
    2:{ destruct (Nat.ltb_spec (length s') (length s));
        symmetry; [apply Nat.ltb_lt|apply Nat.ltb_ge]; lia. }
    destruct (Nat.ltb (length s') (length s)) eqn:E.
    + apply Nat.ltb_lt in E. cbn [app]. apply IH. lia.
    + destruct s as [|x s]; cbn [app].
      * now rewrite sub_loop_nil.
      * f_equal. apply IH. cbn [length] in Hn. lia.
  - destruct s as [|x s]; cbn [app].
    + now rewrite sub_loop_nil.
    + f_equal. apply IH. cbn [length] in Hn. lia.
Qed.

Lemma sub_snoc (r : regex) (t : str) :
  ends_in_letter r -> sub r [] (t ++ [32%N]) = sub r [] t ++ [32%N].
Proof.
  intros H. unfold sub. rewrite length_app. cbn [length].
  rewrite Nat.add_1_r. apply sub_loop_snoc; auto.
Qed.

Lemma sub_cons (r : regex) (t : str) :
  match_here r false (32%N :: t) = None ->
  sub r [] (32%N :: t) = 32%N :: sub r [] t.
Proof. intros H. unfold sub. cbn [length sub_loop]. now rewrite H. Qed.

(** A blank at either end is no part of a word that has none there. *)
Lemma prefix_snoc (w s : str) :
  w <> [] -> last w 0%N <> 32%N -> prefix w (s ++ [32%N]) = prefix w s.
Proof.
  revert s; induction w as [|a w IH]; intros s Hne Hl; [congruence|].
  destruct s as [|x s]; cbn [app prefix].
  - destruct w as [|b w].
    + cbn [last] in Hl. destruct (N.eqb_spec a 32); [congruence|reflexivity].
    + cbn [prefix]. apply andb_false_r.
  - destruct w as [|b w]; [now destruct s|].
    rewrite IH; [reflexivity|discriminate|exact Hl].
Qed.

Lemma str_in_snoc (w t : str) :
  w <> [] -> last w 0%N <> 32%N -> str_in w (t ++ [32%N]) = str_in w t.
Proof.
  intros Hne Hl. induction t as [|x t IH].
  - assert (E := prefix_snoc w [] Hne Hl). cbn [app] in E.
    cbn [app str_in]. rewrite E.
    destruct w; [congruence|reflexivity].
  - cbn [app str_in]. rewrite IH.
    change (x :: t ++ [32%N]) with ((x :: t) ++ [32%N]).
    now rewrite prefix_snoc.
Qed.

Lemma str_in_cons (w t : str) :
  hd 32%N w <> 32%N -> str_in w (32%N :: t) = str_in w t.
Proof.
  intros Hh. cbn [str_in]. destruct w as [|a w]; [now elim Hh|].
  cbn [prefix hd] in *. destruct (N.eqb_spec a 32); [congruence|reflexivity].
Qed.

Lemma trimmed_words_In (ws : list str) (w : str) :
  trimmed_words ws = true -> In w ws ->
  w <> [] /\ hd 32%N w <> 32%N /\ last w 0%N <> 32%N.
Proof.
  unfold trimmed_words. rewrite forallb_forall. intros H Hin.
  specialize (H w Hin). apply andb_true_iff in H as [Hh Hl].
  apply negb_true_iff, N.eqb_neq in Hh, Hl.
  destruct w as [|a w]; [now elim Hh|]. repeat split; auto; [discriminate|].
  intros E. apply Hl. rewrite <- E. clear.
  revert a; induction w as [|b w IH]; intros a; [reflexivity|].
  change (last (a :: b :: w) 32%N) with (last (b :: w) 32%N).
  change (last (a :: b :: w) 0%N) with (last (b :: w) 0%N). apply IH.
Qed.

Lemma any_in_cons (ws : list str) (t : str) :
  trimmed_words ws = true -> any_in ws (32%N :: t) = any_in ws t.
Proof.
  intros H. unfold any_in. induction ws as [|w ws IH]; [reflexivity|].
  cbn [existsb]. rewrite str_in_cons.
  - f_equal. apply IH. cbn [trimmed_words forallb] in H.
    now apply andb_true_iff in H.
  - apply (trimmed_words_In (w :: ws) w H). now left.
Qed.

Lemma any_in_snoc (ws : list str) (t : str) :
  trimmed_words ws = true -> any_in ws (t ++ [32%N]) = any_in ws t.
Proof.
  intros H. unfold any_in. induction ws as [|w ws IH]; [reflexivity|].
  cbn [existsb]. rewrite str_in_snoc.
  - f_equal. apply IH. cbn [trimmed_words forallb] in H.
    now apply andb_true_iff in H.
  - apply (trimmed_words_In (w :: ws) w H). now left.
  - apply (trimmed_words_In (w :: ws) w H). now left.
Qed.

End BlankBlind.

(** * The intent on a text with a blank at either end *)

Section IntentBlank.
Context {U : Unicode}.

Lemma detect_intent_norm (text : str) :
  detect_intent text = intent_of (_norm text).
Proof. reflexivity. Qed.

Lemma first_intent_snoc (table : list (regex * Intent)) (t : str) :
  Forall (fun p => blank_blind (fst p)) table ->
  first_intent table (t ++ [32%N]) = first_intent table t.
Proof.
  induction 1 as [|[pat name] table Hp _ IH]; [reflexivity|].
  cbn [first_intent]. cbn [fst] in Hp. now rewrite found_snoc, IH.
Qed.

Lemma INTENTS_blank_blind : Forall (fun p => blank_blind (fst p)) INTENTS.
Proof.
  unfold INTENTS.
  repeat (apply Forall_cons;
          [cbn [fst]; repeat apply blank_blind_Cat; apply blank_blind_WordB|]).
  apply Forall_nil.
Qed.

Lemma ORDERS_blank_blind : blank_blind ORDERS.
Proof. unfold ORDERS. repeat apply blank_blind_Cat. apply blank_blind_WordB. Qed.

Lemma FILLER_ends_in_letter : ends_in_letter FILLER.
Proof.
  let r := eval vm_compute in FILLER in change FILLER with r.
  repeat match goal with
         | |- ends_in_letter (Alt ?a ?b) => apply (ends_in_letter_Alt a b)
         | |- ends_in_letter (Cat ?a Eps) => apply (ends_in_letter_Cat_Eps a)
         | |- ends_in_letter (Cat ?a ?b) => apply (ends_in_letter_Cat a b)
         | |- ends_in_letter (Chr ?c) =>
             apply (ends_in_letter_Chr c); discriminate
         end.
Qed.

Lemma intent_of_snoc (t : str) : intent_of (t ++ [32%N]) = intent_of t.
Proof.
  unfold intent_of.
  rewrite !any_in_snoc by reflexivity.
  rewrite (found_snoc ORDERS) by apply ORDERS_blank_blind.
  rewrite sub_snoc by apply FILLER_ends_in_letter.
  rewrite first_intent_snoc by apply INTENTS_blank_blind.
  rewrite !str_in_snoc by discriminate.
  reflexivity.
Qed.

Lemma first_intent_cons (t : str) :
  first_intent INTENTS (32%N :: t) = first_intent INTENTS t.
Proof.
  unfold INTENTS. cbn [first_intent].
  rewrite !found_cons by reflexivity. reflexivity.
Qed.

Lemma intent_of_cons (t : str) : intent_of (32%N :: t) = intent_of t.
Proof.
  unfold intent_of.
  rewrite !any_in_cons by reflexivity.
  rewrite (found_cons ORDERS) by reflexivity.
  rewrite sub_cons by reflexivity.
  rewrite first_intent_cons.
  rewrite !str_in_cons by discriminate.
  reflexivity.
Qed.

End IntentBlank.

(** * Blanks: trimming and collapsing *)

Section Blanks.
Context {U : Unicode}.

Lemma lstrip_length (s : str) : (length (lstrip s) <= length s)%nat.
Proof.
  induction s as [|x s IH]; [reflexivity|]. cbn [lstrip].
  destruct (is_space x); cbn [length]; lia.
Qed.

Lemma lstrip_head (s : str) :
  lstrip s = [] \/ exists x t, lstrip s = x :: t /\ is_space x = false.
Proof.
  induction s as [|x s IH]; [now left|]. cbn [lstrip].
  destruct (is_space x) eqn:E; [exact IH|]. right. now exists x, s.
Qed.

Lemma lstrip_split (s : str) :
  exists w, forallb is_space w = true /\ s = w ++ lstrip s.
Proof.
  induction s as [|x s (w & Hw & IH)]; [now exists []|]. cbn [lstrip].
  destruct (is_space x) eqn:E.
  - exists (x :: w). cbn [forallb app]. rewrite E, Hw. split; [reflexivity|].
    now f_equal.
  - now exists [].
Qed.

Lemma lstrip_spaces (w s : str) :
  forallb is_space w = true -> lstrip (w ++ s) = lstrip s.
Proof.
  induction w as [|x w IH]; [reflexivity|]. cbn [forallb app lstrip].
  intros H. apply andb_true_iff in H as [-> H]. auto.
Qed.

(** The loop of [\s+] runs to the end of the blanks. *)
Lemma star_space_loop (n : nat) (wb : bool) (s : str) (g : caps) :
  (length s <= n)%nat ->
  exists wb',
    star_loop Space (fun wb0 s0 (_ : caps) => Some (wb0, s0)) n wb s g
    = Some (wb', lstrip s).
Proof.
  revert wb s; induction n as [|n IH]; intros wb s Hn.
  - destruct s; [|cbn in Hn; lia]. now exists wb.
  - destruct s as [|x s].
    + now exists wb.
    + cbn [star_loop mt lstrip]. destruct (is_space x); [|now exists wb].
      replace (Nat.ltb (length s) (length (x :: s))) with true
        by (symmetry; apply Nat.ltb_lt; cbn [length]; lia).
      destruct (IH (is_word x) s ltac:(cbn [length] in Hn; lia)) as [wb' ->].
      now exists wb'.
Qed.

Lemma match_here_spaces (wb : bool) (s : str) :
  match s with
  | x :: s' =>
      if is_space x
      then exists wb', match_here (Plus Space) wb s = Some (wb', lstrip s')
      else match_here (Plus Space) wb s = None
  | [] => match_here (Plus Space) wb s = None
  end.
Proof.
  destruct s as [|x s]; [reflexivity|].
  unfold match_here, Plus.
  change (mt (Cat Space (Star Space)) wb (x :: s) []
            (fun wb' s' (_ : caps) => Some (wb', s')))
    with (if is_space x
          then mt (Star Space) (is_word x) s []
                 (fun wb' s' (_ : caps) => Some (wb', s'))
          else None).
  destruct (is_space x); [|reflexivity].
  rewrite mt_Star. apply star_space_loop. lia.
Qed.

Lemma collapse_from_true (s : str) :
  collapse_from true s = collapse_from false (lstrip s).
Proof.
  induction s as [|x s IH]; [reflexivity|]. cbn [collapse_from lstrip].
  destruct (is_space x) eqn:E; [exact IH|]. cbn [collapse_from]. now rewrite E.
Qed.

(** [re.sub(r"\s+", " ", s)] replaces every run of blanks by one blank. *)
Lemma sub_loop_spaces (n : nat) (wb : bool) (s : str) :
  (length s < n)%nat ->
  sub_loop n (Plus Space) [32%N] wb s = collapse_from false s.
Proof.
  revert wb s; induction n as [|n IH]; intros wb s Hn; [lia|].
  rewrite sub_loop_S. assert (M := match_here_spaces wb s).
  destruct s as [|x s]; [now rewrite M|].
  cbn [collapse_from]. destruct (is_space x).
  - destruct M as [wb' ->]. assert (L := lstrip_length s).
    replace (Nat.ltb (length (lstrip s)) (length (x :: s))) with true
      by (symmetry; apply Nat.ltb_lt; cbn [length]; lia).
    cbn [app]. rewrite collapse_from_true. f_equal. apply IH.
    cbn [length] in Hn. lia.
  - rewrite M. f_equal. apply IH. cbn [length] in Hn. lia.
Qed.

Lemma sub_spaces (s : str) :
  sub (Plus Space) (py " ") s = collapse_from false s.
Proof. apply sub_loop_spaces. lia. Qed.

Lemma collapse_spaces (b : bool) (w : str) :
  forallb is_space w = true -> blank_or_nil (collapse_from b w).
Proof.
  intros H. assert (T : collapse_from true w = []).
  { induction w as [|x w IH]; [reflexivity|]. cbn [forallb] in H.
    apply andb_true_iff in H as [Hx H]. cbn [collapse_from]. rewrite Hx. auto. }
  destruct b; [left; exact T|].
  destruct w as [|x w]; [now left|]. cbn [forallb] in H.
  apply andb_true_iff in H as [Hx H]. cbn [collapse_from]. rewrite Hx.
  right. f_equal.
  clear T Hx. induction w as [|y w IH]; [reflexivity|]. cbn [forallb] in H.
  apply andb_true_iff in H as [Hy H]. cbn [collapse_from]. rewrite Hy. auto.
Qed.

Lemma collapse_lstrip (s : str) :
  exists pre, blank_or_nil pre
              /\ collapse_from false s = pre ++ collapse_from false (lstrip s).
Proof.
  destruct s as [|x s]; [exists []; split; [now left|reflexivity]|].
  cbn [collapse_from lstrip]. destruct (is_space x) eqn:E.
  - exists [32%N]. split; [now right|]. cbn [app]. now rewrite collapse_from_true.
  - exists []. split; [now left|]. cbn [app collapse_from]. now rewrite E.
Qed.

(** Blanks behind a text that does not end in one. *)
Lemma collapse_app_spaces (c w : str) :
  is_space (last c 0%N) = false -> forallb is_space w = true ->
  forall b, exists suf,
    blank_or_nil suf /\ collapse_from b (c ++ w) = collapse_from b c ++ suf.
Proof.
  intros Hl Hw. induction c as [|x c IH]; intros b.
  - cbn [app collapse_from]. exists (collapse_from b w).
    split; [now apply collapse_spaces|reflexivity].
  - destruct c as [|y c].
    + cbn [last] in Hl. cbn [app collapse_from]. rewrite Hl.
      exists (collapse_from false w). split; [now apply collapse_spaces|reflexivity].
    + change (last (x :: y :: c) 0%N) with (last (y :: c) 0%N) in Hl.
      specialize (IH Hl). change ((x :: y :: c) ++ w) with (x :: ((y :: c) ++ w)).
      cbn [collapse_from]. destruct (is_space x).
      * destruct (IH true) as (suf & Hs & ->). exists suf. now destruct b.
      * destruct (IH false) as (suf & Hs & ->). now exists suf.
Qed.

Lemma rstrip_split (s : str) :
  (rstrip s = [] \/ is_space (last (rstrip s) 0%N) = false)
  /\ exists w, forallb is_space w = true /\ s = rstrip s ++ w.
Proof.
  unfold rstrip. split.
  - destruct (lstrip_head (rev s)) as [->|(x & t & -> & Hx)]; [now left|].
    right. cbn [rev]. now rewrite last_last.
  - destruct (lstrip_split (rev s)) as (w & Hw & E). exists (rev w). split.
    + rewrite forallb_forall in *. intros x Hx. apply Hw. now apply in_rev.
    + rewrite <- rev_app_distr, <- E. symmetry. apply rev_involutive.
Qed.

(** Collapsing the blanks of a text leaves the collapsed trimmed text, with
    at most one blank at either end. *)
Lemma collapse_strip (s : str) :
  exists pre suf,
    blank_or_nil pre /\ blank_or_nil suf
    /\ collapse_from false s = pre ++ collapse_from false (strip s) ++ suf.
Proof.
  destruct (collapse_lstrip s) as (pre & Hpre & E).
  destruct (rstrip_split (lstrip s)) as (Hl & w & Hw & Es).
  assert (S : exists suf,
             blank_or_nil suf
             /\ collapse_from false (lstrip s)
                = collapse_from false (rstrip (lstrip s)) ++ suf).
  { destruct Hl as [Hn|Hl].
    - exists (collapse_from false w). split; [now apply collapse_spaces|].
      rewrite Es at 1. now rewrite Hn.
    - destruct (collapse_app_spaces (rstrip (lstrip s)) w Hl Hw false)
        as (suf & Hsuf & Ec).
      exists suf. split; [assumption|]. rewrite Es at 1. exact Ec. }
  destruct S as (suf & Hsuf & E2).
  exists pre, suf. unfold strip. now rewrite E, E2.
Qed.

Lemma intent_of_blanks (pre suf m : str) :
  blank_or_nil pre -> blank_or_nil suf ->
  intent_of (pre ++ m ++ suf) = intent_of m.
Proof.
  intros [->| ->] [->| ->]; cbn [app];
    rewrite ?app_nil_r, ?intent_of_cons, ?intent_of_snoc; reflexivity.
Qed.

End Blanks.

(** * Accents *)

(** C8. Diacritic equivalence of intent detection: two inputs that are
    equal once their combining marks are dropped (after canonical
    decomposition, as [_norm] drops them) have the same intent, on any
    Unicode tables with the two properties of [AccentLaws]. *)
Theorem accent_equivalence {U : Unicode} {L : AccentLaws U} (x y : str) :
  strip_marks x = strip_marks y -> detect_intent x = detect_intent y.
Proof.
  intros H. rewrite !detect_intent_norm.
  change (_norm x)
    with (sub (Plus Space) (py " ") (strip_marks (strip (str_lower x)))).
  change (_norm y)
    with (sub (Plus Space) (py " ") (strip_marks (strip (str_lower y)))).
  rewrite !sub_spaces.
  destruct (collapse_strip (strip_marks (strip (str_lower x))))
    as (p1 & s1 & Hp1 & Hs1 & ->).
  destruct (collapse_strip (strip_marks (strip (str_lower y))))
    as (p2 & s2 & Hp2 & Hs2 & ->).
  rewrite !intent_of_blanks by assumption.
  rewrite !strip_strip_marks.
  now rewrite (lower_strip_marks x y H).
Qed.

(** * The Latin table satisfies the accent laws *)

Section Latin1Laws.
Local Open Scope N_scope.

(** A test that holds for every code point below U+0370. *)
Lemma below_880 (P : N -> bool) :
  forallb P (map N.of_nat (seq 0 880)) = true ->
  forall c, c < 880 -> P c = true.
Proof.
  intros H c Hc. rewrite forallb_forall in H. apply H.
  rewrite <- (N2Nat.id c). apply in_map, in_seq. lia.
Qed.

Lemma str_eqb_eq (a b : str) : str_eqb a b = true -> a = b.
Proof.
  revert b; induction a as [|x a IH]; intros [|y b]; cbn [str_eqb];
    try discriminate; [reflexivity|].
  intros H. apply andb_true_iff in H as [Hx H]. apply N.eqb_eq in Hx.
  f_equal; auto.
Qed.

Lemma latin1_base_high (c : N) : 880 <= c -> latin1_base c = [c].
Proof.
  intros Hc. unfold latin1_base, Latin1.decomp, Latin1.is_Mn.
  replace (880 <=? c) with true by (symmetry; apply N.leb_le; lia).
  cbn [filter].
  replace (c <=? 879) with false by (symmetry; apply N.leb_gt; lia).
  now rewrite andb_false_r.
Qed.

Lemma latin1_base_lower (c : N) :
  latin1_base (Latin1.lower_cp c) = map Latin1.lower_cp (latin1_base c).
Proof.
  destruct (N.lt_ge_cases c 880) as [Hc|Hc].
  - apply str_eqb_eq.
    apply (below_880
             (fun c => str_eqb (latin1_base (Latin1.lower_cp c))
                         (map Latin1.lower_cp (latin1_base c))));
      [vm_compute; reflexivity|assumption].
  - assert (E : Latin1.lower_cp c = c).
    { unfold Latin1.lower_cp.
      replace (c <=? 90) with false by (symmetry; apply N.leb_gt; lia).
      replace (c <=? 222) with false by (symmetry; apply N.leb_gt; lia).
      now rewrite !andb_false_r. }
    rewrite E, latin1_base_high by assumption. cbn [map]. now rewrite E.
Qed.

Lemma latin1_base_space (c : N) : is_space c = true -> latin1_base c = [c].
Proof.
  intros Hs. destruct (N.lt_ge_cases c 880) as [Hc|Hc].
  - apply str_eqb_eq. revert Hs.
    assert (H := below_880
                   (fun c => negb (is_space c) || str_eqb (latin1_base c) [c])
                   ltac:(vm_compute; reflexivity) c Hc).
    cbv beta in H. intros Hs. rewrite Hs in H. exact H.
  - now apply latin1_base_high.
Qed.

Lemma ccc_pos_Mn (c : N) : 0 < Latin1.ccc c -> Latin1.is_Mn c = true.
Proof.
  unfold Latin1.ccc, Latin1.is_Mn.
  destruct (N.ltb_spec c 768); cbn [orb]; [lia|].
  destruct (N.ltb_spec 879 c); [lia|]. intros _.
  apply andb_true_iff. split; apply N.leb_le; lia.
Qed.

(** Canonical ordering moves combining marks only. *)
Lemma place_filter (c : N) (out : str) :
  filter (fun ch => negb (Latin1.is_Mn ch)) (rev (Latin1.place c out))
  = filter (fun ch => negb (Latin1.is_Mn ch)) (rev out ++ [c]).
Proof.
  induction out as [|p out IH]; [reflexivity|]. cbn [Latin1.place].
  destruct ((0 <? Latin1.ccc c) && (Latin1.ccc c <? Latin1.ccc p)) eqn:E;
    [|reflexivity].
  apply andb_true_iff in E as [E _]. apply N.ltb_lt, ccc_pos_Mn in E.
  cbn [rev]. rewrite !filter_app, IH, !filter_app. cbn [filter]. rewrite E.
  cbn [negb]. now rewrite !app_nil_r.
Qed.

Lemma fold_place_filter (l acc : str) :
  filter (fun ch => negb (Latin1.is_Mn ch))
    (rev (fold_left (fun out c => Latin1.place c out) l acc))
  = filter (fun ch => negb (Latin1.is_Mn ch)) (rev acc ++ l).
Proof.
  revert acc; induction l as [|c l IH]; intros acc; cbn [fold_left].
  - now rewrite app_nil_r.
  - rewrite IH, !filter_app, place_filter, filter_app.
    change (c :: l) with ([c] ++ l). now rewrite filter_app, app_assoc.
Qed.

(** Dropping the marks of a text drops them character by character. *)
Lemma strip_marks_latin1 (s : str) :
  strip_marks (U := latin1) s = flat_map latin1_base s.
Proof.
  unfold strip_marks. cbn [normalize_NFD category_Mn latin1]. unfold Latin1.nfd.
  rewrite fold_place_filter. cbn [rev app].
  induction s as [|c s IH]; [reflexivity|].
  cbn [flat_map]. now rewrite filter_app, IH.
Qed.

Lemma flat_map_spaces (w : str) :
  forallb is_space w = true -> flat_map latin1_base w = w.
Proof.
  induction w as [|c w IH]; [reflexivity|]. cbn [forallb flat_map].
  intros H. apply andb_true_iff in H as [Hc H].
  now rewrite latin1_base_space, IH.
Qed.

Lemma rstrip_spaces (s w : str) :
  forallb is_space w = true -> rstrip (s ++ w) = rstrip s.
Proof.
  intros H. unfold rstrip. rewrite rev_app_distr, lstrip_spaces; [reflexivity|].
  rewrite forallb_forall in *. intros x Hx. apply H. now apply in_rev.
Qed.

Lemma lstrip_app_head (s w : str) :
  lstrip s <> [] -> lstrip (s ++ w) = lstrip s ++ w.
Proof.
  induction s as [|x s IH]; [intros H; now elim H|]. cbn [app lstrip].
  destruct (is_space x); auto.
Qed.

Lemma lstrip_all_spaces (s : str) :
  lstrip s = [] -> forallb is_space s = true.
Proof.
  induction s as [|x s IH]; [reflexivity|]. cbn [lstrip forallb].
  destruct (is_space x); [exact IH|discriminate].
Qed.

(** Blanks around a text do not change the trimmed text. *)
Lemma strip_spaces (w1 s w2 : str) :
  forallb is_space w1 = true -> forallb is_space w2 = true ->
  strip (w1 ++ s ++ w2) = strip s.
Proof.
  intros H1 H2. unfold strip. rewrite lstrip_spaces by assumption.
  destruct (lstrip s) as [|x t] eqn:E.
  - apply lstrip_all_spaces in E.
    assert (F : forallb is_space (s ++ w2) = true)
      by (rewrite forallb_app, E, H2; reflexivity).
    destruct (lstrip_split (s ++ w2)) as (w & Hw & Es).
    destruct (lstrip_head (s ++ w2)) as [->|(y & u & Ey & Hy)]; [reflexivity|].
    exfalso. rewrite Ey in Es. rewrite Es, forallb_app in F.
    apply andb_true_iff in F as [_ F]. cbn [forallb] in F. rewrite Hy in F.
    discriminate.
  - rewrite lstrip_app_head by (rewrite E; discriminate).
    rewrite E. now apply rstrip_spaces.
Qed.

Lemma strip_split (s : str) :
  exists w1 w2,
    forallb is_space w1 = true /\ forallb is_space w2 = true
    /\ s = w1 ++ strip s ++ w2.
Proof.
  destruct (lstrip_split s) as (w1 & H1 & E1).
  destruct (rstrip_split (lstrip s)) as (_ & w2 & H2 & E2).
  exists w1, w2. repeat split; auto. unfold strip. now rewrite <- E2.
Qed.

End Latin1Laws.

#[export] Instance latin1_laws : AccentLaws latin1.
Proof.
  split.
  - intros x y H. rewrite !strip_marks_latin1 in *.
    cbn [str_lower latin1]. unfold Latin1.lower.
    assert (E : forall s, flat_map latin1_base (map Latin1.lower_cp s)
                          = map Latin1.lower_cp (flat_map latin1_base s)).
    { induction s as [|c s IH]; [reflexivity|].
      cbn [map flat_map]. now rewrite map_app, IH, latin1_base_lower. }
    now rewrite !E, H.
  - intros s. rewrite !strip_marks_latin1.
    destruct (strip_split s) as (w1 & w2 & H1 & H2 & E).
    rewrite E at 2.
    rewrite !flat_map_app, (flat_map_spaces w1 H1), (flat_map_spaces w2 H2).
    symmetry. now apply strip_spaces.
Qed.

(** "días" and "dias". *)
Lemma accent_equivalence_dias :
  detect_intent (U := latin1) (py "días")
  = detect_intent (U := latin1) (py "dias").
Proof.
  apply (accent_equivalence (U := latin1) (L := latin1_laws)).
  vm_compute. reflexivity.
Defined.

(** * Instances of the theorems, and the inputs on which the module fails *)

Lemma now0_valid : valid now0.
Proof. unfold valid, now0, MINYEAR, MAXYEAR. cbn. lia. Defined.

(** "pm" and "cm" in one message: the type is "CM". *)
Lemma type_cm_overwrites_pm_witness :
  extract_slots (U := latin1) now0 (py "ordenes pm y cm") [] []
  = Ok (mkSlots None None (Some (py "CM")) None None None None)
  /\ type (mkSlots None None (Some (py "CM")) None None None None)
     = Some (py "CM").
Proof.
  assert (H : extract_slots (U := latin1) now0 (py "ordenes pm y cm") [] []
              = Ok (mkSlots None None (Some (py "CM")) None None None None))
    by (vm_compute; reflexivity).
  split; [exact H|].
  refine (proj1 (type_cm_overwrites_pm (U := latin1) now0 _ _ _ _ H) _ _);
    apply found_word_re; vm_compute; reflexivity.
Defined.

(** "abiert" and "cerrad" and "progreso" in one message: the status is
    "Abierta". *)
Lemma status_first_match_wins_witness :
  extract_slots (U := latin1) now0 (py "cerradas, abiertas y en progreso") [] []
  = Ok (mkSlots None None None (Some (py "Abierta")) None None None)
  /\ status (mkSlots None None None (Some (py "Abierta")) None None None)
     = Some (py "Abierta").
Proof.
  assert (H : extract_slots (U := latin1) now0
                (py "cerradas, abiertas y en progreso") [] []
              = Ok (mkSlots None None None (Some (py "Abierta")) None None None))
    by (vm_compute; reflexivity).
  split; [exact H|].
  refine (proj1 (status_first_match_wins (U := latin1) now0 _ _ _ _ H) _).
  apply str_in_spec. vm_compute. reflexivity.
Defined.

(** The last 30 days before 15 March 2025. *)
Lemma date_range_ordered_witness :
  extract_slots (U := latin1) now0 (py "últimos 30 días") [] []
  = Ok (mkSlots None None None None
          (Some (py "2025-02-13")) (Some (py "2025-03-15")) None)
  /\ (str_leb (py "2025-02-13") (py "2025-03-15") = true
      \/ explicit_range (U := latin1) (_norm (py "últimos 30 días"))
         = Some (py "2025-02-13", py "2025-03-15")).
Proof.
  assert (H : extract_slots (U := latin1) now0 (py "últimos 30 días") [] []
              = Ok (mkSlots None None None None
                      (Some (py "2025-02-13")) (Some (py "2025-03-15")) None))
    by (vm_compute; reflexivity).
  split; [exact H|].
  exact (date_range_ordered (U := latin1) now0 now0_valid _ _ _ _ _ _ H
           eq_refl eq_refl).
Defined.

(** February of a leap year. *)
Lemma named_month_resolution_witness :
  _apply_date_pattern (U := latin1) now0 (py "febrero 2024")
  = Ok (Some (py "2024-02-01"), Some (py "2024-02-29")).
Proof.
  refine (proj2 (proj2 (proj1 named_month_resolution latin1 now0
                          (py "febrero") 2%Z 2024%Z _ _ _))).
  - unfold MONTHS. cbn [In]. tauto.
  - lia.
  - discriminate.
Defined.

(** C1 fails on the code. The named-month rule builds [date(y, m, 1)] from
    the year of the text without a check: for the year 0000, and for
    December of 9999 (where [date(y + 1, 1, 1)] is built), the constructor
    raises [ValueError], and [extract_slots] with it; "últimos N días"
    raises [OverflowError] when the day lies before the year 1. *)
Theorem extract_slots_raises :
  (forall (U : Unicode) (now : date),
      _apply_date_pattern now (py "enero 0000") = Raise ValueError)
  /\ (forall now : date,
        extract_slots (U := latin1) now (py "enero 0000") [] []
        = Raise ValueError)
  /\ (forall now : date,
        extract_slots (U := latin1) now (py "diciembre 9999") [] []
        = Raise ValueError)
  /\ extract_slots (U := latin1) now0 (py "ultimos 999999 dias") [] []
     = Raise OverflowError.
Proof. repeat split; intros; vm_compute; reflexivity. Qed.

(** C4 fails on the code. [_norm] trims before it drops the combining
    marks: a blank behind a leading mark survives the first pass and is
    trimmed by the second. *)
Theorem norm_not_idempotent :
  let x := [769; 32; 97]%N in
  _norm (U := latin1) x = py " a"
  /\ _norm (U := latin1) (_norm (U := latin1) x) = py "a".
Proof. split; vm_compute; reflexivity. Qed.

(** * The matcher and the texts a pattern matches *)

Section MatcherSound.
Context {U : Unicode}.

Lemma ends_in_word_one (wb : bool) (x : cp) : ends_in_word wb [x] = is_word x.
Proof. reflexivity. Qed.

Lemma firstn_consumed (w rest : str) :
  firstn (length (w ++ rest) - length rest) (w ++ rest) = w.
Proof.
  rewrite length_app, Nat.add_sub.
  rewrite firstn_app, Nat.sub_diag, firstn_all. cbn. apply app_nil_r.
Qed.

(** A match found by [mt] is one of the matches of the pattern, and the rest
    of the pattern went on behind it. *)
Lemma mt_sound (r : regex) :
  forall (R : Type) (wb : bool) (s : str) (g : caps)
         (k : bool -> str -> caps -> option R) (x : R),
    mt r wb s g k = Some x ->
    exists w rest g',
      s = w ++ rest /\ Matches r wb w rest g g'
      /\ k (ends_in_word wb w) rest g' = Some x.
Proof.
  induction r as [| c | | cs | | | | r1 IH1 r2 IH2 | r1 IH1 r2 IH2 | r1 IH1
                 | i r1 IH1]; intros R wb s g k x H.
  - exists [], s, g. repeat split; [constructor | exact H].
  - cbn [mt] in H. destruct s as [|y s']; [discriminate|].
    destruct (N.eqb_spec y c) as [->|]; [|discriminate].
    exists [c], s', g. repeat split; [constructor | exact H].
  - cbn [mt] in H. destruct s as [|y s']; [discriminate|].
    destruct (N.eqb_spec y 10) as [|E]; [discriminate|].
    exists [y], s', g. repeat split; [now constructor | exact H].
  - cbn [mt] in H. destruct s as [|y s']; [discriminate|].
    destruct (existsb (N.eqb y) cs) eqn:E; [|discriminate].
    exists [y], s', g. repeat split; [now constructor | exact H].
  - cbn [mt] in H. destruct s as [|y s']; [discriminate|].
    destruct (is_space y) eqn:E; [|discriminate].
    exists [y], s', g. repeat split; [now constructor | exact H].
  - cbn [mt] in H. destruct s as [|y s']; [discriminate|].
    destruct (is_digit y) eqn:E; [|discriminate].
    exists [y], s', g. repeat split; [now constructor | exact H].
  - cbn [mt] in H. destruct (xorb wb (next_is_word s)) eqn:E; [|discriminate].
    exists [], s, g. repeat split; [now constructor | exact H].
  - cbn [mt] in H. apply IH1 in H. destruct H as (w1 & rest1 & g1 & -> & M1 & H).
    apply IH2 in H. destruct H as (w2 & rest & g2 & -> & M2 & H).
    exists (w1 ++ w2), rest, g2. rewrite app_assoc. repeat split.
    + econstructor; eassumption.
    + now rewrite ends_in_word_app.
  - cbn [mt] in H. destruct (mt r1 wb s g k) eqn:E.
    + injection H as ->. apply IH1 in E.
      destruct E as (w & rest & g' & -> & M & E).
      exists w, rest, g'. repeat split; [now apply M_Alt_l | exact E].
    + apply IH2 in H. destruct H as (w & rest & g' & -> & M & H).
      exists w, rest, g'. repeat split; [now apply M_Alt_r | exact H].
  - rewrite mt_Star in H. remember (length s) as n eqn:En. clear En.
    revert wb s g H. induction n as [|n IHn]; intros wb s g H.
    + exists [], s, g. repeat split; [constructor | exact H].
    + cbn [star_loop] in H.
      match type of H with
      | match ?m with _ => _ end = _ => destruct m eqn:E
      end.
      * injection H as ->. apply IH1 in E.
        destruct E as (w1 & rest1 & g1 & -> & M1 & E).
        destruct (Nat.ltb_spec (length rest1) (length (w1 ++ rest1))) as [Hl|];
          [|discriminate].
        apply IHn in E. destruct E as (w2 & rest & g2 & -> & M2 & E).
        exists (w1 ++ w2), rest, g2. rewrite app_assoc. repeat split.
        -- apply M_Star_cons with (g1 := g1); try assumption.
           intros ->. cbn in Hl. lia.
        -- now rewrite ends_in_word_app.
      * exists [], s, g. repeat split; [constructor | exact H].
  - cbn [mt] in H. apply IH1 in H. destruct H as (w & rest & g' & -> & M & H).
    rewrite firstn_consumed in H.
    exists w, rest, ((i, w) :: g'). repeat split; [now constructor | exact H].
Qed.

(** The continuation of [mt] is called on what is left of the text only. *)
Lemma mt_ext (r : regex) :
  forall (R : Type) (wb : bool) (s : str) (g : caps)
         (k1 k2 : bool -> str -> caps -> option R),
    (forall wb' s' g', (length s' <= length s)%nat -> k1 wb' s' g' = k2 wb' s' g') ->
    mt r wb s g k1 = mt r wb s g k2.
Proof.
  induction r as [| c | | cs | | | | r1 IH1 r2 IH2 | r1 IH1 r2 IH2 | r1 IH1
                 | i r1 IH1]; intros R wb s g k1 k2 K; cbn [mt].
  - now apply K.
  - destruct s as [|y s']; [reflexivity|].
    destruct (y =? c)%N; [apply K; cbn; lia | reflexivity].
  - destruct s as [|y s']; [reflexivity|].
    destruct (y =? 10)%N; [reflexivity | apply K; cbn; lia].
  - destruct s as [|y s']; [reflexivity|].
    destruct (existsb (N.eqb y) cs); [apply K; cbn; lia | reflexivity].
  - destruct s as [|y s']; [reflexivity|].
    destruct (is_space y); [apply K; cbn; lia | reflexivity].
  - destruct s as [|y s']; [reflexivity|].
    destruct (is_digit y); [apply K; cbn; lia | reflexivity].
  - destruct (xorb wb (next_is_word s)); [now apply K | reflexivity].
  - apply IH1. intros wb' s' g' Hl. apply IH2. intros wb2 s2 g2 Hl2.
    apply K. lia.
  - rewrite (IH1 R wb s g k1 k2 K), (IH2 R wb s g k1 k2 K). reflexivity.
  - change (star_loop r1 k1 (length s) wb s g = star_loop r1 k2 (length s) wb s g).
    generalize (length s) at 1 2 as n. intros n.
    revert wb s g K. induction n as [|n IHn]; intros wb s g K; cbn [star_loop].
    + now apply K.
    + rewrite (K wb s g (Nat.le_refl _)).
      erewrite IH1; [reflexivity|].
      intros wb' s' g' Hl. cbv beta.
      destruct (Nat.ltb_spec (length s') (length s)); [|reflexivity].
      apply IHn. intros wb2 s2 g2 Hl2. apply K. lia.
  - apply IH1. intros wb' s' g' Hl. cbv beta. now apply K.
Qed.

(** The iteration of a starred pattern needs no more rounds than the text
    has characters. *)
Lemma star_loop_fuel {R : Type} (r1 : regex)
    (k : bool -> str -> caps -> option R) (n m : nat) :
  forall wb s g,
    (length s <= n)%nat -> (length s <= m)%nat ->
    star_loop r1 k n wb s g = star_loop r1 k m wb s g.
Proof.
  revert m. induction n as [|n IHn]; intros m wb s g Hn Hm.
  - destruct s; [|cbn in Hn; lia]. destruct m as [|m]; [reflexivity|].
    cbn [star_loop]. rewrite mt_at_end; [reflexivity|]. reflexivity.
  - destruct m as [|m].
    + destruct s; [|cbn in Hm; lia].
      cbn [star_loop]. rewrite mt_at_end; [reflexivity|]. reflexivity.
    + cbn [star_loop]. erewrite mt_ext; [reflexivity|].
      intros wb' s' g' Hl. cbv beta.
      destruct (Nat.ltb_spec (length s') (length s)); [|reflexivity].
      apply IHn; lia.
Qed.

(** Where the pattern has a match behind which the rest of the pattern can
    go on, [mt] finds one. *)
Lemma mt_complete (r : regex) :
  forall (wb : bool) (w rest : str) (g g' : caps),
    Matches r wb w rest g g' ->
    forall (R : Type) (k : bool -> str -> caps -> option R),
      k (ends_in_word wb w) rest g' <> None ->
      mt r wb (w ++ rest) g k <> None.
Proof.
  induction r as [| c | | cs | | | | r1 IH1 r2 IH2 | r1 IH1 r2 IH2 | r1 IH1
                 | i r1 IH1]; intros wb w rest g g' M R k K.
  - inversion M; subst. exact K.
  - inversion M; subst. cbn [mt app]. now rewrite N.eqb_refl.
  - inversion M; subst. cbn [mt app].
    destruct (N.eqb_spec x 10); [contradiction | exact K].
  - inversion M; subst. cbn [mt app].
    match goal with H : existsb _ _ = true |- _ => rewrite H end. exact K.
  - inversion M; subst. cbn [mt app].
    match goal with H : is_space _ = true |- _ => rewrite H end. exact K.
  - inversion M; subst. cbn [mt app].
    match goal with H : is_digit _ = true |- _ => rewrite H end. exact K.
  - inversion M; subst. cbn [mt app].
    match goal with H : xorb _ _ = true |- _ => rewrite H end. exact K.
  - inversion M; subst. cbn [mt]. rewrite <- app_assoc.
    eapply IH1; [eassumption|]. eapply IH2; [eassumption|].
    now rewrite <- ends_in_word_app.
  - cbn [mt]. destruct (mt r1 wb (w ++ rest) g k) eqn:E; [discriminate|].
    inversion M; subst.
    + exfalso. eapply IH1; eassumption.
    + eapply IH2; eassumption.
  - rewrite mt_Star.
    assert (G : forall n, (length (w ++ rest) <= n)%nat ->
                          star_loop r1 k n wb (w ++ rest) g <> None);
      [|now apply G].
    remember (Star r1) as r eqn:Er.
    induction M; try discriminate; injection Er as ->; intros n Hn.
    + destruct n as [|n]; cbn [star_loop app]; [exact K|].
      match goal with |- match ?m with _ => _ end <> _ => destruct m end;
        [discriminate | exact K].
    + destruct n as [|n].
      { destruct w1; [contradiction | cbn in Hn; lia]. }
      cbn [star_loop].
      match goal with |- match ?m with _ => _ end <> _ => destruct m eqn:E end;
        [discriminate|].
      exfalso. revert E. rewrite <- app_assoc.
      eapply IH1; [eassumption|].
      assert (Hl : (length (w2 ++ rest) < length (w1 ++ w2 ++ rest))%nat).
      { rewrite (length_app w1). destruct w1; [contradiction | cbn; lia]. }
      apply Nat.ltb_lt in Hl. rewrite Hl.
      apply IHM2; [reflexivity | |].
      * now rewrite <- ends_in_word_app.
      * apply Nat.ltb_lt in Hl. rewrite <- app_assoc in Hn. lia.
  - inversion M; subst. cbn [mt]. eapply IH1; [eassumption|].
    rewrite firstn_consumed. exact K.
Qed.

(** [re.search] finds a match exactly where the pattern has one. *)
Lemma found_Matches (r : regex) (t : str) :
  found r t = true <->
  exists pre w post g,
    t = pre ++ w ++ post /\ Matches r (ends_in_word false pre) w post [] g.
Proof.
  rewrite found_spec. split.
  - intros (pre & post & -> & H).
    unfold match_at in H.
    destruct (mt r (ends_in_word false pre) post [] (fun _ _ g => Some g))
      as [x|] eqn:E; [|contradiction].
    apply mt_sound in E. destruct E as (w & rest & g' & -> & M & _).
    now exists pre, w, rest, g'.
  - intros (pre & w & post & g & -> & M).
    exists pre, (w ++ post). split; [reflexivity|].
    unfold match_at. eapply mt_complete; [eassumption | discriminate].
Qed.

End MatcherSound.

(** * The relative date rules of [_apply_date_pattern] *)

Section MonthNames.
Context {U : Unicode}.
Variable now : date.

(** The optional year of the month pattern does not decide whether the
    pattern is found. *)
Lemma found_month_re (name t : str) :
  found (month_re name) t = found (word_re name) t.
Proof.
  apply eq_true_iff_eq. rewrite !found_spec.
  assert (E : forall wb s,
             match_at (month_re name) wb s <> None
             <-> match_at (word_re name) wb s <> None).
  { intros wb s. unfold match_at, month_re, word_re. cbn [mt].
    destruct (xorb wb (next_is_word s)); [|tauto].
    rewrite !mt_Lit. destruct (prefix name s); [|tauto].
    cbn [mt]. destruct (xorb _ _); [|tauto].
    unfold Opt. cbn [mt].
    match goal with |- match ?m with _ => _ end <> _ <-> _ => destruct m end;
      split; discriminate. }
  split; intros (pre & post & -> & H); exists pre, post;
    (split; [reflexivity | now apply E]).
Qed.

Lemma month_loop_none (months : list (str * Z)) (t : str) :
  (forall name m, In (name, m) months -> ~ occurs_as_word name t) ->
  month_loop now months t = Ok None.
Proof.
  induction months as [|[name m] months IH]; intros H; cbn [month_loop];
    [reflexivity|].
  assert (F : found (month_re name) t = false).
  { rewrite found_month_re. apply found_word_re_false. apply (H name m).
    now left. }
  unfold found in F. destruct (search (month_re name) t); [discriminate|].
  apply IH. intros n' m' Hin. apply (H n' m'). now right.
Qed.

Lemma month_range_none (t : str) :
  no_month_name t -> _month_range_from_name now t = Ok None.
Proof. apply month_loop_none. Qed.

End MonthNames.

Section RelativeRanges.
Context {U : Unicode}.
Variable now : date.
Hypothesis now_valid : valid now.
Local Open Scope Z_scope.

Lemma first_of_month : replace_day now 1 = Ok (mkdate (year now) (month now) 1).
Proof.
  apply date_new_valid. destruct now_valid as (Hy & Hm & Hd).
  repeat split; cbn [year month day]; lia.
Qed.

(** "este mes": from the first day of the month of the clock to the day of
    the clock, whatever else the text says that is no month name. *)
Lemma este_mes_range (t : str) :
  no_month_name t -> occurs_as_word (py "este mes") t ->
  _apply_date_pattern now t
  = Ok (Some (isoformat (mkdate (year now) (month now) 1)),
        Some (isoformat now)).
Proof.
  intros Hm He. unfold _apply_date_pattern.
  rewrite month_range_none by assumption. cbn [bind].
  apply found_word_re in He. rewrite He.
  rewrite first_of_month. reflexivity.
Qed.

Lemma days_in_month_pos (y m : Z) : 1 <= m <= 12 -> 28 <= _days_in_month y m.
Proof.
  intros Hm. unfold _days_in_month.
  months m; destruct (_is_leap y); tables; lia.
Qed.

(** "mes pasado": the whole month before the month of the clock.  The
    month before January of the year 1 does not exist. *)
Theorem mes_pasado_range (t : str) :
  no_month_name t -> ~ occurs_as_word (py "este mes") t ->
  occurs_as_word (py "mes pasado") t ->
  let '(y, m) := previous_month now in
  _apply_date_pattern now t
  = if (year now =? 1) && (month now =? 1) then Raise OverflowError
    else Ok (Some (isoformat (mkdate y m 1)),
             Some (isoformat (mkdate y m (_days_in_month y m)))).
Proof.
  intros Hm He Hp. unfold previous_month, _apply_date_pattern.
  rewrite month_range_none by assumption. cbn [bind].
  apply found_word_re_false in He. rewrite He.
  apply found_word_re in Hp. rewrite Hp.
  rewrite first_of_month. cbn [bind].
  destruct now_valid as (Hy & Hmo & Hd). unfold MINYEAR, MAXYEAR in Hy.
  destruct (Z.eqb_spec (month now) 1) as [E1|E1].
  - rewrite E1. destruct (Z.eqb_spec (year now) 1) as [Ey|Ey]; cbn [andb].
    + rewrite Ey. reflexivity.
    + replace (mkdate (year now) 1 1) with (mkdate (year now - 1 + 1) 1 1)
        by (f_equal; lia).
      rewrite january_minus_one_day by lia. cbn [bind].
      unfold replace_day. cbn [year month day].
      rewrite date_new_valid; [reflexivity|].
      repeat split; cbn [year month day]; unfold MINYEAR, MAXYEAR; try lia.
      unfold _days_in_month. tables. lia.
  - rewrite andb_false_r.
    replace (mkdate (year now) (month now) 1)
      with (mkdate (year now) (month now - 1 + 1) 1) by (f_equal; lia).
    rewrite first_minus_one_day by lia. cbn [bind].
    unfold replace_day. cbn [year month day].
    rewrite date_new_valid; [reflexivity|].
    assert (28 <= _days_in_month (year now) (month now - 1))
      by (apply days_in_month_pos; lia).
    repeat split; cbn [year month day]; unfold MINYEAR, MAXYEAR; lia.
Qed.

Lemma weekday_range (d : date) : 0 <= weekday d <= 6.
Proof. unfold weekday. divmod. Qed.

(** The Monday of the week of the clock. *)
Lemma monday_of_week :
  exists start,
    sub_days now (weekday now) = Ok start
    /\ valid start /\ weekday start = 0
    /\ toordinal start = toordinal now - weekday now.
Proof.
  pose proof (toordinal_pos now now_valid) as Ho.
  pose proof (weekday_range now) as Hw.
  assert (Hs : 1 <= toordinal now - weekday now <= _MAXORDINAL).
  { unfold weekday in *. divmod. }
  unfold sub_days.
  destruct (Z.ltb_spec 999999999 (Z.abs (weekday now))) as [|_]; [lia|].
  destruct (Z.ltb_spec 0 (toordinal now - weekday now)) as [_|]; [|lia].
  destruct (Z.leb_spec (toordinal now - weekday now) _MAXORDINAL) as [_|]; [|lia].
  cbn [andb]. eexists. split; [reflexivity|].
  destruct (fromordinal_valid _ Hs) as (Hv & Ht).
  repeat split; try apply Hv; [|exact Ht].
  unfold weekday at 1. rewrite Ht. unfold weekday. divmod.
Qed.

(** "esta semana": from the Monday of the week of the clock to the day of
    the clock. *)
Theorem esta_semana_range (t : str) :
  no_month_name t -> ~ occurs_as_word (py "este mes") t ->
  ~ occurs_as_word (py "mes pasado") t ->
  occurs_as_word (py "esta semana") t ->
  exists start,
    _apply_date_pattern now t
    = Ok (Some (isoformat start), Some (isoformat now))
    /\ valid start /\ weekday start = 0
    /\ toordinal now - 6 <= toordinal start <= toordinal now.
Proof.
  intros Hm He Hp Hs. unfold _apply_date_pattern.
  rewrite month_range_none by assumption. cbn [bind].
  apply found_word_re_false in He, Hp. rewrite He, Hp.
  apply found_word_re in Hs. rewrite Hs.
  destruct monday_of_week as (start & E & Hv & Hw & Ho).
  rewrite E. cbn [bind]. exists start. repeat split; try apply Hv; auto.
  all: pose proof (weekday_range now); lia.
Qed.

(** "semana pasada": the seven days from Monday to Sunday before the week
    of the clock.  There is no such week before the first week of the
    year 1. *)
Theorem semana_pasada_range (t : str) :
  no_month_name t -> ~ occurs_as_word (py "este mes") t ->
  ~ occurs_as_word (py "mes pasado") t ->
  ~ occurs_as_word (py "esta semana") t ->
  occurs_as_word (py "semana pasada") t ->
  if toordinal now <=? 7 then _apply_date_pattern now t = Raise OverflowError
  else
    exists monday sunday,
      _apply_date_pattern now t
      = Ok (Some (isoformat monday), Some (isoformat sunday))
      /\ valid monday /\ valid sunday
      /\ weekday monday = 0 /\ weekday sunday = 6
      /\ toordinal sunday = toordinal monday + 6
      /\ toordinal sunday < toordinal now <= toordinal sunday + 7.
Proof.
  intros Hm He Hp Hs Hl. unfold _apply_date_pattern.
  rewrite month_range_none by assumption. cbn [bind].
  apply found_word_re_false in He, Hp, Hs. rewrite He, Hp, Hs.
  apply found_word_re in Hl. rewrite Hl.
  destruct monday_of_week as (start & E & Hv & Hw & Ho).
  rewrite E. cbn [bind].
  pose proof (toordinal_pos now now_valid) as Hn.
  pose proof (weekday_range now) as Hr.
  pose proof (toordinal_pos start Hv) as Hst.
  destruct (Z.leb_spec (toordinal now) 7) as [H7|H7].
  - assert (toordinal start = 1) by (unfold weekday in *; divmod).
    unfold sub_days. cbn [Z.abs Z.ltb Z.compare Pos.compare Pos.compare_cont].
    replace (toordinal start - 7) with (-6) by lia. reflexivity.
  - assert (8 <= toordinal start) by (unfold weekday in *; divmod).
    assert (H1 : 1 <= toordinal start - 7 <= _MAXORDINAL) by lia.
    assert (H2 : 1 <= toordinal start - 1 <= _MAXORDINAL) by lia.
    unfold sub_days. cbn [Z.abs Z.ltb Z.compare Pos.compare Pos.compare_cont].
    destruct (Z.ltb_spec 0 (toordinal start - 7)) as [_|]; [|lia].
    destruct (Z.leb_spec (toordinal start - 7) _MAXORDINAL) as [_|]; [|lia].
    destruct (Z.ltb_spec 0 (toordinal start - 1)) as [_|]; [|lia].
    destruct (Z.leb_spec (toordinal start - 1) _MAXORDINAL) as [_|]; [|lia].
    cbn [andb bind].
    destruct (fromordinal_valid _ H1) as (Hv1 & Ht1).
    destruct (fromordinal_valid _ H2) as (Hv2 & Ht2).
    exists (fromordinal (toordinal start - 7)), (fromordinal (toordinal start - 1)).
    split; [reflexivity|]. split; [exact Hv1|]. split; [exact Hv2|].
    rewrite Ht1, Ht2. unfold weekday in *. rewrite Ht1, Ht2.
    repeat split; try lia; divmod.
Qed.

End RelativeRanges.

(** * What the date patterns capture *)

Section Captures.
Context {U : Unicode}.

Lemma search_from_Matches (r : regex) (s : str) :
  forall (wb : bool) (g : caps),
    search_from r wb s = Some g ->
    exists pre w post,
      s = pre ++ w ++ post /\ Matches r (ends_in_word wb pre) w post [] g.
Proof.
  induction s as [|x s IH]; intros wb g; cbn [search_from].
  - destruct (match_at r wb []) as [g0|] eqn:E; [|discriminate].
    intros [= ->]. apply mt_sound in E.
    destruct E as (w & rest & g' & E & M & [= ->]).
    exists [], w, rest. now split.
  - destruct (match_at r wb (x :: s)) as [g0|] eqn:E.
    + intros [= ->]. apply mt_sound in E.
      destruct E as (w & rest & g' & E & M & [= ->]).
      exists [], w, rest. now split.
    + intros H. apply IH in H. destruct H as (pre & w & post & -> & M).
      exists (x :: pre), w, post. split; [reflexivity|].
      now rewrite ends_in_word_cons.
Qed.

Lemma search_Matches (r : regex) (t : str) (g : caps) :
  search r t = Some g ->
  exists pre w post,
    t = pre ++ w ++ post /\ Matches r (ends_in_word false pre) w post [] g.
Proof. apply search_from_Matches. Qed.

Lemma Matches_groupless (r : regex) (wb : bool) (w rest : str) (g g' : caps) :
  Matches r wb w rest g g' -> groupless r = true -> g' = g.
Proof.
  induction 1; cbn [groupless]; intros G;
    try apply andb_prop in G as (G1 & G2); try reflexivity; try discriminate;
    auto.
  - rewrite IHMatches2, IHMatches1; auto.
  - rewrite IHMatches2, IHMatches1; auto.
Qed.

Lemma Matches_Cat (r1 r2 : regex) (wb : bool) (w rest : str) (g g2 : caps) :
  Matches (Cat r1 r2) wb w rest g g2 ->
  exists w1 w2 g1,
    w = w1 ++ w2 /\ Matches r1 wb w1 (w2 ++ rest) g g1
    /\ Matches r2 (ends_in_word wb w1) w2 rest g1 g2.
Proof. intros M. inversion M; subst. eauto 10. Qed.

Lemma Matches_Group (i : nat) (r : regex) (wb : bool) (w rest : str)
    (g g2 : caps) :
  Matches (Group i r) wb w rest g g2 ->
  exists g1, g2 = (i, w) :: g1 /\ Matches r wb w rest g g1.
Proof. intros M. inversion M; subst. eauto. Qed.

Lemma Matches_Alt (r1 r2 : regex) (wb : bool) (w rest : str) (g g2 : caps) :
  Matches (Alt r1 r2) wb w rest g g2 ->
  Matches r1 wb w rest g g2 \/ Matches r2 wb w rest g g2.
Proof. intros M. inversion M; subst; tauto. Qed.

(** Takes a match of a sequence of patterns apart. *)
Ltac split_match :=
  repeat match goal with
  | M : Matches (Cat _ _) _ _ _ _ _ |- _ =>
      apply Matches_Cat in M;
      let w1 := fresh "w" in let w2 := fresh "w" in let g1 := fresh "g" in
      let M1 := fresh "M" in let M2 := fresh "M" in
      destruct M as (w1 & w2 & g1 & -> & M1 & M2)
  | M : Matches (Group _ _) _ _ _ _ _ |- _ =>
      apply Matches_Group in M;
      let g1 := fresh "g" in let M1 := fresh "M" in
      destruct M as (g1 & -> & M1)
  end.

Lemma groupless_Lit (w : str) : groupless (Lit w) = true.
Proof. induction w; cbn; auto. Qed.

Lemma Matches_Lit (w0 : str) :
  forall (wb : bool) (w rest : str) (g g' : caps),
    Matches (Lit w0) wb w rest g g' -> w = w0.
Proof.
  induction w0 as [|c w0 IH]; intros wb w rest g g' M; cbn [Lit] in M.
  - now inversion M.
  - inversion M as [| | | | | | | r1 r2 wb0 w1 w2 rest0 g0 g1 g2 M1 M2 | | | | |];
      subst.
    inversion M1; subst. apply IH in M2. now subst.
Qed.



Lemma Matches_Rep_Digit (n : nat) :
  forall (wb : bool) (w rest : str) (g g' : caps),
    Matches (Rep n Digit) wb w rest g g' ->
    length w = n /\ forallb is_digit w = true.
Proof.
  induction n as [|n IH]; intros wb w rest g g' M; cbn [Rep] in M.
  - inversion M; subst. now split.
  - inversion M as [| | | | | | | r1 r2 wb0 w1 w2 rest0 g0 g1 g2 M1 M2 | | | | |];
      subst.
    inversion M1; subst. apply IH in M2 as (<- & F).
    split; [reflexivity|]. cbn [app forallb].
    match goal with D : is_digit _ = true |- _ => now rewrite D end.
Qed.

Lemma groupless_Rep (n : nat) (r : regex) :
  groupless r = true -> groupless (Rep n r) = true.
Proof. intros G. induction n; cbn; [reflexivity|]. now rewrite G. Qed.

(** A text matched by [\d{4}-\d{2}-\d{2}]. *)
Lemma Matches_ISO_DATE (wb : bool) (w rest : str) (g g' : caps) :
  Matches ISO_DATE wb w rest g g' -> iso_shape w /\ g' = g.
Proof.
  intros M. split.
  - unfold ISO_DATE in M.
    split_match.
    repeat match goal with
    | M : Matches (L _) _ _ _ _ _ |- _ => apply Matches_Lit in M; subst
    | M : Matches (Rep _ Digit) _ _ _ _ _ |- _ =>
        apply Matches_Rep_Digit in M; destruct M
    end.
    match goal with
    | |- iso_shape (?y ++ _ ++ ?m ++ _ ++ ?d) => exists y, m, d
    end.
    repeat split; try assumption. rewrite !forallb_app.
    repeat match goal with H : forallb _ _ = true |- _ => rewrite H; clear H end.
    reflexivity.
  - eapply Matches_groupless; [eassumption | reflexivity].
Qed.

(** The explicit rule captures its two dates. *)
Lemma search_DESDE_HASTA (t : str) (m : caps) :
  search DESDE_HASTA t = Some m ->
  exists a b,
    group m 1 = Some a /\ group m 2 = Some b /\ iso_shape a /\ iso_shape b.
Proof.
  intros H. apply search_Matches in H.
  destruct H as (pre & w & post & _ & M). unfold DESDE_HASTA in M.
  split_match.
  repeat match goal with
  | M : Matches ISO_DATE _ _ _ _ _ |- _ =>
      apply Matches_ISO_DATE in M; destruct M; subst
  | M : Matches ?r _ _ _ _ _ |- _ =>
      apply Matches_groupless in M; [subst | reflexivity]
  end.
  cbn [group Nat.eqb]. eauto 10.
Qed.


(** [int] reads every text of decimal digits. *)
Lemma int_digits_total (s : str) :
  forallb is_digit s = true ->
  forall acc, exists n, int_digits acc s = Ok n.
Proof.
  induction s as [|c s IH]; intros F acc; cbn [int_digits]; [eauto|].
  cbn [forallb] in F. apply andb_prop in F as (Fc & Fs).
  unfold is_digit in Fc. destruct (decimal c); [|discriminate]. now apply IH.
Qed.

Lemma int_total (s : str) :
  s <> [] -> forallb is_digit s = true -> exists n, int s = Ok n.
Proof.
  intros Hne F. destruct s; [contradiction|]. now apply int_digits_total.
Qed.

(** The month pattern captures four digits or nothing. *)
Lemma search_month_re (name t : str) (mobj : caps) :
  search (month_re name) t = Some mobj ->
  group mobj 1 = None
  \/ exists ds,
       group mobj 1 = Some ds /\ length ds = 4%nat
       /\ forallb is_digit ds = true /\ occurs ds t.
Proof.
  intros H. apply search_Matches in H.
  destruct H as (pre & w & post & E & M). unfold month_re in M.
  split_match. unfold Opt in *.
  match goal with
  | M : Matches (Alt _ _) _ _ _ _ _ |- _ => apply Matches_Alt in M as [M|M]
  end.
  - split_match.
    match goal with
    | M : Matches (Rep 4 Digit) _ _ _ _ _ |- _ =>
        pose proof (Matches_Rep_Digit _ _ _ _ _ _ M) as (Hl & Hd)
    end.
    repeat match goal with
    | M : Matches ?r _ _ _ _ _ |- _ =>
        apply Matches_groupless in M; [subst | reflexivity || apply groupless_Lit]
    end.
    right. cbn [group Nat.eqb]. eexists. repeat split; try eassumption.
    match goal with
    | |- occurs ?d (?p ++ (?a ++ ?b ++ ?c ++ ?x ++ ?d) ++ ?q) =>
        exists (p ++ a ++ b ++ c ++ x), q
    end.
    now rewrite <- !app_assoc.
  - match goal with
    | M : Matches Eps _ _ _ _ _ |- _ => inversion M; subst; clear M
    end.
    repeat match goal with
    | M : Matches ?r _ _ _ _ _ |- _ =>
        apply Matches_groupless in M; [subst | reflexivity || apply groupless_Lit]
    end.
    now left.
Qed.

End Captures.

(** * The rule of the last days, and the shape of the date slots *)

Section LastDays.
Context {U : Unicode}.
Variable now : date.
Hypothesis now_valid : valid now.
Local Open Scope Z_scope.


End LastDays.

Section DateShape.
Context {U : Unicode}.
Variable now : date.

Lemma iso_shape_isoformat (d : date) : iso_shape (isoformat d).
Proof.
  exists (pad4 (year d)), (pad2 (month d)), (pad2 (day d)).
  repeat split. unfold pad4, pad2. cbn [app forallb].
  unfold is_digit. rewrite !decimal_digit. reflexivity.
Qed.

Lemma month_loop_shape (months : list (str * Z)) (t a b : str) :
  month_loop now months t = Ok (Some (a, b)) -> iso_shape a /\ iso_shape b.
Proof.
  induction months as [|[name m] months IH]; cbn [month_loop]; [discriminate|].
  destruct (search (month_re name) t) as [mobj|]; [|exact IH]. clear IH.
  match goal with
  | |- context [bind ?yr _] => destruct yr as [y|e]; [|discriminate]
  end.
  cbn [bind]. destruct (date_new y m 1) as [start|]; [|discriminate].
  cbn [bind].
  match goal with
  | |- context [bind ?e _] => destruct e as [x|]; [|discriminate]
  end.
  cbn [bind]. intros [= <- <-]. split; apply iso_shape_isoformat.
Qed.

(** The resolver sets both dates or none, each of the shape
    [dddd-dd-dd]. *)
Lemma apply_date_pattern_paired (t : str) (df dt : option str) :
  _apply_date_pattern now t = Ok (df, dt) ->
  (df = None /\ dt = None)
  \/ exists a b, df = Some a /\ dt = Some b /\ iso_shape a /\ iso_shape b.
Proof.
  unfold _apply_date_pattern, _month_range_from_name.
  destruct (month_loop now MONTHS t) as [[[x y]|]|e] eqn:Em; cbn [bind];
    [|clear Em|discriminate].
  { intros [= <- <-]. right. apply month_loop_shape in Em. exists x, y. tauto. }
  assert (G : forall d1 d2 : date,
             (df = None /\ dt = None)
             \/ exists a b, Some (isoformat d1) = Some a
                            /\ Some (isoformat d2) = Some b
                            /\ iso_shape a /\ iso_shape b).
  { intros d1 d2. right. exists (isoformat d1), (isoformat d2).
    repeat split; apply iso_shape_isoformat. }
  repeat match goal with
  | |- (if ?c then _ else _) = _ -> _ => destruct c
  | |- bind ?e _ = _ -> _ => destruct e; [cbn [bind] | discriminate]
  | |- Ok (Some _, Some _) = _ -> _ => intros [= <- <-]; apply G
  end.
  destruct (search ULTIMOS t) as [m|].
  { destruct (group m 1) as [g1|]; [|discriminate].
    repeat match goal with
    | |- bind ?e _ = _ -> _ => destruct e; [cbn [bind] | discriminate]
    | |- Ok (Some _, Some _) = _ -> _ => intros [= <- <-]; apply G
    end. }
  destruct (search DESDE_HASTA t) as [m|] eqn:Es.
  - intros [= <- <-]. right.
    destruct (search_DESDE_HASTA t m Es) as (a & b & Ha & Hb & Sa & Sb).
    exists a, b. tauto.
  - intros [= <- <-]. now left.
Qed.

(** The two date slots of [extract_slots] are set together or not at all,
    and a date slot has the shape [dddd-dd-dd]. *)
Theorem date_slots_paired (text : str) (sites areas : list str) (s : Slots) :
  extract_slots now text sites areas = Ok s ->
  (date_from s = None /\ date_to s = None)
  \/ exists a b,
       date_from s = Some a /\ date_to s = Some b
       /\ iso_shape a /\ iso_shape b.
Proof.
  intros H. apply extract_slots_Ok in H as (_ & _ & _ & H).
  now apply apply_date_pattern_paired in H.
Qed.

End DateShape.

(** * The statements of [app/data.py] *)

Section Statements.
Import Data.

Lemma placeholders_app (a b : str) :
  placeholders (a ++ b) = (placeholders a + placeholders b)%nat.
Proof. apply count_occ_app. Qed.

(** Evaluates the number of placeholders of the literal parts of a
    statement. *)
Ltac count_literals :=
  rewrite ?placeholders_app;
  repeat match goal with
  | |- context [placeholders (py ?s)] =>
      let v := eval vm_compute in (placeholders (py s)) in
      change (placeholders (py s)) with v
  | |- context [placeholders nl] => change (placeholders nl) with 0%nat
  end.

Lemma add_filter_eq (v : option str) (clause : string)
    (acc : list str * list param) :
  add_filter v clause acc
  = (fst acc ++ (if truthy v then [py clause] else []),
     snd acc ++ slot_param v).
Proof.
  destruct acc as [cl ps], v as [[|c x]|]; cbn [add_filter truthy slot_param fst snd];
    now rewrite ?app_nil_r.
Qed.

Lemma chosen_cons (b : bool) (bs : list bool) (c : str) (cs : list str) :
  chosen (b :: bs) (c :: cs) = (if b then [c] else []) ++ chosen bs cs.
Proof. now destruct b. Qed.

(** [_filters_to_where] in one piece: the text is built from the clauses of
    the filters that are set, the values are those of these filters. *)
Lemma filters_to_where_eq (s : Slots) :
  _filters_to_where s
  = (where_text (chosen (set_filters s) filter_clauses),
     slot_param (site s) ++ slot_param (area s) ++ slot_param (status s)
       ++ slot_param (type s) ++ slot_param (technician s)
       ++ slot_param (date_from s) ++ slot_param (date_to s)).
Proof.
  unfold _filters_to_where. rewrite !add_filter_eq. cbn [fst snd].
  unfold set_filters, filter_clauses. cbn [map].
  rewrite !chosen_cons. cbn [chosen]. rewrite app_nil_r.
  change (@nil param ++ ?x) with x. change (@nil str ++ ?x) with x.
  rewrite <- !app_assoc. reflexivity.
Qed.

Lemma length_slot_param (v : option str) :
  length (slot_param v) = if truthy v then 1%nat else 0%nat.
Proof. now destruct v as [[|c x]|]. Qed.

Lemma placeholders_join (cs : list str) :
  Forall (fun c => placeholders c = 1%nat) cs ->
  placeholders (join (py " AND ") cs) = length cs.
Proof.
  induction 1 as [|c cs Hc _ IH]; [reflexivity|].
  destruct cs as [|c' cs]; [cbn [join length]; exact Hc|].
  change (join (py " AND ") (c :: c' :: cs))
    with (c ++ py " AND " ++ join (py " AND ") (c' :: cs)).
  rewrite !placeholders_app, Hc, IH. reflexivity.
Qed.

Lemma chosen_one (bs : list bool) (cs : list str) :
  Forall (fun c => placeholders c = 1%nat) cs ->
  Forall (fun c => placeholders c = 1%nat) (chosen bs cs).
Proof.
  intros H. revert bs. induction H as [|c cs Hc _ IH]; intros [|[] bs];
    cbn [chosen]; auto.
Qed.

Lemma length_chosen (bs : list bool) (cs : list str) :
  length bs = length cs ->
  length (chosen bs cs) = length (filter (fun b => b) bs).
Proof.
  revert cs. induction bs as [|[] bs IH]; intros [|c cs] H; cbn in *;
    try discriminate; auto.
Qed.

(** The text of the filters has one placeholder for each value. *)
Lemma where_placeholders (s : Slots) :
  placeholders (fst (_filters_to_where s)) = length (snd (_filters_to_where s)).
Proof.
  rewrite filters_to_where_eq. cbn [fst snd].
  rewrite !length_app, !length_slot_param.
  assert (F : Forall (fun c => placeholders c = 1%nat) filter_clauses).
  { repeat constructor. }
  pose proof (chosen_one (set_filters s) filter_clauses F) as G.
  assert (E : placeholders (where_text (chosen (set_filters s) filter_clauses))
              = length (chosen (set_filters s) filter_clauses)).
  { unfold where_text. destruct (chosen _ _) eqn:Ec; [reflexivity|].
    rewrite placeholders_app, placeholders_join by assumption. reflexivity. }
  rewrite E, length_chosen by reflexivity. unfold set_filters. cbn [map filter].
  destruct (truthy (site s)), (truthy (area s)), (truthy (status s)),
    (truthy (type s)), (truthy (technician s)), (truthy (date_from s)),
    (truthy (date_to s)); reflexivity.
Qed.

(** Every statement of the module is handed exactly as many values as its
    text has placeholders, whatever the slots hold. *)
Theorem statements_bind_every_placeholder (slots : Slots) (months n : Z)
    (person : str) :
  Forall (fun st => placeholders (sql st) = length (params st))
    (statements slots months n person).
Proof.
  unfold statements, kpi_mttr_statement, kpi_backlog_days_statement,
    kpi_pm_compliance_statement, kpi_costs_monthly_statement,
    top_downtime_statement, status_counts_statement, kpi_mtbf_statement,
    tech_person_counts_statement.
  repeat apply Forall_cons; try apply Forall_nil.
  all: try match goal with
       | |- context [if ?c then _ else _] => destruct c
       end.
  all: match goal with
       | |- context [_filters_to_where ?x] =>
           pose proof (where_placeholders x) as H;
           destruct (_filters_to_where x) as [w ps]; cbn [fst snd] in H
       end.
  all: cbn [sql params]; rewrite ?length_app; cbn [length].
  all: count_literals; rewrite ?H; try lia.
  destruct w; count_literals; lia.
Qed.

(** The text of each statement, in terms of the text of its filters. *)
Lemma statements_sql (s : Slots) (months n : Z) (person : str) :
  map sql (statements s months n person)
  = [py "SELECT AVG(COALESCE(mttr_hours, labor_hours)) FROM work_orders "
       ++ fst (_filters_to_where (with_status s (Some (py "Cerrada"))));
     py "SELECT opened_at FROM work_orders "
       ++ fst (_filters_to_where (with_status s None)) ++ py " "
       ++ (match fst (_filters_to_where (with_status s None)) with
           | _ :: _ => py " AND "
           | [] => py "WHERE "
           end)
       ++ py " status!='Cerrada'";
     py "SELECT due_date, closed_at FROM work_orders "
       ++ fst (_filters_to_where (with_type s (Some (py "PM"))));
     (if truthy (date_from s) && truthy (date_to s)
      then nl ++ py "            SELECT substr(opened_at,1,7) AS ym, SUM(cost_total)"
          ++ nl ++ py "            FROM work_orders " ++ fst (_filters_to_where s)
          ++ nl ++ py "            GROUP BY ym HAVING ym = ?"
          ++ nl ++ py "            ORDER BY ym DESC"
          ++ nl ++ py "        "
      else nl ++ py "        SELECT substr(opened_at,1,7) AS ym, SUM(cost_total)"
          ++ nl ++ py "        FROM work_orders " ++ fst (_filters_to_where s)
          ++ nl ++ py "        GROUP BY ym ORDER BY ym DESC LIMIT ?"
          ++ nl ++ py "    ");
     py "SELECT a.asset_id, a.name, SUM(work_orders.downtime_hours) as dt"
       ++ nl
       ++ py "              FROM work_orders JOIN assets a ON a.asset_id = work_orders.asset_id"
       ++ nl ++ py "              " ++ fst (_filters_to_where s)
       ++ nl
       ++ py "              GROUP BY a.asset_id, a.name ORDER BY dt DESC LIMIT ?";
     py "SELECT status, COUNT(*) FROM work_orders " ++ fst (_filters_to_where s)
       ++ py " GROUP BY status";
     py "SELECT closed_at FROM work_orders "
       ++ fst (_filters_to_where
                 (with_status (with_type s (Some (py "CM")))
                    (Some (py "Cerrada"))))
       ++ py " AND closed_at IS NOT NULL ORDER BY closed_at";
     py "SELECT status, COUNT(*) FROM work_orders "
       ++ fst (_filters_to_where (with_technician s (Some person)))
       ++ py " GROUP BY status"].
Proof.
  unfold statements, kpi_mttr_statement, kpi_backlog_days_statement,
    kpi_pm_compliance_statement, kpi_costs_monthly_statement,
    top_downtime_statement, status_counts_statement, kpi_mtbf_statement,
    tech_person_counts_statement.
  destruct (truthy (date_from s) && truthy (date_to s));
    destruct (_filters_to_where s),
      (_filters_to_where (with_status s (Some (py "Cerrada")))),
      (_filters_to_where (with_status s None)),
      (_filters_to_where (with_type s (Some (py "PM")))),
      (_filters_to_where
         (with_status (with_type s (Some (py "CM"))) (Some (py "Cerrada")))),
      (_filters_to_where (with_technician s (Some person)));
    reflexivity.
Qed.

(** The text of a statement is fixed by which filters are set: no value of
    a slot is ever written into it. *)
Theorem statement_text_ignores_values (s s' : Slots) (months months' n n' : Z)
    (person person' : str) :
  set_filters s = set_filters s' ->
  (person = [] <-> person' = []) ->
  map sql (statements s months n person)
  = map sql (statements s' months' n' person').
Proof.
  intros E P.
  assert (W : forall a b, set_filters a = set_filters b ->
                          fst (_filters_to_where a) = fst (_filters_to_where b)).
  { intros a b H. rewrite !filters_to_where_eq. cbn [fst]. now rewrite H. }
  assert (Plen : truthy (Some person) = truthy (Some person')).
  { destruct person, person'; try reflexivity.
    - now destruct (proj1 P eq_refl).
    - now destruct (proj2 P eq_refl). }
  unfold set_filters in E. cbn [map] in E.
  injection E as E1 E2 E3 E4 E5 E6 E7.
  rewrite !statements_sql, E6, E7.
  rewrite (W s s'),
    (W (with_status s (Some (py "Cerrada")))
       (with_status s' (Some (py "Cerrada")))),
    (W (with_status s None) (with_status s' None)),
    (W (with_type s (Some (py "PM"))) (with_type s' (Some (py "PM")))),
    (W (with_status (with_type s (Some (py "CM"))) (Some (py "Cerrada")))
       (with_status (with_type s' (Some (py "CM"))) (Some (py "Cerrada")))),
    (W (with_technician s (Some person)) (with_technician s' (Some person')));
    [reflexivity|..];
    unfold set_filters;
    cbn [map site area status type technician date_from date_to
         with_status with_type with_technician];
    rewrite ?E1, ?E2, ?E3, ?E4, ?E5, ?E6, ?E7, ?Plen; reflexivity.
Qed.

End Statements.

(** * From the text to the statement and to the label of the period *)

Section Webhook.
Import Data Formatters Main.
Context {U : Unicode}.

Lemma extract_slots_no_place (now : date) (text : str) (sites areas : list str)
    (s : Slots) :
  extract_slots now text sites areas = Ok s -> site s = None /\ area s = None.
Proof.
  unfold extract_slots. destruct (_apply_date_pattern now (_norm text));
    [|discriminate].
  cbn [bind]. intros [= <-]. now split.
Qed.

Lemma iso_shape_truthy (a : str) : iso_shape a -> truthy (Some a) = true.
Proof.
  intros (y & m & d & -> & Hy & _). destruct y; [discriminate | reflexivity].
Qed.

Lemma truthy_cons (a : str) :
  truthy (Some a) = true -> exists c a', a = c :: a'.
Proof. destruct a as [|c a']; [discriminate | eauto]. Qed.

Variables now today : date.

Lemma extract_slots_dates (text : str) (sites areas : list str) (s : Slots) :
  extract_slots now text sites areas = Ok s ->
  _apply_date_pattern now (_norm text) = Ok (date_from s, date_to s).
Proof. intros H. now apply extract_slots_Ok in H. Qed.

(** The dates of the slots behind [_ensure_month_default]. *)
Lemma ensured_dates (text : str) (sites areas : list str) (s s' : Slots) :
  extract_slots now text sites areas = Ok s ->
  _ensure_month_default today s = Ok s' ->
  site s' = None /\ area s' = None /\ status s' = status s
  /\ type s' = type s /\ technician s' = technician s
  /\ exists a b,
       date_from s' = Some a /\ date_to s' = Some b
       /\ iso_shape a /\ iso_shape b.
Proof.
  intros H E.
  destruct (extract_slots_no_place _ _ _ _ _ H) as (Hs & Ha).
  destruct (apply_date_pattern_paired _ _ _ _ (extract_slots_dates _ _ _ _ H))
    as [(Hf & Ht)|(a & b & Hf & Ht & Sa & Sb)].
  - unfold _ensure_month_default in E. rewrite Hf, Ht in E.
    cbn [truthy negb andb] in E.
    destruct (replace_day today 1) as [start|]; [|discriminate].
    cbn [bind] in E. injection E as <-.
    cbn [site area status type technician date_from date_to].
    repeat split; try assumption.
    exists (isoformat start), (isoformat today).
    repeat split; apply iso_shape_isoformat.
  - assert (T1 := iso_shape_truthy _ Sa).
    unfold _ensure_month_default in E. rewrite Hf, T1 in E.
    cbn [negb andb] in E. injection E as <-.
    repeat split; try assumption. exists a, b. now repeat split.
Qed.

(** What reaches the database from a text: the webhook hands the slots of
    [extract_slots], completed by [_ensure_month_default], to the functions
    of [app/data.py].  The filters on the site and on the area are never
    set, whatever sites and areas are known; the two filters on the date
    are always set, with values of the shape [dddd-dd-dd]. *)
Theorem webhook_filters (text : str) (sites areas : list str) (s s' : Slots) :
  extract_slots now text sites areas = Ok s ->
  _ensure_month_default today s = Ok s' ->
  set_filters s'
  = [false; false; truthy (status s); truthy (type s); truthy (technician s);
     true; true]
  /\ exists a b,
       date_from s' = Some a /\ date_to s' = Some b
       /\ iso_shape a /\ iso_shape b
       /\ exists ps, snd (_filters_to_where s') = ps ++ [PStr a; PStr b].
Proof.
  intros H E.
  destruct (ensured_dates _ _ _ _ _ H E)
    as (Hs & Ha & Hst & Hty & Hte & a & b & Hf & Ht & Sa & Sb).
  assert (T1 := iso_shape_truthy _ Sa). assert (T2 := iso_shape_truthy _ Sb).
  split.
  - unfold set_filters. cbn [map].
    now rewrite Hs, Ha, Hst, Hty, Hte, Hf, Ht, T1, T2.
  - exists a, b. repeat split; try assumption.
    rewrite filters_to_where_eq. cbn [snd]. rewrite Hf, Ht.
    destruct (truthy_cons _ T1) as (c1 & a1 & ->).
    destruct (truthy_cons _ T2) as (c2 & a2 & ->).
    cbn [slot_param].
    match goal with
    | |- exists ps, ?a ++ ?b ++ ?c ++ ?d ++ ?e ++ _ ++ _ = _ =>
        exists (a ++ b ++ c ++ d ++ e)
    end.
    rewrite <- !app_assoc. reflexivity.
Qed.

(** The tag of the period in the answers on the states and on a technician:
    behind [_ensure_month_default] it always spells the two dates, never
    "(Mes actual)". *)
Theorem range_tag_spells_dates (text : str) (sites areas : list str)
    (s s' : Slots) :
  extract_slots now text sites areas = Ok s ->
  _ensure_month_default today s = Ok s' ->
  exists a b,
    date_from s' = Some a /\ date_to s' = Some b
    /\ _range_tag s' = py "(" ++ a ++ py " → " ++ b ++ py ")"
    /\ _range_tag s' <> py "(Mes actual)".
Proof.
  intros H E.
  destruct (ensured_dates _ _ _ _ _ H E)
    as (_ & _ & _ & _ & _ & a & b & Hf & Ht & Sa & Sb).
  exists a, b. split; [assumption|]. split; [assumption|].
  unfold _range_tag. rewrite Hf, Ht.
  destruct (truthy_cons _ (iso_shape_truthy _ Sa)) as (c1 & a1 & ->).
  destruct (truthy_cons _ (iso_shape_truthy _ Sb)) as (c2 & a2 & ->).
  split; [reflexivity|].
  destruct Sa as (y & m & d & E1 & Hy & _ & _ & Hd).
  destruct y as [|y1 y]; [discriminate|]. cbn [app] in E1.
  injection E1 as -> _. cbn [app forallb] in Hd.
  apply andb_prop in Hd as (Hd & _).
  intros Eq. cbn in Eq. injection Eq as ->. discriminate Hd.
Qed.

End Webhook.

Section Labels.
Import Data Formatters Main.
Context {U : Unicode}.
Variable today : date.
Hypothesis today_valid : valid today.

Lemma str_eqb_refl (a : str) : str_eqb a a = true.
Proof. induction a as [|c a IH]; [reflexivity|]. cbn. now rewrite N.eqb_refl. Qed.

Lemma period_label_month :
  forall s : Slots,
    date_from s = Some (isoformat (mkdate (year today) (month today) 1)) ->
    date_to s = Some (isoformat today) ->
    _period_label today (Some s) = py " (Mes actual)".
Proof.
  intros s Hf Ht. unfold _period_label. rewrite Hf, Ht.
  rewrite (first_of_month today today_valid). cbn [bind].
  rewrite !str_eqb_refl. reflexivity.
Qed.

(** "este mes" in the text, and no date in the text, both end in the label
    " (Mes actual)" of the KPI answers, when the clock has not moved to
    another day in between. *)
Theorem period_label_mes_actual (text : str) (sites areas : list str) :
  no_month_name (_norm text) ->
  (occurs_as_word (py "este mes") (_norm text) ->
   exists s,
     extract_slots today text sites areas = Ok s
     /\ _period_label today (Some s) = py " (Mes actual)")
  /\ (forall s,
        extract_slots today text sites areas = Ok s ->
        date_from s = None ->
        exists s',
          _ensure_month_default today s = Ok s'
          /\ _period_label today (Some s') = py " (Mes actual)").
Proof.
  intros Hm. split.
  - intros He. unfold extract_slots.
    rewrite (este_mes_range today today_valid _ Hm He). cbn [bind fst snd].
    eexists. split; [reflexivity|]. now apply period_label_month.
  - intros s H Hf.
    apply extract_slots_Ok in H as (_ & _ & _ & H). cbv zeta in H.
    destruct (apply_date_pattern_paired _ _ _ _ H)
      as [(_ & Ht)|(a & b & Hf' & _)]; [|congruence].
    unfold _ensure_month_default. rewrite Hf, Ht. cbn [truthy negb andb].
    rewrite (first_of_month today today_valid). cbn [bind].
    eexists. split; [reflexivity|]. now apply period_label_month.
Qed.

End Labels.

(** * The counts by status *)

Section Tally.
Import Formatters Counts.
Local Open Scope Z_scope.

Lemma key_eqb_eq (a b : option str) : key_eqb a b = true <-> a = b.
Proof.
  destruct a as [x|], b as [y|]; cbn [key_eqb]; split; try discriminate;
    try reflexivity.
  - intros H. now rewrite (str_eqb_eq _ _ H).
  - intros [= ->]. apply str_eqb_refl.
Qed.

Lemma key_eqb_false (a b : option str) : key_eqb a b = false <-> a <> b.
Proof.
  rewrite <- key_eqb_eq. destruct (key_eqb a b); split; congruence.
Qed.

Lemma dict_get_absent (d : counts) (k : option str) (v : Z) :
  ~ In k (map fst d) -> dict_get d k v = v.
Proof.
  induction d as [|[k' v'] d IH]; cbn [dict_get map fst In]; [reflexivity|].
  intros H. destruct (key_eqb k' k) eqn:E.
  - apply key_eqb_eq in E. tauto.
  - apply IH. tauto.
Qed.

Lemma dict_get_set (d : counts) (k k' : option str) (v def : Z) :
  dict_get (dict_set d k v) k' def
  = if key_eqb k k' then v else dict_get d k' def.
Proof.
  induction d as [|[k0 v0] d IH]; cbn [dict_set dict_get].
  - reflexivity.
  - destruct (key_eqb k0 k) eqn:E0; cbn [dict_get].
    + apply key_eqb_eq in E0 as ->. now destruct (key_eqb k k').
    + rewrite IH. destruct (key_eqb k0 k') eqn:E1; [|reflexivity].
      apply key_eqb_eq in E1 as ->. apply key_eqb_false in E0.
      assert (E2 : key_eqb k k' = false) by (apply key_eqb_false; congruence).
      now rewrite E2.
Qed.

Lemma keys_dict_set (d : counts) (k : option str) (v : Z) :
  map fst (dict_set d k v)
  = if existsb (fun k' => key_eqb k' k) (map fst d) then map fst d
    else map fst d ++ [k].
Proof.
  induction d as [|[k0 v0] d IH]; cbn [dict_set map fst existsb app];
    [reflexivity|].
  destruct (key_eqb k0 k); cbn [orb map fst]; [reflexivity|].
  rewrite IH. now destruct (existsb _ _).
Qed.

Lemma existsb_key (ks : list (option str)) (k : option str) :
  existsb (fun k' => key_eqb k' k) ks = true <-> In k ks.
Proof.
  rewrite existsb_exists. split.
  - intros (x & Hx & E). apply key_eqb_eq in E. now subst.
  - intros H. exists k. split; [assumption | now apply key_eqb_eq].
Qed.

Lemma NoDup_dict_set (d : counts) (k : option str) (v : Z) :
  NoDup (map fst d) -> NoDup (map fst (dict_set d k v)).
Proof.
  intros H. rewrite keys_dict_set.
  destruct (existsb _ _) eqn:E; [assumption|].
  apply NoDup_app; try assumption.
  - repeat constructor. intros [].
  - intros x Hx [<-|[]]. apply existsb_key in Hx. congruence.
Qed.

Lemma sum_dict_set (d : counts) (k : option str) (v : Z) :
  NoDup (map fst d) ->
  sum_values (dict_set d k v) = sum_values d - dict_get d k 0 + v.
Proof.
  unfold sum_values.
  induction d as [|[k0 v0] d IH]; cbn [dict_set dict_get map fst snd fold_right];
    intros H; [lia|].
  inversion H as [|? ? Hn Hd]; subst.
  destruct (key_eqb k0 k) eqn:E; cbn [map snd fold_right]; [lia|].
  rewrite IH by assumption. lia.
Qed.

(** The loop [for s, c in rows: d[s] = c]. *)
Lemma fold_dict_set (rows : list (option str * Z)) :
  NoDup (map fst rows) ->
  forall d : counts,
    NoDup (map fst d) ->
    let d' := fold_left (fun d r => dict_set d (fst r) (snd r)) rows d in
    NoDup (map fst d')
    /\ (forall k def,
          dict_get d' k def = dict_get rows k (dict_get d k def))
    /\ sum_values d'
       = sum_values d
         - fold_right Z.add 0 (map (fun r => dict_get d (fst r) 0) rows)
         + sum_values rows.
Proof.
  induction rows as [|[k v] rows IH]; intros Hr d Hd; cbn [fold_left].
  - repeat split; [assumption | unfold sum_values; cbn; lia].
  - inversion Hr as [|? ? Hn Hr']; subst. cbn [fst snd].
    destruct (IH Hr' (dict_set d k v) (NoDup_dict_set d k v Hd))
      as (N & G & S).
    split; [exact N|]. split.
    + intros k' def. rewrite G, dict_get_set. cbn [dict_get].
      destruct (key_eqb k k') eqn:E; [|reflexivity].
      apply key_eqb_eq in E as <-. now apply dict_get_absent.
    + rewrite S, sum_dict_set by assumption.
      unfold sum_values. cbn [map fst snd fold_right].
      assert (E : map (fun r => dict_get (dict_set d k v) (fst r) 0) rows
                  = map (fun r => dict_get d (fst r) 0) rows).
      { apply map_ext_in. intros [k' v'] Hin. cbn [fst].
        rewrite dict_get_set. destruct (key_eqb k k') eqn:E; [|reflexivity].
        apply key_eqb_eq in E as <-. exfalso. apply Hn.
        now apply (in_map fst) in Hin. }
      rewrite E. lia.
Qed.

Lemma sum_listed (rows : list (option str * Z)) :
  NoDup (map fst rows) ->
  sum_values (filter (fun r => listed_status (fst r)) rows)
  = dict_get rows (Some (py "Abierta")) 0
    + dict_get rows (Some (py "En Progreso")) 0
    + dict_get rows (Some (py "Cerrada")) 0.
Proof.
  unfold sum_values.
  induction rows as [|[k v] rows IH]; intros H; [reflexivity|].
  inversion H as [|? ? Hn Hr]; subst. cbn [filter fst dict_get].
  unfold listed_status at 1.
  destruct (key_eqb k (Some (py "Abierta"))) eqn:E1;
    [|destruct (key_eqb k (Some (py "En Progreso"))) eqn:E2;
      [|destruct (key_eqb k (Some (py "Cerrada"))) eqn:E3]];
    cbn [orb map snd fold_right]; rewrite IH by assumption.
  - apply key_eqb_eq in E1 as ->. cbn [key_eqb].
    change (str_eqb (py "Abierta") (py "En Progreso")) with false.
    change (str_eqb (py "Abierta") (py "Cerrada")) with false. cbv iota.
    rewrite (dict_get_absent rows (Some (py "Abierta"))) by assumption. lia.
  - apply key_eqb_eq in E2 as ->. cbn [key_eqb].
    change (str_eqb (py "En Progreso") (py "Cerrada")) with false. cbv iota.
    rewrite (dict_get_absent rows (Some (py "En Progreso"))) by assumption.
    lia.
  - apply key_eqb_eq in E3 as ->.
    rewrite (dict_get_absent rows (Some (py "Cerrada"))) by assumption. lia.
  - reflexivity.
Qed.

Lemma sum_filter_split (f : option str * Z -> bool) (rows : list (option str * Z)) :
  sum_values rows
  = sum_values (filter f rows) + sum_values (filter (fun r => negb (f r)) rows).
Proof.
  unfold sum_values. induction rows as [|r rows IH]; [reflexivity|].
  cbn [filter map fold_right]. destruct (f r); cbn [negb map fold_right]; lia.
Qed.

(** The dictionary of [status_counts], and of [tech_person_counts]: where
    each status has one row, every status but "Total" holds the number of
    its row (0 where there is none), and "Total" holds the sum of all the
    rows: the three states that the answers list, and whatever other state
    the work orders have. *)
Theorem status_counts_total (rows : list (option str * Z)) :
  NoDup (map fst rows) ->
  let d := status_counts rows in
  (forall k, k <> Some (py "Total") -> dict_get d k 0 = dict_get rows k 0)
  /\ dict_get d (Some (py "Total")) 0 = sum_values rows
  /\ dict_get d (Some (py "Total")) 0
     = dict_get d (Some (py "Abierta")) 0
       + dict_get d (Some (py "En Progreso")) 0
       + dict_get d (Some (py "Cerrada")) 0
       + sum_values (filter (fun r => negb (listed_status (fst r))) rows)
  /\ tech_person_counts rows = d.
Proof.
  intros Hr d. subst d. unfold status_counts, tech_person_counts, tally.
  set (d0 := [(Some (py "Abierta"), 0); (Some (py "En Progreso"), 0);
              (Some (py "Cerrada"), 0)]).
  assert (N0 : NoDup (map fst d0)).
  { repeat constructor; cbn; intuition discriminate. }
  destruct (fold_dict_set rows Hr d0 N0) as (N & G & S). cbv zeta in N, G, S.
  match type of N with NoDup (map fst ?x) => set (d1 := x) in * end.
  assert (Z0 : forall k, dict_get d0 k 0 = 0).
  { intros k. unfold d0. cbn [dict_get].
    repeat match goal with |- context [if ?c then _ else _] => destruct c end;
      reflexivity. }
  assert (T : sum_values d1 = sum_values rows).
  { rewrite S.
    assert (E : map (fun r => dict_get d0 (fst r) 0) rows = map (fun _ => 0) rows)
      by (apply map_ext; intros r; apply Z0).
    rewrite E. unfold sum_values at 1. cbn [d0 map snd fold_right].
    assert (fold_right Z.add 0 (map (fun _ : option str * Z => 0) rows) = 0)
      by (clear; induction rows; cbn; lia).
    lia. }
  assert (K : forall k, k <> Some (py "Total") ->
              dict_get (dict_set d1 (Some (py "Total")) (sum_values d1)) k 0
              = dict_get rows k 0).
  { intros k Hk. rewrite dict_get_set.
    destruct (key_eqb (Some (py "Total")) k) eqn:E.
    - apply key_eqb_eq in E. congruence.
    - now rewrite G, Z0. }
  fold (sum_values d1).
  split; [exact K|]. split.
  - rewrite dict_get_set. rewrite (proj2 (key_eqb_eq _ _) eq_refl). exact T.
  - split; [|reflexivity].
    rewrite (K (Some (py "Abierta"))), (K (Some (py "En Progreso"))),
      (K (Some (py "Cerrada"))) by (vm_compute; discriminate).
    rewrite dict_get_set, (proj2 (key_eqb_eq _ _) eq_refl), T.
    rewrite (sum_filter_split (fun r => listed_status (fst r))).
    now rewrite sum_listed.
Qed.

End Tally.

(** * The table of the sessions *)

Section SessionFacts.
Import Sessions.
Local Open Scope Z_scope.

Lemma ascending_tail (p : Z * session) (t : table) :
  ascending (p :: t) = true -> ascending t = true.
Proof.
  destruct p as [c r], t as [|[c' r'] t]; [reflexivity|].
  cbn [ascending]. intros H. now apply andb_prop in H.
Qed.

Lemma select_below (t : table) (c : Z) :
  ascending t = true ->
  match t with (k, _) :: _ => c < k | [] => True end ->
  select t c = None.
Proof.
  revert c. induction t as [|[k r] t IH]; intros c A H; [reflexivity|].
  cbn [select]. destruct (Z.eqb_spec k c) as [->|_]; [lia|].
  apply IH; [now apply ascending_tail in A|].
  destruct t as [|[k' r'] t]; [exact I|].
  cbn [ascending] in A. apply andb_prop in A as (A & _).
  apply Z.ltb_lt in A. lia.
Qed.

Lemma select_upsert (t : table) (c c' : Z) (ins : session)
    (upd : session -> session) :
  ascending t = true ->
  select (upsert t c ins upd) c'
  = if c =? c'
    then Some (match select t c with Some r => upd r | None => ins end)
    else select t c'.
Proof.
  induction t as [|[k r] t IH]; intros A; cbn [upsert select].
  - now destruct (c =? c').
  - destruct (Z.eqb_spec k c) as [->|Hk]; cbn [select].
    + rewrite ?Z.eqb_refl. now destruct (c =? c').
    + destruct (Z.ltb_spec c k) as [Hlt|Hge]; cbn [select].
      * destruct (Z.eqb_spec c c') as [<-|Hc].
        -- destruct (Z.eqb_spec k c) as [|_]; [contradiction|].
           rewrite select_below; [reflexivity | now apply ascending_tail in A |].
           destruct t as [|[k' r'] t]; [exact I|].
           cbn [ascending] in A. apply andb_prop in A as (A & _).
           apply Z.ltb_lt in A. lia.
        -- reflexivity.
      * destruct (Z.eqb_spec k c) as [|_]; [contradiction|].
        rewrite IH by now apply ascending_tail in A.
        destruct (Z.eqb_spec c c') as [<-|Hc]; [|reflexivity].
        destruct (Z.eqb_spec k c) as [|_]; [contradiction | reflexivity].
Qed.

Lemma ascending_upsert (t : table) (c : Z) (ins : session)
    (upd : session -> session) :
  ascending t = true -> ascending (upsert t c ins upd) = true.
Proof.
  induction t as [|[k r] t IH]; intros A; [reflexivity|].
  cbn [upsert]. destruct (Z.eqb_spec k c) as [->|Hk].
  - exact A.
  - destruct (Z.ltb_spec c k) as [Hlt|Hge].
    + cbn [ascending]. apply Z.ltb_lt in Hlt. rewrite Hlt. exact A.
    + specialize (IH (ascending_tail _ _ A)).
      destruct t as [|[k' r'] t].
      * cbn [upsert ascending]. rewrite andb_true_r. apply Z.ltb_lt. lia.
      * cbn [ascending] in A. apply andb_prop in A as (A1 & A2).
        cbn [upsert] in *. destruct (k' =? c).
        -- cbn [ascending] in *. now rewrite A1.
        -- destruct (Z.ltb_spec c k').
           ++ cbn [ascending] in *. rewrite IH, andb_true_r.
              apply Z.ltb_lt. lia.
           ++ change (ascending ((k, r) :: (k', r') :: upsert t c ins upd) = true).
              cbn [ascending] in *. now rewrite A1.
Qed.

Lemma with_time_In (t : table) (c : Z) (h : str) :
  ascending t = true ->
  (In (c, h) (with_time t)
   <-> exists r, select t c = Some r /\ report_time r = Some h).
Proof.
  induction t as [|[k r] t IH]; intros A; cbn [with_time select].
  - split; [intros [] | intros (r & [=] & _)].
  - specialize (IH (ascending_tail _ _ A)).
    assert (B : k = c -> ~ In (c, h) (with_time t)).
    { intros -> Hin. apply IH in Hin as (r' & Hs & _).
      rewrite select_below in Hs; [discriminate | now apply ascending_tail in A |].
      destruct t as [|[k' r''] t]; [exact I|].
      cbn [ascending] in A. apply andb_prop in A as (A & _).
      now apply Z.ltb_lt in A. }
    destruct (Z.eqb_spec k c) as [E|E].
    + destruct (report_time r) as [h'|] eqn:Er.
      * cbn [In]. split.
        -- intros [[= _ ->]|Hin]; [eauto | now apply B in Hin].
        -- intros (r' & [= <-] & Hr). left. congruence.
      * split.
        -- intros Hin. now apply B in Hin.
        -- intros (r' & [= <-] & Hr). congruence.
    + destruct (report_time r) as [h'|]; [|exact IH].
      cbn [In]. rewrite <- IH. split; [|tauto].
      intros [[= -> _]|Hin]; [contradiction | exact Hin].
Qed.

Lemma with_time_upsert_seen (t : table) (c : Z) (now : str) :
  with_time (upsert t c (mkSession None (Some now))
               (fun r => mkSession (report_time r) (Some now)))
  = with_time t.
Proof.
  induction t as [|[k r] t IH]; [reflexivity|].
  cbn [upsert]. destruct (k =? c); [reflexivity|].
  destruct (c <? k); [reflexivity|].
  cbn [with_time]. now rewrite IH.
Qed.

(** The report time of a chat: what [set_report_time] stores is what
    [get_report_time] returns and what the list of the chats with a report
    time holds for the chat, an empty time read as none by the former; and
    no other chat is touched. *)
Theorem report_time_round_trip (d : db) (c : Z) (h : option str) :
  well_keyed d -> in_int64 c = true ->
  let d1 := fst (set_report_time c h d) in
  well_keyed d1
  /\ snd (set_report_time c h d) = Ok tt
  /\ snd (get_report_time c d1) = Ok (if Data.truthy h then h else None)
  /\ (forall hh, In (c, hh) (snd (all_chat_ids_with_time d1)) <-> h = Some hh)
  /\ (forall c', c' <> c ->
        snd (get_report_time c' d1) = snd (get_report_time c' d)
        /\ forall hh, In (c', hh) (snd (all_chat_ids_with_time d1))
                      <-> In (c', hh) (snd (all_chat_ids_with_time d))).
Proof.
  intros W Hc. unfold well_keyed in W.
  unfold set_report_time, get_report_time, all_chat_ids_with_time, well_keyed.
  rewrite Hc. cbn [fst snd ensure_schema].
  set (t := ensure_schema d) in *.
  pose proof (ascending_upsert t c (mkSession h None)
                (fun r => mkSession h (last_seen_at r)) W) as W1.
  split; [exact W1|]. split; [reflexivity|]. split; [|split].
  - rewrite select_upsert, Z.eqb_refl by assumption.
    destruct (select t c); cbn [report_time]; now destruct h as [[|x h]|].
  - intros hh. rewrite with_time_In by assumption.
    rewrite select_upsert, Z.eqb_refl by assumption. split.
    + intros (r & [= <-] & Hr). now destruct (select t c).
    + intros ->. eexists. split; [reflexivity|]. now destruct (select t c).
  - intros c' Hne. assert (E : (c =? c') = false) by (apply Z.eqb_neq; congruence).
    split.
    + destruct (in_int64 c'); [|reflexivity]. cbn [snd].
      now rewrite select_upsert, E by assumption.
    + intros hh. rewrite !with_time_In by assumption.
      now rewrite select_upsert, E by assumption.
Qed.

(** A message seen never changes a report time: [update_last_seen] leaves
    the list of the chats with a report time and every answer of
    [get_report_time] as they were. *)
Theorem last_seen_keeps_report_times (d : db) (now : str) (c : Z) :
  well_keyed d ->
  let d1 := fst (update_last_seen now c d) in
  well_keyed d1
  /\ snd (all_chat_ids_with_time d1) = snd (all_chat_ids_with_time d)
  /\ forall c', snd (get_report_time c' d1) = snd (get_report_time c' d).
Proof.
  intros W. unfold well_keyed in W.
  unfold update_last_seen, get_report_time, all_chat_ids_with_time, well_keyed.
  set (t := ensure_schema d) in *.
  destruct (in_int64 c); cbn [fst snd ensure_schema].
  - split; [now apply ascending_upsert|]. split.
    + apply with_time_upsert_seen.
    + intros c'. destruct (in_int64 c'); [|reflexivity]. cbn [snd].
      rewrite select_upsert by assumption.
      destruct (Z.eqb_spec c c') as [<-|]; [|reflexivity].
      now destruct (select t c).
  - repeat split. exact W.
Qed.

(** The chats listed at startup are those for which [get_report_time]
    returns a time, but for the empty time, which is listed and not
    returned. *)
Theorem listing_matches_lookup (d : db) (c : Z) (h : str) :
  well_keyed d -> in_int64 c = true ->
  (snd (get_report_time c d) = Ok (Some h)
   <-> In (c, h) (snd (all_chat_ids_with_time d)) /\ h <> []).
Proof.
  intros W Hc. unfold well_keyed in W.
  unfold get_report_time, all_chat_ids_with_time. rewrite Hc. cbn [snd].
  rewrite with_time_In by assumption.
  destruct (select (ensure_schema d) c) as [r|]; split.
  - destruct (report_time r) as [[|x h']|] eqn:Er; try discriminate.
    intros [= <-]. split; [eauto | discriminate].
  - intros ((r' & [= <-] & Hr) & Hne). rewrite Hr.
    destruct h; [contradiction | reflexivity].
  - discriminate.
  - intros ((r' & [=] & _) & _).
Qed.

End SessionFacts.

(** * The masking of secrets *)

Section Masking.
Context {U : Unicode}.

Lemma Matches_plain (r : regex) (wb : bool) (w rest : str) (g g' : caps) :
  Matches r wb w rest g g' -> plain r = true ->
  forall wb' rest', Matches r wb' w rest' g g'.
Proof.
  induction 1; cbn [plain]; intros P wb' rest';
    try apply andb_prop in P as (P1 & P2); try discriminate;
    try (now constructor).
  - econstructor; [apply IHMatches1 | apply IHMatches2]; assumption.
  - apply M_Alt_l. now apply IHMatches.
  - apply M_Alt_r. now apply IHMatches.
  - apply M_Star_cons with (g1 := g1); [assumption | |];
      [apply IHMatches1 | apply IHMatches2]; assumption.
  - constructor. now apply IHMatches.
Qed.

Lemma Matches_avoids (c : cp) (r : regex) (wb : bool) (w rest : str)
    (g g' : caps) :
  Matches r wb w rest g g' -> avoids c r = true -> ~ In c w.
Proof.
  induction 1; cbn [avoids]; intros A;
    try apply andb_prop in A as (A1 & A2); try discriminate;
    try (intros []; fail); auto.
  - intros [<-|[]]. now rewrite N.eqb_refl in A.
  - intros [<-|[]]. now rewrite H in A.
  - intros [<-|[]]. now rewrite H in A.
  - intros [<-|[]]. now rewrite H in A.
  - rewrite in_app_iff. intros [?|?]; [now apply IHMatches1 | now apply IHMatches2].
  - rewrite in_app_iff. intros [?|?]; [now apply IHMatches1 | now apply IHMatches2].
Qed.

Lemma Matches_min_len (r : regex) (wb : bool) (w rest : str) (g g' : caps) :
  Matches r wb w rest g g' -> (min_len r <= length w)%nat.
Proof.
  induction 1; cbn [min_len length]; rewrite ?length_app; lia.
Qed.

Lemma match_here_sound (r : regex) (wb wb' : bool) (s s' : str) :
  match_here r wb s = Some (wb', s') ->
  exists w g, s = w ++ s' /\ Matches r wb w s' [] g.
Proof.
  unfold match_here. intros H. apply mt_sound in H.
  destruct H as (w & rest & g & -> & M & [= _ <-]). eauto.
Qed.

Lemma match_here_complete (r : regex) (wb : bool) (w rest : str) (g : caps) :
  Matches r wb w rest [] g -> match_here r wb (w ++ rest) <> None.
Proof.
  intros M. unfold match_here. eapply mt_complete; [eassumption | discriminate].
Qed.

Section OnePattern.
Variable r : regex.
Variable c : cp.
Variable repl : str.
Hypothesis r_plain : plain r = true.
Hypothesis r_avoids : avoids c r = true.
Hypothesis r_takes : (0 < min_len r)%nat.
Hypothesis repl_marks : forallb (N.eqb c) repl = true.
Hypothesis repl_some : repl <> [].

Lemma starts_head (s : str) (wb : bool) :
  starts r s <-> match_here r wb s <> None.
Proof.
  split.
  - intros (w & rest & g & -> & M).
    apply match_here_complete with (g := g).
    now apply Matches_plain with (wb := false) (rest := rest).
  - intros H. destruct (match_here r wb s) as [[wb' s']|] eqn:E; [|contradiction].
    apply match_here_sound in E as (w & g & -> & M).
    exists w, s', g. split; [reflexivity|].
    now apply Matches_plain with (wb := wb) (rest := s').
Qed.

Lemma starts_takes (s : str) :
  starts r s ->
  exists x w rest g,
    s = (x :: w) ++ rest /\ x <> c /\ ~ In c w
    /\ Matches r false (x :: w) rest [] g.
Proof.
  intros (w & rest & g & -> & M).
  pose proof (Matches_min_len _ _ _ _ _ _ M) as L.
  pose proof (Matches_avoids c _ _ _ _ _ _ M r_avoids) as A.
  destruct w as [|x w]; [cbn in L; lia|].
  exists x, w, rest, g. repeat split; try assumption.
  - intros ->. apply A. now left.
  - intros Hin. apply A. now right.
Qed.

Lemma match_here_shorter (wb wb' : bool) (s s' : str) :
  match_here r wb s = Some (wb', s') -> (length s' < length s)%nat.
Proof.
  intros H. apply match_here_sound in H as (w & g & -> & M).
  apply Matches_min_len in M. rewrite length_app. lia.
Qed.

Lemma repl_head : exists repl', repl = c :: repl'.
Proof.
  destruct repl as [|x repl']; [contradiction|].
  cbn [forallb] in repl_marks. apply andb_prop in repl_marks as (E & _).
  apply N.eqb_eq in E. subst x. eauto.
Qed.

(** What [re.sub] writes up to its first replacement is the text as it
    was. *)
Lemma sub_loop_prefix (n : nat) :
  forall (wb : bool) (s w rest : str),
    (length s < n)%nat -> ~ In c w ->
    sub_loop n r repl wb s = w ++ rest ->
    exists rest', s = w ++ rest'.
Proof.
  induction n as [|n IH]; intros wb s w rest L Hw E; [lia|].
  rewrite sub_loop_S in E.
  destruct (match_here r wb s) as [[wb' s']|] eqn:Em.
  - pose proof (match_here_shorter _ _ _ _ Em) as Hs.
    apply Nat.ltb_lt in Hs. rewrite Hs in E.
    destruct repl_head as (repl' & Er). rewrite Er in E.
    destruct w as [|x w]; [now exists s|].
    cbn [app] in E. injection E as <- _. exfalso. apply Hw. now left.
  - destruct s as [|x s1].
    + destruct w; [now exists [] | discriminate].
    + destruct w as [|y w]; [now exists (x :: s1)|].
      cbn [app] in E. injection E as <- E.
      apply IH in E; [|cbn in L; lia | intros H; apply Hw; now right].
      destruct E as (rest' & ->). now exists rest'.
Qed.

Lemma clean_nil : clean r [].
Proof.
  intros pre post E (w & rest & g & E' & M).
  apply Matches_min_len in M. symmetry in E. apply app_eq_nil in E as (_ & ->).
  symmetry in E'. apply app_eq_nil in E' as (-> & _). cbn in M. lia.
Qed.

Lemma clean_cons (x : cp) (s : str) :
  clean r s -> ~ starts r (x :: s) -> clean r (x :: s).
Proof.
  intros C H pre post E. destruct pre as [|y pre].
  - cbn [app] in E. now subst post.
  - cbn [app] in E. injection E as _ E. now apply (C pre post).
Qed.

Lemma clean_repl (s : str) : clean r s -> clean r (repl ++ s).
Proof.
  intros C. induction repl as [|x l IH]; [exact C|].
  cbn [forallb] in repl_marks. apply andb_prop in repl_marks as (E & F).
  apply N.eqb_eq in E. subst x. cbn [app]. apply clean_cons.
  - clear IH. induction l as [|x l IH]; [exact C|].
    cbn [forallb] in F. apply andb_prop in F as (E & F).
    apply N.eqb_eq in E. subst x. cbn [app]. apply clean_cons; [now apply IH|].
    intros H. apply starts_takes in H as (x & w & rest & g & [= -> _] & Hx & _).
    now apply Hx.
  - intros H. apply starts_takes in H as (x & w & rest & g & [= -> _] & Hx & _).
    now apply Hx.
Qed.

(** [re.sub] leaves no match of its pattern behind. *)
Lemma sub_loop_clean (n : nat) :
  forall (wb : bool) (s : str),
    (length s < n)%nat -> clean r (sub_loop n r repl wb s).
Proof.
  induction n as [|n IH]; intros wb s L; [lia|].
  rewrite sub_loop_S.
  destruct (match_here r wb s) as [[wb' s']|] eqn:Em.
  - pose proof (match_here_shorter _ _ _ _ Em) as Hs.
    apply Nat.ltb_lt in Hs as Hb. rewrite Hb.
    apply clean_repl. apply IH. lia.
  - destruct s as [|x s1]; [apply clean_nil|].
    apply clean_cons; [apply IH; cbn in L; lia|].
    intros H. apply starts_takes in H as (y & w & rest & g & E & Hy & Hw & M).
    cbn [app] in E. injection E as <- E.
    apply sub_loop_prefix in E; [|cbn in L; lia | assumption].
    destruct E as (rest' & ->).
    apply (match_here_complete r wb (x :: w) rest' g); [|exact Em].
    now apply Matches_plain with (wb := false) (rest := rest).
Qed.

Lemma clean_tail (x : cp) (s : str) : clean r (x :: s) -> clean r s.
Proof. intros C pre post E. apply (C (x :: pre) post). now rewrite E. Qed.

(** [re.sub] returns a text without a match as it is. *)
Lemma sub_loop_same (n : nat) :
  forall (wb : bool) (s : str),
    (length s < n)%nat -> clean r s -> sub_loop n r repl wb s = s.
Proof.
  induction n as [|n IH]; intros wb s L C; [lia|].
  rewrite sub_loop_S.
  destruct (match_here r wb s) as [[wb' s']|] eqn:Em.
  - exfalso. apply (C [] s eq_refl). apply (starts_head s wb). congruence.
  - destruct s as [|x s1]; [reflexivity|].
    rewrite IH; [reflexivity | cbn in L; lia | now apply clean_tail in C].
Qed.

Lemma skip_marks (l t pre w post : str) :
  forallb (N.eqb c) l = true -> w <> [] -> ~ In c w ->
  l ++ t = pre ++ w ++ post ->
  exists pre', t = pre' ++ w ++ post.
Proof.
  revert pre. induction l as [|x l IH]; intros pre F Hne Hw E; [eauto|].
  cbn [forallb] in F. apply andb_prop in F as (Ex & F).
  apply N.eqb_eq in Ex. subst x.
  destruct pre as [|y pre].
  - destruct w as [|y w]; [contradiction|].
    cbn [app] in E. injection E as <- _. exfalso. apply Hw. now left.
  - cbn [app] in E. injection E as _ E. now apply (IH pre).
Qed.

(** A text without the mark that stands in the result of [re.sub] stood in
    the text before. *)
Lemma sub_loop_within (n : nat) :
  forall (wb : bool) (s pre w post : str),
    (length s < n)%nat -> w <> [] -> ~ In c w ->
    sub_loop n r repl wb s = pre ++ w ++ post ->
    exists pre' post', s = pre' ++ w ++ post'.
Proof.
  induction n as [|n IH]; intros wb s pre w post L Hne Hw E; [lia|].
  destruct pre as [|y pre].
  { cbn [app] in E. apply sub_loop_prefix in E; [|assumption..].
    destruct E as (rest' & ->). now exists [], rest'. }
  rewrite sub_loop_S in E.
  destruct (match_here r wb s) as [[wb' s']|] eqn:Em.
  - pose proof (match_here_shorter _ _ _ _ Em) as Hs.
    apply Nat.ltb_lt in Hs as Hb. rewrite Hb in E.
    apply skip_marks in E; [|assumption..].
    destruct E as (pre1 & E).
    apply IH in E; [|lia | assumption..].
    destruct E as (pre' & post' & ->).
    apply match_here_sound in Em as (w0 & g & -> & _).
    exists (w0 ++ pre'), post'. now rewrite <- app_assoc.
  - destruct s as [|x s1]; [discriminate|].
    cbn [app] in E. injection E as <- E.
    apply IH in E; [|cbn in L; lia | assumption..].
    destruct E as (pre' & post' & ->). now exists (x :: pre'), post'.
Qed.

End OnePattern.

Lemma match_at_starts (r : regex) (wb : bool) (s : str) :
  plain r = true -> (match_at r wb s <> None <-> starts r s).
Proof.
  intros P. unfold match_at. split.
  - intros H.
    destruct (mt r wb s [] (fun _ _ g => Some g)) as [x|] eqn:E; [|contradiction].
    apply mt_sound in E as (w & rest & g & -> & M & _).
    exists w, rest, g. split; [reflexivity|].
    now apply Matches_plain with (wb := wb) (rest := rest).
  - intros (w & rest & g & -> & M).
    eapply mt_complete; [|discriminate].
    apply Matches_plain with (wb := false) (rest := rest); eassumption.
Qed.

Lemma found_clean (r : regex) (t : str) :
  plain r = true -> (found r t = false <-> clean r t).
Proof.
  intros P. split.
  - intros F pre post E S. apply (match_at_starts r (ends_in_word false pre)) in S;
      [|assumption].
    assert (T : found r t = true) by (apply found_spec; eauto).
    congruence.
  - intros C. destruct (found r t) eqn:F; [|reflexivity].
    apply found_spec in F as (pre & post & E & M).
    apply match_at_starts in M; [|assumption]. now destruct (C pre post E).
Qed.

(** A pattern that was not to be found is not to be found when the secrets
    of another pattern are masked. *)
Lemma clean_sub (r1 r2 : regex) (c : cp) (repl s : str) :
  plain r1 = true -> avoids c r1 = true -> (0 < min_len r1)%nat ->
  (0 < min_len r2)%nat ->
  forallb (N.eqb c) repl = true -> repl <> [] ->
  clean r1 s -> clean r1 (sub r2 repl s).
Proof.
  intros P1 A1 L1 L2 F Hne C pre post E S.
  apply (starts_takes r1 c A1 L1) in S as (x & w & rest & g & -> & Hx & Hw & M).
  unfold sub in E.
  apply (sub_loop_within r2 c repl L2 F Hne) in E;
    [|lia | discriminate | intros [<-|H]; [now apply Hx | now apply Hw]].
  destruct E as (pre' & post' & E).
  apply (C pre' ((x :: w) ++ post') E).
  exists (x :: w), post', g. split; [reflexivity|].
  now apply Matches_plain with (wb := false) (rest := rest).
Qed.

(** Two patterns masked one after the other. *)
Lemma sub_twice_clean (r1 r2 : regex) (c : cp) (repl s : str) :
  plain r1 = true -> avoids c r1 = true -> (0 < min_len r1)%nat ->
  plain r2 = true -> avoids c r2 = true -> (0 < min_len r2)%nat ->
  forallb (N.eqb c) repl = true -> repl <> [] ->
  found r1 (sub r2 repl (sub r1 repl s)) = false
  /\ found r2 (sub r2 repl (sub r1 repl s)) = false.
Proof.
  intros P1 A1 L1 P2 A2 L2 F Hne. split.
  - apply found_clean; [assumption|].
    apply (clean_sub r1 r2 c); try assumption.
    apply (sub_loop_clean r1 c repl); try assumption. lia.
  - apply found_clean; [assumption|].
    apply (sub_loop_clean r2 c repl); try assumption. lia.
Qed.

Lemma sub_twice_same (r1 r2 : regex) (c : cp) (repl s : str) :
  plain r1 = true -> (0 < min_len r1)%nat ->
  plain r2 = true -> (0 < min_len r2)%nat ->
  found r1 s = false -> found r2 s = false ->
  sub r2 repl (sub r1 repl s) = s.
Proof.
  intros P1 L1 P2 L2 F1 F2.
  apply found_clean in F1, F2; try assumption.
  assert (E : sub r1 repl s = s).
  { apply (sub_loop_same r1); try assumption. lia. }
  rewrite E. apply (sub_loop_same r2); try assumption. lia.
Qed.

Import LoggingConf.

Lemma sanitize_clean (s : str) :
  Forall (fun p => found p (_sanitize s) = false) SECRET_PATTERNS.
Proof.
  unfold _sanitize, SECRET_PATTERNS. cbn [fold_left].
  match goal with
  | |- Forall _ [?a; ?b] =>
      destruct (sub_twice_clean a b 42%N (py "***") s) as (H1 & H2);
        [vm_compute; reflexivity | vm_compute; reflexivity | vm_compute; lia
        |vm_compute; reflexivity | vm_compute; reflexivity | vm_compute; lia
        |vm_compute; reflexivity | discriminate |]
  end.
  repeat constructor; assumption.
Qed.

(** After [_sanitize], no secret pattern is to be found in the text. *)
Theorem sanitize_leaves_no_secret (s : str) (p : regex) :
  In p SECRET_PATTERNS -> found p (_sanitize s) = false.
Proof.
  intros H. pose proof (sanitize_clean s) as F. rewrite Forall_forall in F.
  now apply F.
Qed.

(** The texts that [_sanitize] returns as they are, are the texts without
    a secret pattern; so a text that went through [_sanitize] goes through
    it again unchanged. *)
Theorem sanitize_fixed_points (s : str) :
  (_sanitize s = s <-> Forall (fun p => found p s = false) SECRET_PATTERNS)
  /\ _sanitize (_sanitize s) = _sanitize s.
Proof.
  assert (G : forall t, Forall (fun p => found p t = false) SECRET_PATTERNS ->
                        _sanitize t = t).
  { intros t H. unfold _sanitize, SECRET_PATTERNS in *. cbn [fold_left].
    inversion H as [|? ? H1 H']; subst. inversion H' as [|? ? H2 _]; subst.
    apply (sub_twice_same _ _ 42%N);
      [vm_compute; reflexivity | vm_compute; lia
      |vm_compute; reflexivity | vm_compute; lia | assumption..]. }
  split; [split|].
  - intros E. rewrite <- E. apply sanitize_clean.
  - apply G.
  - apply G, sanitize_clean.
Qed.

End Masking.

(** * The normalised text *)

Section NormalisedText.
Context {U : Unicode}.

Lemma collapse_from_blank (s : str) :
  forall (b : bool) (c : cp),
    In c (collapse_from b s) -> is_space c = true -> c = 32%N.
Proof.
  induction s as [|x s IH]; intros b c; cbn [collapse_from]; [intros []|].
  destruct (is_space x) eqn:Ex.
  - destruct b; [apply IH|].
    intros [<-|H] Hc; [reflexivity | exact (IH _ _ H Hc)].
  - intros [<-|H] Hc; [congruence | exact (IH _ _ H Hc)].
Qed.

Lemma collapse_from_single (s : str) :
  forall b : bool,
    (b = true -> forall t, collapse_from b s <> 32%N :: t)
    /\ (forall pre post, collapse_from b s <> pre ++ 32%N :: 32%N :: post).
Proof.
  induction s as [|x s IH]; intros b; cbn [collapse_from].
  - split; [discriminate|]. intros [|y pre] post; discriminate.
  - destruct (is_space x) eqn:Ex.
    + destruct b; [apply IH|]. split; [discriminate|].
      intros [|y pre] post; cbn [app]; intros [= E].
      * now apply (proj1 (IH true) eq_refl) in E.
      * now apply (proj2 (IH true)) in H0.
    + split.
      * intros _ t [= -> _]. discriminate Ex.
      * intros [|y pre] post; cbn [app]; intros [= E].
        -- subst x. discriminate Ex.
        -- now apply (proj2 (IH false)) in H0.
Qed.

(** The normalised text has no blank but the space, and no two spaces in a
    row. *)
Theorem norm_single_blanks (text : str) :
  (forall c, In c (_norm text) -> is_space c = true -> c = 32%N)
  /\ ~ occurs (py "  ") (_norm text).
Proof.
  unfold _norm. rewrite sub_spaces. split.
  - apply collapse_from_blank.
  - intros (pre & post & E). revert E.
    apply (proj2 (collapse_from_single _ false) pre post).
Qed.

Lemma first_intent_In (table : list (regex * Intent)) (t : str) (n : Intent) :
  first_intent table t = Some n -> In n (map snd table).
Proof.
  induction table as [|[pat name] table IH]; cbn [first_intent]; [discriminate|].
  destruct (found pat t).
  - intros [= ->]. now left.
  - intros H. right. now apply IH.
Qed.

(** A question that names a technician of the roster and a state of the
    orders is never answered with the help text, unless it greets. *)
Theorem technician_and_state_get_an_answer (text : str) :
  let t := _norm text in
  (forall g, In g GREETINGS -> ~ occurs g t) ->
  (exists tech, In tech TECHS /\ occurs tech t) ->
  occurs (py "abiert") t \/ occurs (py "cerrad") t \/ occurs (py "progreso") t ->
  detect_intent text <> HELP.
Proof.
  intros t Hg Ht Hs. unfold detect_intent. fold t.
  apply any_in_false in Hg. rewrite Hg.
  apply any_in_spec in Ht. rewrite Ht.
  rewrite andb_false_r. cbn [andb].
  destruct (first_intent INTENTS (sub FILLER [] t)) as [n|] eqn:E.
  - apply first_intent_In in E. intros ->. cbn in E.
    repeat destruct E as [E|E]; discriminate || assumption.
  - assert (S : str_in (py "abiert") t || str_in (py "cerrad") t
                || str_in (py "progreso") t = true).
    { rewrite !orb_true_iff, !str_in_spec. tauto. }
    rewrite S. discriminate.
Qed.

End NormalisedText.

Section GreetingAccents.
Context {U : Unicode} {L : AccentLaws U}.

Lemma any_in_blanks (ws : list str) (pre m suf : str) :
  trimmed_words ws = true -> blank_or_nil pre -> blank_or_nil suf ->
  any_in ws (pre ++ m ++ suf) = any_in ws m.
Proof.
  intros T [->| ->] [->| ->]; cbn [app];
    rewrite ?app_nil_r, ?any_in_cons, ?any_in_snoc by assumption; reflexivity.
Qed.

Lemma any_in_norm (ws : list str) (x y : str) :
  trimmed_words ws = true ->
  strip_marks x = strip_marks y ->
  any_in ws (_norm x) = any_in ws (_norm y).
Proof.
  intros T H.
  change (_norm x)
    with (sub (Plus Space) (py " ") (strip_marks (strip (str_lower x)))).
  change (_norm y)
    with (sub (Plus Space) (py " ") (strip_marks (strip (str_lower y)))).
  rewrite !sub_spaces.
  destruct (collapse_strip (strip_marks (strip (str_lower x))))
    as (p1 & s1 & Hp1 & Hs1 & ->).
  destruct (collapse_strip (strip_marks (strip (str_lower y))))
    as (p2 & s2 & Hp2 & Hs2 & ->).
  rewrite !any_in_blanks by assumption.
  rewrite !strip_strip_marks.
  now rewrite (lower_strip_marks x y H).
Qed.

(** Two texts that differ by their accents only are both greetings or
    none, and both farewells or none. *)
Theorem greeting_accents (x y : str) :
  strip_marks x = strip_marks y ->
  is_greeting x = is_greeting y /\ is_farewell x = is_farewell y.
Proof.
  intros H. unfold is_greeting, is_farewell.
  split; apply any_in_norm; try assumption; reflexivity.
Qed.

End GreetingAccents.

(** * The normalised text over the Latin table *)

Section Latin1Text.
Local Open Scope N_scope.

Lemma lower_cp_high (c : N) : 880 <= c -> Latin1.lower_cp c = c.
Proof.
  intros Hc. unfold Latin1.lower_cp.
  replace (c <=? 90) with false by (symmetry; apply N.leb_gt; lia).
  replace (c <=? 222) with false by (symmetry; apply N.leb_gt; lia).
  now rewrite !andb_false_r.
Qed.

Lemma lower_cp_space (c : N) : is_space c = true -> Latin1.lower_cp c = c.
Proof.
  intros Hs. destruct (N.lt_ge_cases c 880) as [Hc|Hc];
    [|now apply lower_cp_high].
  apply N.eqb_eq.
  assert (G : (negb (is_space c) || (Latin1.lower_cp c =? c)) = true).
  { apply (below_880 (fun c => negb (is_space c) || (Latin1.lower_cp c =? c)));
      [vm_compute; reflexivity | assumption]. }
  now rewrite Hs in G.
Qed.

Lemma lower_spaces (w : str) :
  forallb is_space w = true -> Latin1.lower w = w.
Proof.
  unfold Latin1.lower. induction w as [|c w IH]; [reflexivity|].
  cbn [forallb map]. intros H. apply andb_prop in H as (Hc & Hw).
  now rewrite lower_cp_space, IH.
Qed.

Lemma settled_base_lower (x : N) :
  forallb settled (latin1_base (Latin1.lower_cp x)) = true.
Proof.
  destruct (N.lt_ge_cases x 880) as [Hc|Hc].
  - apply (below_880
             (fun x => forallb settled (latin1_base (Latin1.lower_cp x))));
      [vm_compute; reflexivity | assumption].
  - rewrite lower_cp_high, latin1_base_high by assumption.
    cbn [forallb]. rewrite andb_true_r. unfold settled.
    rewrite lower_cp_high, N.eqb_refl by assumption.
    unfold Latin1.decomp, Latin1.is_Mn.
    replace (880 <=? x) with true by (symmetry; apply N.leb_le; lia).
    replace (x <=? 879) with false by (symmetry; apply N.leb_gt; lia).
    rewrite andb_false_r. cbn. now rewrite N.eqb_refl.
Qed.

Lemma In_strip (c : N) (s : str) : In c (strip s) -> In c s.
Proof.
  intros H. destruct (strip_split s) as (w1 & w2 & _ & _ & E).
  rewrite E, !in_app_iff. tauto.
Qed.

Lemma collapse_from_In (s : str) :
  forall (b : bool) (c : N),
    In c (collapse_from b s) -> c = 32 \/ In c s.
Proof.
  induction s as [|x s IH]; intros b c; cbn [collapse_from]; [intros []|].
  destruct (is_space x).
  - destruct b.
    + intros H. apply IH in H. cbn [In]. tauto.
    + intros [<-|H]; [now left|]. apply IH in H. cbn [In]. tauto.
  - intros [<-|H]; [right; now left|]. apply IH in H. cbn [In]. tauto.
Qed.

Lemma norm_latin1 (text : str) :
  _norm (U := latin1) text
  = collapse_from false
      (flat_map latin1_base (strip (Latin1.lower text))).
Proof.
  change (_norm (U := latin1) text)
    with (sub (Plus Space) (py " ")
            (strip_marks (U := latin1) (strip (Latin1.lower text)))).
  now rewrite sub_spaces, strip_marks_latin1.
Qed.

Lemma norm_settled (text : str) :
  forallb settled (_norm (U := latin1) text) = true.
Proof.
  apply forallb_forall. intros c Hc. rewrite norm_latin1 in Hc.
  apply collapse_from_In in Hc as [->|Hc]; [reflexivity|].
  apply in_flat_map in Hc as (x & Hx & Hc).
  apply In_strip in Hx. unfold Latin1.lower in Hx.
  apply in_map_iff in Hx as (y & <- & _).
  pose proof (settled_base_lower y) as F. rewrite forallb_forall in F.
  now apply F.
Qed.

(** Over the Latin table, every character of the normalised text is a
    character in lower case without a mark and without a decomposition:
    an accented letter never stands in it, and so the entries of the
    tables that are written with one, "hasta mañana" among the farewells
    and "órdenes" among the order nouns, never match. *)
Theorem norm_settled_text (text : str) :
  let t := _norm (U := latin1) text in
  forallb settled t = true
  /\ (forall w, existsb (fun c => negb (settled c)) w = true -> ~ occurs w t)
  /\ ~ occurs (py "hasta mañana") t
  /\ ~ occurs (py "órdenes") t.
Proof.
  intros t. pose proof (norm_settled text) as F. fold t in F.
  assert (G : forall w, existsb (fun c => negb (settled c)) w = true ->
                        ~ occurs w t).
  { intros w Hw (pre & post & E). apply existsb_exists in Hw as (c & Hc & Hn).
    rewrite forallb_forall in F. rewrite (F c) in Hn; [discriminate|].
    rewrite E, !in_app_iff. tauto. }
  repeat split; [exact F | exact G | apply G; reflexivity..].
Qed.

(** A text of blanks, the empty text among them: no greeting, no farewell,
    the help intent and no slot. *)
Theorem blank_text (text : str) :
  forallb is_space text = true ->
  _norm (U := latin1) text = []
  /\ is_greeting (U := latin1) text = false
  /\ is_farewell (U := latin1) text = false
  /\ detect_intent (U := latin1) text = HELP
  /\ forall (now : date) (sites areas : list str),
       extract_slots (U := latin1) now text sites areas = Ok no_slots.
Proof.
  intros H.
  assert (E : _norm (U := latin1) text = []).
  { rewrite norm_latin1, lower_spaces by assumption.
    pose proof (strip_spaces text [] [] H eq_refl) as S.
    cbn [app] in S. rewrite app_nil_r in S. rewrite S. reflexivity. }
  split; [exact E|].
  unfold is_greeting, is_farewell, detect_intent, extract_slots.
  rewrite E.
  split; [vm_compute; reflexivity|]. split; [vm_compute; reflexivity|].
  split; [vm_compute; reflexivity|].
  intros now sites areas. vm_compute. reflexivity.
Qed.

Lemma collapse_run (w : str) :
  forallb is_space w = true -> w <> [] ->
  forall (A B : str) (b : bool),
    collapse_from b (A ++ w ++ B) = collapse_from b (A ++ 32 :: B).
Proof.
  intros Hw Hne. induction A as [|x A IH]; intros B b.
  - destruct w as [|y w]; [contradiction|].
    cbn [forallb] in Hw. apply andb_prop in Hw as (Hy & Hw).
    cbn [app collapse_from]. rewrite Hy.
    change (is_space 32) with true. cbv iota.
    rewrite !collapse_from_true, lstrip_spaces by assumption.
    reflexivity.
  - cbn [app collapse_from]. now rewrite !IH.
Qed.

Lemma rstrip_app_tail (s t : str) :
  rstrip t <> [] -> rstrip (s ++ t) = s ++ rstrip t.
Proof.
  unfold rstrip. intros H. rewrite rev_app_distr.
  rewrite lstrip_app_head.
  - now rewrite rev_app_distr, rev_involutive.
  - intros E. apply H. now rewrite E.
Qed.

(** What [strip] leaves of a text around a run of blanks. *)
Lemma strip_run (a b w : str) :
  forallb is_space w = true ->
  strip (a ++ w ++ b)
  = match lstrip a, rstrip b with
    | [], _ => strip b
    | _ :: _, [] => strip a
    | _ :: _, _ :: _ => lstrip a ++ w ++ rstrip b
    end.
Proof.
  intros Hw. destruct (lstrip a) as [|x la] eqn:Ea.
  - apply lstrip_all_spaces in Ea.
    rewrite app_assoc, <- (app_nil_r b) at 1.
    apply strip_spaces; [|reflexivity].
    now rewrite forallb_app, Ea, Hw.
  - destruct (rstrip b) as [|y rb] eqn:Eb.
    + destruct (rstrip_split b) as (_ & w2 & Hw2 & E2).
      rewrite Eb in E2. cbn [app] in E2. subst w2.
      apply (strip_spaces [] a (w ++ b)); [reflexivity|].
      now rewrite forallb_app, Hw, Hw2.
    + unfold strip. rewrite lstrip_app_head by (rewrite Ea; discriminate).
      rewrite Ea, app_assoc, rstrip_app_tail by (rewrite Eb; discriminate).
      now rewrite Eb, <- app_assoc.
Qed.

(** Over the Latin table, a run of blanks in a text reads as one space,
    and blanks at the ends of a text are not read: tabs, line breaks and
    repeated spaces change nothing of what the functions of the module
    return. *)
Theorem blanks_read_as_one_space (a b w : str) :
  forallb is_space w = true -> w <> [] ->
  _norm (U := latin1) (a ++ w ++ b) = _norm (U := latin1) (a ++ py " " ++ b)
  /\ _norm (U := latin1) (w ++ a) = _norm (U := latin1) a
  /\ _norm (U := latin1) (a ++ w) = _norm (U := latin1) a
  /\ detect_intent (U := latin1) (a ++ w ++ b)
     = detect_intent (U := latin1) (a ++ py " " ++ b)
  /\ forall (now : date) (sites areas : list str),
       extract_slots (U := latin1) now (a ++ w ++ b) sites areas
       = extract_slots (U := latin1) now (a ++ py " " ++ b) sites areas.
Proof.
  intros Hw Hne.
  assert (L : forall v, forallb is_space v = true ->
                        Latin1.lower (a ++ v ++ b)
                        = Latin1.lower a ++ v ++ Latin1.lower b).
  { intros v Hv. unfold Latin1.lower. rewrite !map_app.
    fold (Latin1.lower v). now rewrite (lower_spaces v Hv). }
  assert (E : _norm (U := latin1) (a ++ w ++ b)
              = _norm (U := latin1) (a ++ py " " ++ b)).
  { rewrite !norm_latin1, (L w Hw), (L (py " ") eq_refl).
    rewrite !strip_run by (assumption || reflexivity).
    destruct (lstrip (Latin1.lower a)) as [|x la]; [reflexivity|].
    destruct (rstrip (Latin1.lower b)) as [|y rb]; [reflexivity|].
    rewrite !flat_map_app, (flat_map_spaces w Hw).
    apply collapse_run; assumption. }
  split; [exact E|]. split; [|split; [|split]].
  - rewrite !norm_latin1. unfold Latin1.lower. rewrite map_app.
    fold (Latin1.lower w). fold (Latin1.lower a). rewrite (lower_spaces w Hw).
    rewrite <- (app_nil_r (Latin1.lower a)) at 1.
    now rewrite (strip_spaces w (Latin1.lower a) []).
  - rewrite !norm_latin1. unfold Latin1.lower. rewrite map_app.
    fold (Latin1.lower w). fold (Latin1.lower a). rewrite (lower_spaces w Hw).
    change (Latin1.lower a ++ w) with ([] ++ Latin1.lower a ++ w).
    now rewrite (strip_spaces [] (Latin1.lower a) w).
  - unfold detect_intent. now rewrite E.
  - intros now sites areas. unfold extract_slots. now rewrite E.
Qed.

End Latin1Text.

(** * The rule of the month names, on any text *)

Section NamedMonthAnyText.
Context {U : Unicode}.
Variable now : date.
Hypothesis now_valid : valid now.
Local Open Scope Z_scope.

(** The range of the month [m] of the year [y], or the exception of a year
    without dates. *)
Lemma month_of_year (y m : Z) :
  1 <= m <= 12 ->
  (start <- date_new y m 1 ;;
   end_ <- (if m =? 12
            then (d <- date_new (y + 1) 1 1 ;; sub_days d 1)
            else (d <- date_new y (m + 1) 1 ;; sub_days d 1)) ;;
   Ok (Some (isoformat start, isoformat end_)))
  = if (1 <=? y) && (y <=? 9999) && negb ((m =? 12) && (y =? 9999))
    then Ok (Some (isoformat (mkdate y m 1),
                   isoformat (mkdate y m (_days_in_month y m))))
    else Raise ValueError.
Proof.
  intros Hm.
  destruct (Z.leb_spec 1 y) as [H1|H1]; cbn [andb].
  2:{ unfold date_new at 1. unfold MINYEAR.
      destruct (Z.leb_spec 1 y) as [|_]; [lia | reflexivity]. }
  destruct (Z.leb_spec y 9999) as [H2|H2]; cbn [andb].
  2:{ unfold date_new at 1. unfold MINYEAR, MAXYEAR.
      destruct (Z.leb_spec y 9999) as [|_]; [lia|].
      now rewrite andb_false_r. }
  rewrite date_new_valid.
  2:{ unfold valid, MINYEAR, MAXYEAR. cbn [year month day].
      pose proof (days_in_month_pos y m Hm). repeat split; lia. }
  cbn [bind]. destruct (Z.eqb_spec m 12) as [->|Hne]; cbn [andb].
  - destruct (Z.eqb_spec y 9999) as [->|Hy]; cbn [negb]; [reflexivity|].
    rewrite date_new_valid.
    2:{ unfold valid, MINYEAR, MAXYEAR. cbn [year month day].
        repeat split; try lia. unfold _days_in_month. tables. lia. }
    cbn [bind]. rewrite january_minus_one_day by lia. reflexivity.
  - cbn [negb]. rewrite date_new_valid.
    2:{ unfold valid, MINYEAR, MAXYEAR. cbn [year month day].
        assert (Hm' : 1 <= m + 1 <= 12) by lia.
        pose proof (days_in_month_pos y (m + 1) Hm'). repeat split; lia. }
    cbn [bind]. rewrite first_minus_one_day by lia. reflexivity.
Qed.

Lemma month_loop_first (l1 l2 : list (str * Z)) (name : str) (m : Z) (t : str)
    (mobj : caps) :
  Forall (fun p => ~ occurs_as_word (fst p) t) l1 ->
  search (month_re name) t = Some mobj ->
  month_loop now (l1 ++ (name, m) :: l2) t
  = (y <- match group mobj 1 with
          | Some ((_ :: _) as g1) => int g1
          | _ => Ok (year now)
          end ;;
     start <- date_new y m 1 ;;
     end_ <- (if m =? 12
              then (d <- date_new (y + 1) 1 1 ;; sub_days d 1)
              else (d <- date_new y (m + 1) 1 ;; sub_days d 1)) ;;
     Ok (Some (isoformat start, isoformat end_))).
Proof.
  intros H S. induction H as [|[n' m'] l1 Hn _ IH]; cbn [app month_loop].
  - now rewrite S.
  - cbn [fst] in Hn. apply found_word_re_false in Hn.
    rewrite <- found_month_re in Hn. unfold found in Hn.
    destruct (search (month_re n') t); [discriminate | exact IH].
Qed.

(** The rule of the month names on any text: the month is the first of the
    table [MONTHS] whose name stands in the text as a word, wherever the
    names stand in the text and whatever else the text says; the year is
    the number of four digits behind the name, or the year of the clock;
    and the range is that month, from its first to its last day, but for
    the year 0 and for the December of the year 9999, on which the rule
    raises [ValueError]. *)
Theorem named_month_rule (l1 l2 : list (str * Z)) (name : str) (m : Z)
    (t : str) :
  MONTHS = l1 ++ (name, m) :: l2 ->
  Forall (fun p => ~ occurs_as_word (fst p) t) l1 ->
  occurs_as_word name t ->
  exists y,
    (y = year now
     \/ exists ds, length ds = 4%nat /\ forallb is_digit ds = true
                   /\ occurs ds t /\ int ds = Ok y)
    /\ 0 <= y
    /\ _apply_date_pattern now t
       = if (1 <=? y) && (y <=? 9999) && negb ((m =? 12) && (y =? 9999))
         then Ok (Some (isoformat (mkdate y m 1)),
                  Some (isoformat (mkdate y m (_days_in_month y m))))
         else Raise ValueError.
Proof.
  intros E H Hw.
  assert (Hm : 1 <= m <= 12).
  { assert (F : Forall (fun p => 1 <= snd p <= 12) MONTHS)
      by (repeat constructor; cbn; lia).
    rewrite Forall_forall in F. apply (F (name, m)).
    rewrite E. apply in_elt. }
  apply found_word_re in Hw. rewrite <- found_month_re in Hw. unfold found in Hw.
  destruct (search (month_re name) t) as [mobj|] eqn:S; [|discriminate].
  unfold _apply_date_pattern, _month_range_from_name.
  rewrite E, (month_loop_first l1 l2 name m t mobj H S).
  assert (G : forall y (K : option (str * str) -> result (option str * option str)),
             (forall a b, K (Some (a, b)) = Ok (Some a, Some b)) ->
             bind (bind (Ok y)
                     (fun y =>
                        start <- date_new y m 1 ;;
                        end_ <- (if m =? 12
                                 then (d <- date_new (y + 1) 1 1 ;; sub_days d 1)
                                 else (d <- date_new y (m + 1) 1 ;; sub_days d 1)) ;;
                        Ok (Some (isoformat start, isoformat end_)))) K
             = if (1 <=? y) && (y <=? 9999) && negb ((m =? 12) && (y =? 9999))
               then Ok (Some (isoformat (mkdate y m 1)),
                        Some (isoformat (mkdate y m (_days_in_month y m))))
               else Raise ValueError).
  { intros y K HK. cbn [bind]. rewrite (month_of_year y m Hm).
    destruct ((1 <=? y) && (y <=? 9999) && negb ((m =? 12) && (y =? 9999)));
      cbn [bind]; [apply HK | reflexivity]. }
  destruct (search_month_re name t mobj S) as [Hg|(ds & Hg & Hl & Hd & Ho)];
    rewrite Hg.
  - exists (year now). destruct now_valid as (Hy & _). unfold MINYEAR in Hy.
    split; [now left|]. split; [lia|].
    apply G. reflexivity.
  - destruct ds as [|d0 ds]; [discriminate|].
    destruct (int_total (d0 :: ds)) as (y & Hy); [discriminate | assumption|].
    exists y. split; [right; exists (d0 :: ds); now repeat split|].
    split; [now apply int_nonneg in Hy|].
    rewrite Hy. apply G. reflexivity.
Qed.

End NamedMonthAnyText.

(** * Amounts of money *)

Section Amounts.
Import SpecFloat Money.
Local Open Scope Z_scope.

Lemma replace_chain (s : str) :
  replace1 88%N 46%N (replace1 46%N 44%N (replace1 44%N 88%N s))
  = map swap_char s.
Proof. unfold replace1. rewrite !map_map. reflexivity. Qed.

Lemma digit_range (k : Z) : (48 <= digit k <= 57)%N.
Proof.
  unfold digit. assert (0 <= k mod 10 < 10) by (apply Z.mod_pos_bound; lia).
  lia.
Qed.

Lemma swap_digit (k : Z) : swap_char (digit k) = digit k.
Proof.
  pose proof (digit_range k) as H. unfold swap_char.
  destruct (N.eqb_spec (digit k) 44) as [E|_]; [lia|].
  destruct (N.eqb_spec (digit k) 46) as [E|_]; [lia|].
  destruct (N.eqb_spec (digit k) 88) as [E|_]; [lia | reflexivity].
Qed.

Lemma dec_digit (k : Z) : dec (digit k) = k mod 10.
Proof.
  unfold dec, digit. assert (0 <= k mod 10 < 10) by (apply Z.mod_pos_bound; lia).
  lia.
Qed.

Lemma swap_upto3 (n : Z) : map swap_char (upto3 n) = upto3 n.
Proof.
  unfold upto3. destruct (n <? 10); [|destruct (n <? 100)]; cbn [map];
    now rewrite !swap_digit.
Qed.

Lemma swap_grouped (fuel : nat) :
  forall n, map swap_char (grouped fuel 44%N n) = grouped fuel 46%N n.
Proof.
  induction fuel as [|fuel IH]; intros n; cbn [grouped]; [apply swap_upto3|].
  destruct (n <? 1000); [apply swap_upto3|].
  rewrite map_app, IH. cbn [map]. now rewrite !swap_digit.
Qed.

Lemma read_groups_end (acc a b : Z) :
  read_groups acc (44%N :: pad2 (10 * a + b)) = Some (acc * 100 + (10 * a + b) mod 100).
Proof.
  unfold pad2. cbn [read_groups]. change (44 =? 44)%N with true. cbv iota.
  rewrite !digit_ascii, !dec_digit. cbn [andb]. f_equal. divmod.
Qed.

Lemma read_groups_step (acc a b c : Z) (s : str) :
  read_groups acc (46%N :: digit a :: digit b :: digit c :: s)
  = read_groups (acc * 1000 + 100 * (a mod 10) + 10 * (b mod 10) + c mod 10) s.
Proof.
  cbn [read_groups]. change (46 =? 44)%N with false.
  change (46 =? 46)%N with true. cbv iota.
  now rewrite !digit_ascii, !dec_digit.
Qed.

Lemma read_upto3 (n : Z) (x : cp) (tail : str) :
  0 <= n < 1000 -> ascii_digit x = false ->
  read_amount (upto3 n ++ x :: tail) = read_groups n (x :: tail).
Proof.
  intros Hn Hx. unfold upto3.
  destruct (Z.ltb_spec n 10) as [H1|H1]; [|destruct (Z.ltb_spec n 100) as [H2|H2]];
    cbn [app read_amount]; rewrite ?digit_ascii, ?Hx, ?dec_digit.
  - destruct tail; [|f_equal; divmod].
    cbn [read_groups]. reflexivity.
  - destruct tail as [|y tail].
    + cbn [read_groups]. reflexivity.
    + f_equal. divmod.
  - f_equal. divmod.
Qed.

Lemma read_grouped (fuel : nat) :
  forall (n : Z) (x : cp) (tail : str),
    0 <= n < 1000 ^ Z.of_nat (S fuel) ->
    ascii_digit x = false ->
    read_amount (grouped fuel 46%N n ++ x :: tail) = read_groups n (x :: tail).
Proof.
  induction fuel as [|fuel IH]; intros n x tail Hn Hx; cbn [grouped].
  - apply read_upto3; [|assumption]. cbn in Hn. lia.
  - destruct (Z.ltb_spec n 1000) as [H|H]; [apply read_upto3; [lia | assumption]|].
    rewrite <- app_assoc. cbn [app].
    rewrite IH; [| |reflexivity].
    + rewrite read_groups_step. f_equal.
      assert (E1 : n / 100 = n / 10 / 10)
        by (rewrite Z.div_div by lia; reflexivity).
      assert (E2 : n / 1000 = n / 10 / 10 / 10)
        by (rewrite <- E1, Z.div_div by lia; reflexivity).
      rewrite E1, E2. divmod.
    + rewrite Nat2Z.inj_succ, Z.pow_succ_r in Hn by lia.
      split; [apply Z.div_pos; lia|]. apply Z.div_lt_upper_bound; lia.
Qed.

Lemma thousands_fuel (n : Z) :
  0 <= n -> n < 1000 ^ Z.of_nat (S (Z.to_nat (Z.log2 n))).
Proof.
  intros Hn. destruct (Z.eq_dec n 0) as [->|Hz]; [reflexivity|].
  assert (Hp : 0 < n) by lia.
  pose proof (Z.log2_spec n Hp) as (_ & Hu).
  pose proof (Z.log2_nonneg n) as Hl.
  rewrite Nat2Z.inj_succ, Z2Nat.id by assumption.
  apply Z.lt_le_trans with (1 := Hu).
  apply Z.pow_le_mono_l. lia.
Qed.

Lemma cents_nonneg (m : positive) (e : Z) : 0 <= cents m e.
Proof.
  unfold cents. destruct (Z.leb_spec 0 e) as [He|He].
  - assert (0 < 2 ^ e) by (apply Z.pow_pos_nonneg; lia). nia.
  - assert (Hd : 0 < 2 ^ (- e)) by (apply Z.pow_pos_nonneg; lia).
    assert (0 <= Z.pos m * 100 / 2 ^ (- e)) by (apply Z.div_pos; lia).
    cbv zeta. destruct (_ || _); lia.
Qed.

(** The text of an amount: the sign, the hundredths in the Spanish
    style. *)
Lemma read_amount_text (s : bool) (c : Z) :
  0 <= c ->
  read_money
    (map swap_char
       (sign s ++ thousands 44%N (c / 100) ++ py "." ++ pad2 (c mod 100)))
  = Some (s, c).
Proof.
  intros Hc. rewrite !map_app. unfold thousands. rewrite swap_grouped.
  assert (Hq : 0 <= c / 100) by (apply Z.div_pos; lia).
  assert (Hr : 0 <= c mod 100 < 100) by (apply Z.mod_pos_bound; lia).
  assert (E : map swap_char (py ".") ++ map swap_char (pad2 (c mod 100))
              = 44%N :: pad2 (10 * (c mod 100 / 10) + c mod 100 mod 10)).
  { unfold pad2. cbn [map app]. rewrite !swap_digit.
    change (swap_char 46) with 44%N. cbn [app].
    replace (10 * (c mod 100 / 10) + c mod 100 mod 10) with (c mod 100)
      by divmod.
    reflexivity. }
  rewrite E.
  assert (R : read_amount
                (grouped (Z.to_nat (Z.log2 (c / 100))) 46%N (c / 100)
                 ++ 44%N :: pad2 (10 * (c mod 100 / 10) + c mod 100 mod 10))
              = Some c).
  { rewrite read_grouped;
      [|split; [assumption | now apply thousands_fuel] | reflexivity].
    rewrite read_groups_end. f_equal. divmod. }
  destruct s; cbn [sign map app].
  - change (map swap_char (py "-")) with [45%N]. cbn [app read_money].
    change (45 =? 45)%N with true. cbv iota. now rewrite R.
  - unfold read_money.
    destruct (grouped _ _ _ ++ _) as [|x rest] eqn:G.
    + discriminate R.
    + destruct (N.eqb_spec x 45) as [->|_]; [|now rewrite R].
      cbn [read_amount] in R. discriminate R.
Qed.

Section WithRepr.
Variable repr : spec_float -> str.

(** The text of [_fmt_money] for a finite float reads back, in the Spanish
    style, as the sign of the float and the number of hundredths nearest
    to it, the even one of two; that number is exact for a float that is a
    multiple of a hundredth, and half a hundredth off at most.  For a
    float that is no number the text is "nan", "inf" or "-inf", and for
    [None] it is "None". *)
Theorem fmt_money_reads_back :
  (forall (s : bool) (m : positive) (e : Z),
      read_money (_fmt_money repr (FloatValue (S754_finite s m e)))
      = Some (s, cents m e))
  /\ (forall s : bool,
        read_money (_fmt_money repr (FloatValue (S754_zero s))) = Some (s, 0))
  /\ (forall (m : positive) (e : Z),
        if 0 <=? e then cents m e = Z.pos m * 2 ^ e * 100
        else Z.abs (2 * (cents m e * 2 ^ (- e) - Z.pos m * 100)) <= 2 ^ (- e))
  /\ _fmt_money repr (FloatValue S754_nan) = py "nan"
  /\ _fmt_money repr (FloatValue (S754_infinity false)) = py "inf"
  /\ _fmt_money repr (FloatValue (S754_infinity true)) = py "-inf"
  /\ _fmt_money repr NoneValue = py "None".
Proof.
  split; [|split; [|split; [|repeat split]]].
  - intros s m e. unfold _fmt_money. cbn [float format_2f].
    rewrite replace_chain. apply read_amount_text, cents_nonneg.
  - intros s. unfold _fmt_money. cbn [float format_2f].
    rewrite replace_chain. now destruct s.
  - intros m e. unfold cents. destruct (Z.leb_spec 0 e) as [He|He];
      [reflexivity|].
    assert (Hd : 0 < 2 ^ (- e)) by (apply Z.pow_pos_nonneg; lia).
    cbv zeta.
    pose proof (Z.div_mod (Z.pos m * 100) (2 ^ (- e))) as D.
    pose proof (Z.mod_pos_bound (Z.pos m * 100) (2 ^ (- e)) Hd) as B.
    set (d := 2 ^ (- e)) in *. set (n := Z.pos m * 100) in *.
    set (q := n / d) in *. set (r := n mod d) in *.
    specialize (D ltac:(lia)).
    destruct (Z.ltb_spec d (2 * r)) as [H1|H1]; cbn [orb]; [nia|].
    destruct (Z.eqb_spec (2 * r) d) as [H2|H2]; cbn [andb];
      [destruct (Z.odd q)|]; nia.
Qed.

End WithRepr.
End Amounts.

(** * The filters that the indicators set themselves *)

Section ForcedFilters.
Import Data.

Lemma where_text_forced (bs : list bool) (cs : list str) :
  chosen bs cs <> [] ->
  where_text (chosen bs cs) = py "WHERE " ++ join (py " AND ") (chosen bs cs).
Proof. unfold where_text. now destruct (chosen bs cs). Qed.

(** The indicators overwrite filters of the user: the mean time to repair
    is always that of the closed orders, the backlog ignores the state
    asked for, the compliance is always that of the preventive orders, the
    time between failures always that of the closed corrective orders, and
    the counts of a person those of that person, or of everybody where the
    name is empty.  The other filters of the user are all kept, in the
    order of the clauses.  The text of the time between failures, which
    goes on with [AND], always has its [WHERE]. *)
Theorem forced_filters (s : Slots) (person : str) :
  let before := slot_param (site s) ++ slot_param (area s) in
  let tech := slot_param (technician s) in
  let dates := slot_param (date_from s) ++ slot_param (date_to s) in
  params (kpi_mttr_statement s)
  = before ++ [PStr (py "Cerrada")] ++ slot_param (type s) ++ tech ++ dates
  /\ params (kpi_backlog_days_statement s)
     = before ++ slot_param (type s) ++ tech ++ dates
  /\ params (kpi_pm_compliance_statement s)
     = before ++ slot_param (status s) ++ [PStr (py "PM")] ++ tech ++ dates
  /\ params (kpi_mtbf_statement s)
     = before ++ [PStr (py "Cerrada"); PStr (py "CM")] ++ tech ++ dates
  /\ params (tech_person_counts_statement s person)
     = before ++ slot_param (status s) ++ slot_param (type s)
         ++ slot_param (Some person) ++ dates
  /\ exists clauses,
       clauses <> []
       /\ sql (kpi_mtbf_statement s)
          = py "SELECT closed_at FROM work_orders WHERE "
              ++ join (py " AND ") clauses
              ++ py " AND closed_at IS NOT NULL ORDER BY closed_at".
Proof.
  cbv zeta.
  unfold kpi_mttr_statement, kpi_backlog_days_statement,
    kpi_pm_compliance_statement, kpi_mtbf_statement,
    tech_person_counts_statement.
  rewrite !filters_to_where_eq. cbn [params sql].
  unfold with_status, with_type, with_technician.
  cbn [site area status type technician date_from date_to].
  change (slot_param (Some (py "Cerrada"))) with [PStr (py "Cerrada")].
  change (slot_param (Some (py "PM"))) with [PStr (py "PM")].
  change (slot_param (Some (py "CM"))) with [PStr (py "CM")].
  change (slot_param None) with (@nil param).
  rewrite <- !app_assoc.
  do 5 (split; [reflexivity|]).
  match goal with |- context [where_text ?c] => exists c end.
  assert (N : chosen
                (set_filters
                   (mkSlots (site s) (area s) (Some (py "CM"))
                      (Some (py "Cerrada")) (date_from s) (date_to s)
                      (technician s)))
                filter_clauses <> []).
  { unfold set_filters, filter_clauses. cbn [map site area status type].
    rewrite !chosen_cons.
    change (truthy (Some (py "Cerrada"))) with true. cbv iota.
    destruct (if truthy (site s) then _ else _),
      (if truthy (area s) then _ else _); discriminate. }
  split; [exact N|].
  rewrite (where_text_forced _ _ N).
  replace (py "SELECT closed_at FROM work_orders WHERE ")
    with (py "SELECT closed_at FROM work_orders " ++ py "WHERE ")
    by (vm_compute; reflexivity).
  now rewrite <- !app_assoc.
Qed.

End ForcedFilters.

(** * The version shown by the service *)

Section VersionText.
Import Version.

Lemma lstrip_begins (s : str) (c : cp) (r : str) :
  lstrip s = c :: r -> is_space c = false.
Proof.
  induction s as [|a s IH]; cbn [lstrip]; [discriminate|].
  destruct (is_space a) eqn:E; [exact IH|]. now intros [= <- <-].
Qed.

Lemma lstrip_is_suffix (s : str) : exists p, s = p ++ lstrip s.
Proof.
  induction s as [|a s (p & IH)]; [now exists []|]. cbn [lstrip].
  destruct (is_space a); [|now exists []].
  exists (a :: p). cbn [app]. now f_equal.
Qed.

Lemma strip_begins (s : str) (c : cp) (r : str) :
  strip s = c :: r -> is_space c = false.
Proof.
  unfold strip, rstrip. intros E.
  destruct (lstrip s) as [|a l] eqn:El; [discriminate E|].
  destruct (lstrip_is_suffix (rev (a :: l))) as (p & Hp).
  apply (f_equal (@rev cp)) in Hp. rewrite rev_involutive, rev_app_distr, E in Hp.
  cbn [app] in Hp. injection Hp as -> _.
  exact (lstrip_begins _ _ _ El).
Qed.

(** The commit that the service shows is never empty and has seven
    characters at most, whatever the variable [GIT_SHA] of the environment
    holds; it begins with no blank. *)
Theorem git_sha_shape (env : option str) :
  exists (c : cp) (r : str),
    git_sha env = c :: r /\ is_space c = false /\ (length r <= 6)%nat.
Proof.
  unfold git_sha, GIT_SHA.
  destruct (strip _) as [|c v] eqn:E.
  - exists 100%N, (py "ev").
    split; [reflexivity | split; [reflexivity | cbn; lia]].
  - exists c, (firstn 6 v).
    split; [reflexivity | split].
    + exact (strip_begins _ _ _ E).
    + apply firstn_le_length.
Qed.

End VersionText.

(** * Instances of the theorems on the rest of the code *)

Lemma no_month_name_check {U : Unicode} (t : str) :
  forallb (fun p => negb (found (word_re (fst p)) t)) MONTHS = true ->
  no_month_name t.
Proof.
  intros H name m Hin. rewrite forallb_forall in H.
  apply found_word_re_false. specialize (H (name, m) Hin). cbn [fst] in H.
  now destruct (found (word_re name) t).
Qed.

(** The month before March 2025. *)
Lemma mes_pasado_range_witness :
  _apply_date_pattern (U := latin1) now0 (py "costos mes pasado")
  = Ok (Some (py "2025-02-01"), Some (py "2025-02-28")).
Proof.
  refine (mes_pasado_range (U := latin1) now0 now0_valid
            (py "costos mes pasado") _ _ _).
  - apply no_month_name_check. vm_compute. reflexivity.
  - apply found_word_re_false. vm_compute. reflexivity.
  - apply found_word_re. vm_compute. reflexivity.
Defined.

(** The week of Saturday 15 March 2025 began on Monday 10 March. *)
Lemma esta_semana_range_witness :
  exists start,
    _apply_date_pattern (U := latin1) now0 (py "backlog esta semana")
    = Ok (Some (isoformat start), Some (isoformat now0))
    /\ valid start /\ weekday start = 0%Z
    /\ (toordinal now0 - 6 <= toordinal start <= toordinal now0)%Z.
Proof.
  refine (esta_semana_range (U := latin1) now0 now0_valid
            (py "backlog esta semana") _ _ _ _).
  - apply no_month_name_check. vm_compute. reflexivity.
  - apply found_word_re_false. vm_compute. reflexivity.
  - apply found_word_re_false. vm_compute. reflexivity.
  - apply found_word_re. vm_compute. reflexivity.
Defined.

(** The week before the week of 15 March 2025. *)
Lemma semana_pasada_range_witness :
  exists monday sunday,
    _apply_date_pattern (U := latin1) now0 (py "paradas semana pasada")
    = Ok (Some (isoformat monday), Some (isoformat sunday))
    /\ valid monday /\ valid sunday
    /\ weekday monday = 0%Z /\ weekday sunday = 6%Z
    /\ toordinal sunday = (toordinal monday + 6)%Z
    /\ (toordinal sunday < toordinal now0 <= toordinal sunday + 7)%Z.
Proof.
  refine (semana_pasada_range (U := latin1) now0 now0_valid
            (py "paradas semana pasada") _ _ _ _ _).
  - apply no_month_name_check. vm_compute. reflexivity.
  - apply found_word_re_false. vm_compute. reflexivity.
  - apply found_word_re_false. vm_compute. reflexivity.
  - apply found_word_re_false. vm_compute. reflexivity.
  - apply found_word_re. vm_compute. reflexivity.
Defined.


Lemma date_slots_paired_witness :
  (date_from slots_este_mes = None /\ date_to slots_este_mes = None)
  \/ exists a b,
       date_from slots_este_mes = Some a /\ date_to slots_este_mes = Some b
       /\ iso_shape (U := latin1) a /\ iso_shape (U := latin1) b.
Proof.
  refine (date_slots_paired (U := latin1) now0 (py "mttr este mes") [] []
            slots_este_mes _).
  vm_compute. reflexivity.
Defined.

(** Two technicians, two periods: one text of the statements. *)
Lemma statement_text_ignores_values_witness :
  map Data.sql
    (statements
       (mkSlots None None None (Some (py "Abierta")) (Some (py "2025-03-01"))
          (Some (py "2025-03-15")) (Some (py "Andres"))) 6 5 (py "Andres"))
  = map Data.sql
      (statements
         (mkSlots None None None (Some (py "Cerrada")) (Some (py "2024-01-01"))
            (Some (py "2024-12-31")) (Some (py "'; DROP TABLE work_orders; --")))
         12 3 (py "Pablo")).
Proof.
  refine (statement_text_ignores_values _ _ 6%Z 12%Z 5%Z 3%Z _ _ _ _).
  - reflexivity.
  - split; discriminate.
Defined.

Lemma slots_andres_extracted :
  extract_slots (U := latin1) now0 (py "cuantas ordenes abiertas tiene andres")
    [py "Planta 1"] [py "Linea 2"]
  = Ok slots_andres.
Proof. vm_compute. reflexivity. Qed.

Lemma slots_andres_ensured :
  Main._ensure_month_default now0 slots_andres = Ok slots_andres_month.
Proof. vm_compute. reflexivity. Qed.

Lemma webhook_filters_witness :
  set_filters slots_andres_month
  = [false; false; Data.truthy (status slots_andres);
     Data.truthy (type slots_andres); Data.truthy (technician slots_andres);
     true; true]
  /\ exists a b,
       date_from slots_andres_month = Some a
       /\ date_to slots_andres_month = Some b
       /\ iso_shape (U := latin1) a /\ iso_shape (U := latin1) b
       /\ exists ps,
            snd (Data._filters_to_where slots_andres_month)
            = ps ++ [Data.PStr a; Data.PStr b].
Proof.
  exact (webhook_filters (U := latin1) now0 now0 _ _ _ _ _
           slots_andres_extracted slots_andres_ensured).
Defined.

Lemma range_tag_spells_dates_witness :
  exists a b,
    date_from slots_andres_month = Some a /\ date_to slots_andres_month = Some b
    /\ Formatters._range_tag slots_andres_month
       = py "(" ++ a ++ py " → " ++ b ++ py ")"
    /\ Formatters._range_tag slots_andres_month <> py "(Mes actual)".
Proof.
  exact (range_tag_spells_dates (U := latin1) now0 now0 _ _ _ _ _
           slots_andres_extracted slots_andres_ensured).
Defined.

Lemma period_label_mes_actual_witness :
  (occurs_as_word (U := latin1) (py "este mes")
     (_norm (U := latin1) (py "MTTR este mes")) ->
   exists s,
     extract_slots (U := latin1) now0 (py "MTTR este mes") [] [] = Ok s
     /\ Formatters._period_label now0 (Some s) = py " (Mes actual)")
  /\ (forall s,
        extract_slots (U := latin1) now0 (py "MTTR este mes") [] [] = Ok s ->
        date_from s = None ->
        exists s',
          Main._ensure_month_default now0 s = Ok s'
          /\ Formatters._period_label now0 (Some s') = py " (Mes actual)").
Proof.
  refine (period_label_mes_actual (U := latin1) now0 now0_valid
            (py "MTTR este mes") [] [] _).
  apply no_month_name_check. vm_compute. reflexivity.
Defined.

Lemma status_counts_total_witness :
  Formatters.dict_get (Counts.status_counts rows_example) (Some (py "Total")) 0
  = 16%Z
  /\ (Formatters.dict_get (Counts.status_counts rows_example)
        (Some (py "Abierta")) 0
      + Formatters.dict_get (Counts.status_counts rows_example)
          (Some (py "En Progreso")) 0
      + Formatters.dict_get (Counts.status_counts rows_example)
          (Some (py "Cerrada")) 0 = 13)%Z.
Proof.
  assert (N : NoDup (map fst rows_example)).
  { unfold rows_example. cbn [map fst].
    repeat (apply NoDup_cons; [vm_compute; intuition discriminate|]).
    apply NoDup_nil. }
  destruct (status_counts_total rows_example N) as (_ & T & _).
  split; [rewrite T; reflexivity | vm_compute; reflexivity].
Defined.

Lemma report_time_round_trip_witness :
  let d1 := fst (Sessions.set_report_time 9 (Some (py "18:30")) db_example) in
  well_keyed d1
  /\ snd (Sessions.set_report_time 9 (Some (py "18:30")) db_example) = Ok tt
  /\ snd (Sessions.get_report_time 9 d1)
     = Ok (if Data.truthy (Some (py "18:30")) then Some (py "18:30") else None)
  /\ (forall hh, In (9%Z, hh) (snd (Sessions.all_chat_ids_with_time d1))
                 <-> Some (py "18:30") = Some hh)
  /\ (forall c', c' <> 9%Z ->
        snd (Sessions.get_report_time c' d1)
        = snd (Sessions.get_report_time c' db_example)
        /\ forall hh, In (c', hh) (snd (Sessions.all_chat_ids_with_time d1))
                      <-> In (c', hh)
                            (snd (Sessions.all_chat_ids_with_time db_example))).
Proof.
  refine (report_time_round_trip db_example 9%Z (Some (py "18:30")) _ _);
    reflexivity.
Defined.

Lemma last_seen_keeps_report_times_witness :
  let d1 :=
    fst (Sessions.update_last_seen (py "2025-03-15T10:31:00") 7 db_example) in
  well_keyed d1
  /\ snd (Sessions.all_chat_ids_with_time d1)
     = snd (Sessions.all_chat_ids_with_time db_example)
  /\ forall c', snd (Sessions.get_report_time c' d1)
                = snd (Sessions.get_report_time c' db_example).
Proof.
  refine (last_seen_keeps_report_times db_example
            (py "2025-03-15T10:31:00") 7%Z _).
  reflexivity.
Defined.

Lemma listing_matches_lookup_witness :
  snd (Sessions.get_report_time 5 db_example) = Ok (Some (py "07:00"))
  <-> In (5%Z, py "07:00") (snd (Sessions.all_chat_ids_with_time db_example))
      /\ py "07:00" <> [].
Proof.
  refine (listing_matches_lookup db_example 5%Z (py "07:00") _ _); reflexivity.
Defined.

(** The address of a request to the API of Telegram, with the token of the
    bot in it. *)
Lemma sanitize_leaves_no_secret_witness :
  LoggingConf._sanitize (U := latin1)
    (py "POST https://api.telegram.org/bot123456:AAHabcdefghijklmnopqrstuvwxyz/sendMessage")
  = py "POST https://api.telegram.org/***/sendMessage"
  /\ found (U := latin1) (nth 0 LoggingConf.SECRET_PATTERNS Eps)
       (LoggingConf._sanitize (U := latin1)
          (py "POST https://api.telegram.org/bot123456:AAHabcdefghijklmnopqrstuvwxyz/sendMessage"))
     = false.
Proof.
  split; [vm_compute; reflexivity|].
  apply (sanitize_leaves_no_secret (U := latin1)). left. reflexivity.
Defined.

Lemma technician_and_state_get_an_answer_witness :
  detect_intent (U := latin1) (py "las cerradas de Pablo") <> HELP.
Proof.
  apply (technician_and_state_get_an_answer (U := latin1)).
  - apply any_in_false. vm_compute. reflexivity.
  - apply any_in_spec. vm_compute. reflexivity.
  - right. left. apply str_in_spec. vm_compute. reflexivity.
Defined.

Lemma greeting_accents_witness :
  is_greeting (U := latin1) (py "buenos días")
  = is_greeting (U := latin1) (py "buenos dias")
  /\ is_farewell (U := latin1) (py "buenos días")
     = is_farewell (U := latin1) (py "buenos dias").
Proof.
  apply (greeting_accents (U := latin1) (L := latin1_laws)).
  vm_compute. reflexivity.
Defined.

Lemma blank_text_witness :
  _norm (U := latin1) [32; 9; 10; 160]%N = []
  /\ is_greeting (U := latin1) [32; 9; 10; 160]%N = false
  /\ is_farewell (U := latin1) [32; 9; 10; 160]%N = false
  /\ detect_intent (U := latin1) [32; 9; 10; 160]%N = HELP
  /\ forall (now : date) (sites areas : list str),
       extract_slots (U := latin1) now [32; 9; 10; 160]%N sites areas
       = Ok no_slots.
Proof. apply blank_text. reflexivity. Defined.

Lemma blanks_read_as_one_space_witness :
  _norm (U := latin1) (py "costos" ++ [9; 10; 32]%N ++ py "este mes")
  = _norm (U := latin1) (py "costos" ++ py " " ++ py "este mes").
Proof.
  refine (proj1 (blanks_read_as_one_space (py "costos") (py "este mes")
                   [9; 10; 32]%N _ _)).
  - reflexivity.
  - discriminate.
Defined.

(** "de mayo a febrero 2024": February stands before May in the table. *)
Lemma named_month_rule_witness :
  exists y,
    (y = year now0
     \/ exists ds, length ds = 4%nat /\ forallb is_digit ds = true
                   /\ occurs ds (py "de mayo a febrero 2024")
                   /\ int (U := latin1) ds = Ok y)
    /\ (0 <= y)%Z
    /\ _apply_date_pattern (U := latin1) now0 (py "de mayo a febrero 2024")
       = if ((1 <=? y) && (y <=? 9999) && negb ((2 =? 12) && (y =? 9999)))%Z
         then Ok (Some (isoformat (mkdate y 2 1)),
                  Some (isoformat (mkdate y 2 (_days_in_month y 2))))
         else Raise ValueError.
Proof.
  refine (named_month_rule (U := latin1) now0 now0_valid
            [(py "enero", 1%Z)] (skipn 2 MONTHS) (py "febrero") 2%Z
            (py "de mayo a febrero 2024") _ _ _).
  - reflexivity.
  - constructor; [|constructor]. apply found_word_re_false.
    vm_compute. reflexivity.
  - apply found_word_re. vm_compute. reflexivity.
Defined.
